(** * MLFQ scheduler simulation (note6/mlfq/mlfq_simulation.c)

    A shallow embedding of the discrete-event Multi-Level Feedback Queue
    simulation and the properties of its scheduling loop.

    Representation choices, each local to one definition below:
    - a C [int] is a [Z] kept in the 32-bit two's complement range by [wrap];
    - a [Process *] is the index of the process in the caller's array
      ([ProcRef]); every write through a pointer is an update of the shared
      [processes] store at that index, so two copies of a pointer alias;
    - a [Queue] keeps the live prefix [processes[0 .. count-1]] of its pointer
      array as a list, [count] being its length;
    - every [printf] of the scheduling loop is an [Event] pushed on [trace]
      (newest first). *)

From stdpp Require Import base numbers list.

Local Open Scope Z_scope.

(** ** Machine integers *)

Definition INT_MIN : Z := -2147483648.
Definition INT_MAX : Z := 2147483647.

Definition is_int (z : Z) : Prop := INT_MIN ≤ z ≤ INT_MAX.

Definition wrap (z : Z) : Z := (z + 2147483648) `mod` 4294967296 - 2147483648.

Definition int_add (a b : Z) : Z := wrap (a + b).
Definition int_sub (a b : Z) : Z := wrap (a - b).
Definition int_mul (a b : Z) : Z := wrap (a * b).
(** C division truncates toward zero. *)
Definition int_div (a b : Z) : Z := wrap (a `quot` b).

(** ** Data model *)

Definition MAX_PROCESSES : Z := 10.
Definition NUM_QUEUES : nat := 3.

Record Process := mkProcess {
  id : Z;
  arrival_time : Z;
  burst_time : Z;
  remaining_time : Z;
  current_queue : Z;
  time_in_current_quantum : Z;
  completion_time : Z;
  turnaround_time : Z;
  waiting_time : Z;
  first_run_time : Z;
  is_io_bound : Z
}.

(** A [Process *] into the array handed to [run_mlfq_simulation]. *)
Abbreviation ProcRef := nat (only parsing).

Record Queue := mkQueue {
  qprocs : list ProcRef;
  time_quantum : Z
}.

Definition count (q : Queue) : Z := Z.of_nat (length (qprocs q)).

(** The lines the scheduling loop prints. *)
Inductive Event : Type :=
  | EvArrive (time pid burst io : Z)
  | EvBoost (time : Z)
  | EvRun (time pid priority remaining quantum : Z)
  | EvComplete (time pid : Z)
  | EvYield (time pid priority : Z)
  | EvDemote (time pid next_queue : Z)
  | EvReturn (time pid priority : Z)
  | EvIdle (time : Z)
  | EvError.

(** The globals of the program, the array [processes] of the caller, the
    local [completed] of [run_mlfq_simulation] and the output so far. *)
Record State := mkState {
  processes : list Process;
  queues : list Queue;
  current_time : Z;
  boost_interval : Z;
  last_boost_time : Z;
  completed : Z;
  trace : list Event
}.

(** *** Field updates *)

Definition set_arrival_time (v : Z) (p : Process) : Process :=
  mkProcess (id p) v (burst_time p) (remaining_time p) (current_queue p)
    (time_in_current_quantum p) (completion_time p) (turnaround_time p)
    (waiting_time p) (first_run_time p) (is_io_bound p).
Definition set_remaining_time (v : Z) (p : Process) : Process :=
  mkProcess (id p) (arrival_time p) (burst_time p) v (current_queue p)
    (time_in_current_quantum p) (completion_time p) (turnaround_time p)
    (waiting_time p) (first_run_time p) (is_io_bound p).
Definition set_current_queue (v : Z) (p : Process) : Process :=
  mkProcess (id p) (arrival_time p) (burst_time p) (remaining_time p) v
    (time_in_current_quantum p) (completion_time p) (turnaround_time p)
    (waiting_time p) (first_run_time p) (is_io_bound p).
Definition set_time_in_current_quantum (v : Z) (p : Process) : Process :=
  mkProcess (id p) (arrival_time p) (burst_time p) (remaining_time p)
    (current_queue p) v (completion_time p) (turnaround_time p)
    (waiting_time p) (first_run_time p) (is_io_bound p).
Definition set_completion_time (v : Z) (p : Process) : Process :=
  mkProcess (id p) (arrival_time p) (burst_time p) (remaining_time p)
    (current_queue p) (time_in_current_quantum p) v (turnaround_time p)
    (waiting_time p) (first_run_time p) (is_io_bound p).
Definition set_turnaround_time (v : Z) (p : Process) : Process :=
  mkProcess (id p) (arrival_time p) (burst_time p) (remaining_time p)
    (current_queue p) (time_in_current_quantum p) (completion_time p) v
    (waiting_time p) (first_run_time p) (is_io_bound p).
Definition set_waiting_time (v : Z) (p : Process) : Process :=
  mkProcess (id p) (arrival_time p) (burst_time p) (remaining_time p)
    (current_queue p) (time_in_current_quantum p) (completion_time p)
    (turnaround_time p) v (first_run_time p) (is_io_bound p).
Definition set_first_run_time (v : Z) (p : Process) : Process :=
  mkProcess (id p) (arrival_time p) (burst_time p) (remaining_time p)
    (current_queue p) (time_in_current_quantum p) (completion_time p)
    (turnaround_time p) (waiting_time p) v (is_io_bound p).

Definition set_qprocs (l : list ProcRef) (q : Queue) : Queue :=
  mkQueue l (time_quantum q).

Definition with_processes (ps : list Process) (s : State) : State :=
  mkState ps (queues s) (current_time s) (boost_interval s)
    (last_boost_time s) (completed s) (trace s).
Definition with_queues (qs : list Queue) (s : State) : State :=
  mkState (processes s) qs (current_time s) (boost_interval s)
    (last_boost_time s) (completed s) (trace s).
Definition with_current_time (t : Z) (s : State) : State :=
  mkState (processes s) (queues s) t (boost_interval s)
    (last_boost_time s) (completed s) (trace s).
Definition with_last_boost_time (t : Z) (s : State) : State :=
  mkState (processes s) (queues s) (current_time s) (boost_interval s)
    t (completed s) (trace s).
Definition with_completed (c : Z) (s : State) : State :=
  mkState (processes s) (queues s) (current_time s) (boost_interval s)
    (last_boost_time s) c (trace s).
Definition printf (e : Event) (s : State) : State :=
  mkState (processes s) (queues s) (current_time s) (boost_interval s)
    (last_boost_time s) (completed s) (e :: trace s).

(** [*p = f ( *p )]: a write through the pointer [p]. *)
Definition update_process (p : ProcRef) (f : Process → Process) (s : State) : State :=
  with_processes (alter f p (processes s)) s.

(** [queues[q]]; [q] is an [int] that the program keeps within
    [0 .. NUM_QUEUES-1] (it is 0, a [current_queue] or [next_queue_of] one,
    see [proc_ok] below). *)
Definition queue_at (s : State) (q : Z) : Queue :=
  default (mkQueue [] 0) (queues s !! Z.to_nat q).

Definition set_queue (q : Z) (new : Queue) (s : State) : State :=
  with_queues (<[Z.to_nat q := new]> (queues s)) s.

(** The levels [from, from+1, .., NUM_QUEUES-1] of a [for] loop over levels. *)
Definition levels (from : nat) : list Z :=
  Z.of_nat <$> seq from (NUM_QUEUES - from).

(** ** Queue ladder *)

(** [init_queues]: every level empty, quantum [(1 << i) * 10]. *)
Definition init_queues (s : State) : State :=
  with_queues ((λ i, mkQueue [] (int_mul (Z.shiftl 1 i) 10)) <$> levels 0) s.

(** [add_process_to_queue]: append at the tail unless the level is full. *)
Definition add_process_to_queue (p : ProcRef) (queue_level : Z) (s : State) : State :=
  let q := queue_at s queue_level in
  if count q <? MAX_PROCESSES then
    let s1 := set_queue queue_level (set_qprocs (qprocs q ++ [p]) q) s in
    let s2 := update_process p (set_current_queue queue_level) s1 in
    update_process p (set_time_in_current_quantum 0) s2
  else s.

(** One level of the boost loop: re-add its entries at level 0, then
    [queues[q].count = 0]. *)
Definition boost_level (s : State) (q : Z) : State :=
  let s1 := foldl (λ st p, add_process_to_queue p 0 st) s (qprocs (queue_at s q)) in
  set_queue q (set_qprocs [] (queue_at s1 q)) s1.

(** The first half of [get_next_process] (Rule 5). *)
Definition priority_boost (s : State) : State :=
  if int_sub (current_time s) (last_boost_time s) >=? boost_interval s then
    let s1 := printf (EvBoost (current_time s)) s in
    let s2 := foldl boost_level s1 (levels 1) in
    with_last_boost_time (current_time s2) s2
  else s.

(** The second half of [get_next_process] (Rules 1 and 2): pop the head of
    the first non-empty level. *)
Fixpoint pop_highest (lvls : list Z) (s : State) : option ProcRef * State :=
  match lvls with
  | [] => (None, s)
  | q :: rest =>
      match qprocs (queue_at s q) with
      | p :: tl => (Some p, set_queue q (set_qprocs tl (queue_at s q)) s)
      | [] => pop_highest rest s
      end
  end.

Definition get_next_process (s : State) : option ProcRef * State :=
  pop_highest (levels 0) (priority_boost s).

(** ** Scheduler loop *)

(** The set-up loop of [run_mlfq_simulation]. *)
Definition setup_process (p : Process) : Process :=
  set_first_run_time (-1)
    (set_time_in_current_quantum 0
      (set_current_queue 0
        (set_remaining_time (burst_time p) p))).

(** "Check for new arrivals": one iteration of the [for] loop, at index [i]. *)
Definition check_arrival (s : State) (i : nat) : State :=
  match processes s !! i with
  | Some p =>
      if arrival_time p =? current_time s then
        add_process_to_queue i 0
          (printf (EvArrive (current_time s) (id p) (burst_time p) (is_io_bound p)) s)
      else s
  | None => s
  end.

Definition check_arrivals (s : State) : State :=
  foldl check_arrival s (seq 0 (length (processes s))).

(** The length of the dispatch, from the process as it is when selected
    and the quantum of its level. *)
Definition run_time_of (p : Process) (time_slice : Z) : Z :=
  if is_io_bound p =? 0 then
    if remaining_time p <? int_sub time_slice (time_in_current_quantum p)
    then remaining_time p
    else int_sub time_slice (time_in_current_quantum p)
  else
    let run_time := int_div time_slice 5 in
    if run_time >? remaining_time p then remaining_time p else run_time.

(** "Run the process": the clock and the two counters of the process. *)
Definition run_for (cur : ProcRef) (run_time : Z) (s : State) : State :=
  let s1 := with_current_time (int_add (current_time s) run_time) s in
  let s2 := update_process cur
              (λ p, set_remaining_time (int_sub (remaining_time p) run_time) p) s1 in
  update_process cur
    (λ p, set_time_in_current_quantum
            (int_add (time_in_current_quantum p) run_time) p) s2.

(** The four branches that follow a dispatch, each as the code writes it. *)
Definition complete (cur : ProcRef) (s : State) : State :=
  let now := current_time s in
  let s1 := update_process cur (set_completion_time now) s in
  let s2 := update_process cur
              (λ p, set_turnaround_time
                      (int_sub (completion_time p) (arrival_time p)) p) s1 in
  let s3 := update_process cur
              (λ p, set_waiting_time
                      (int_sub (turnaround_time p) (burst_time p)) p) s2 in
  with_completed (int_add (completed s3) 1) s3.

Definition io_time : Z := 10.

Definition yield_for_io (cur : ProcRef) (s : State) : State :=
  let s1 := update_process cur (set_time_in_current_quantum 0) s in
  update_process cur (set_arrival_time (int_add (current_time s1) io_time)) s1.

Definition next_queue_of (q : Z) : Z :=
  if q <? Z.of_nat NUM_QUEUES - 1 then int_add q 1 else q.

Definition demote (cur : ProcRef) (q : Z) (s : State) : State :=
  let s1 := update_process cur (set_time_in_current_quantum 0) s in
  add_process_to_queue cur (next_queue_of q) s1.

Definition requeue (cur : ProcRef) (q : Z) (s : State) : State :=
  add_process_to_queue cur q s.

(** The [if / else if] chain after the run; [p] is [*current_proc] as the
    run left it. *)
Definition reschedule (cur : ProcRef) (p : Process) (q time_slice run_time : Z)
    (s : State) : State :=
  let now := current_time s in
  if remaining_time p =? 0 then
    complete cur (printf (EvComplete now (id p)) s)
  else if negb (is_io_bound p =? 0) && (run_time <? time_slice) then
    yield_for_io cur (printf (EvYield now (id p) q) s)
  else if time_in_current_quantum p >=? time_slice then
    demote cur q (printf (EvDemote now (id p) (next_queue_of q)) s)
  else
    requeue cur q (printf (EvReturn now (id p) q) s).

(** From the selection of [current_proc] to the end of "Run the process":
    the first-run time, the dispatch line of the trace, the run. [p0] is
    [*current_proc] as it is when selected. *)
Definition run_current (cur : ProcRef) (p0 : Process) (s : State) : State :=
  let s1 := if first_run_time p0 =? -1
            then update_process cur (set_first_run_time (current_time s)) s
            else s in
  let q := current_queue p0 in
  let time_slice := time_quantum (queue_at s1 q) in
  let run_time := run_time_of p0 time_slice in
  let s2 := printf (EvRun (current_time s1) (id p0) q
                      (remaining_time p0) time_slice) s1 in
  run_for cur run_time s2.

(** The branch [current_proc != NULL]. A pointer taken from a queue always
    points into the array (see [dispatch_reads_a_process]); the [None]
    cases are there for totality only. *)
Definition dispatch (cur : ProcRef) (s : State) : State :=
  match processes s !! cur with
  | None => s
  | Some p0 =>
      let q := current_queue p0 in
      let time_slice := time_quantum (queue_at s q) in
      let run_time := run_time_of p0 time_slice in
      let s3 := run_current cur p0 s in
      match processes s3 !! cur with
      | None => s3
      | Some p => reschedule cur p q time_slice run_time s3
      end
  end.

(** "Find next arrival time": the scan with its sentinel [-1]. *)
Definition next_arrival_step (now : Z) (next_arrival : Z) (p : Process) : Z :=
  if (remaining_time p >? 0) && (arrival_time p >? now) then
    if (next_arrival =? -1) || (arrival_time p <? next_arrival)
    then arrival_time p
    else next_arrival
  else next_arrival.

Definition find_next_arrival (s : State) : Z :=
  foldl (next_arrival_step (current_time s)) (-1) (processes s).

Inductive LoopExit : Type := Continue | Break.

(** The branch [current_proc == NULL]. *)
Definition idle (s : State) : State * LoopExit :=
  let s1 := printf (EvIdle (current_time s)) s in
  let next_arrival := find_next_arrival s1 in
  if negb (next_arrival =? -1) then (with_current_time next_arrival s1, Continue)
  else (printf EvError s1, Break).

(** One iteration of [while (completed < n)]. *)
Definition loop_body (s : State) : State * LoopExit :=
  match get_next_process (check_arrivals s) with
  | (Some cur, s1) => (dispatch cur s1, Continue)
  | (None, s1) => idle s1
  end.

Definition n_of (s : State) : Z := Z.of_nat (length (processes s)).

(** How a run of the loop ends: its condition became false, the error
    branch left it with [break], or the iteration budget of the model ran
    out first. *)
Inductive Result : Type :=
  | Finished (s : State)
  | Aborted (s : State)
  | OutOfFuel (s : State).

Definition final_state (r : Result) : State :=
  match r with Finished s | Aborted s | OutOfFuel s => s end.

Fixpoint while_loop (fuel : nat) (s : State) : Result :=
  if completed s <? n_of s then
    match fuel with
    | O => OutOfFuel s
    | S fuel' =>
        match loop_body s with
        | (s', Continue) => while_loop fuel' s'
        | (s', Break) => Aborted s'
        end
    end
  else Finished s.

(** The state in which the loop is entered: [completed = 0], the queues
    initialised, the run-state of every process set up. [ps] is the array
    [processes[0 .. n-1]]; [g] holds the globals as the caller left them. *)
Definition start (ps : list Process) (g : State) : State :=
  with_processes (setup_process <$> ps) (init_queues (with_completed 0 g)).

Definition run_mlfq_simulation (fuel : nat) (ps : list Process) (g : State) : Result :=
  while_loop fuel (start ps g).

(** The state after [k] iterations of the loop, or where the loop ended
    if it took fewer. *)
Definition state_after (k : nat) (ps : list Process) (g : State) : State :=
  final_state (run_mlfq_simulation k ps g).

(** ** Statistics *)

(** One line of the table of [print_results]. *)
Record Row := mkRow {
  row_id : Z;
  row_io_bound : bool;
  row_burst : Z;
  row_response : Z;
  row_completion : Z;
  row_turnaround : Z;
  row_waiting : Z
}.

Definition response_time (p : Process) : Z :=
  int_sub (first_run_time p) (arrival_time p).

Definition row_of (p : Process) : Row :=
  mkRow (id p) (negb (is_io_bound p =? 0)) (burst_time p) (response_time p)
    (completion_time p) (turnaround_time p) (waiting_time p).

(** What [print_results] prints from exact [int]s: the lines of the table,
    in the order of the array, and the numbers of I/O-bound and of
    CPU-bound processes. The averages that follow the table are [float]
    accumulations over the same fields of the array and are not part of
    the model. *)
Record Report := mkReport {
  rows : list Row;
  n_io : Z;
  n_cpu : Z
}.

(** The sum of a list of integers. *)
Definition sumZ (l : list Z) : Z := foldr Z.add 0 l.

Definition print_results (ps : list Process) : Report :=
  let io := filter (λ p, is_io_bound p ≠ 0) ps in
  let cpu := filter (λ p, is_io_bound p = 0) ps in
  mkReport (row_of <$> ps) (Z.of_nat (length io)) (Z.of_nat (length cpu)).

(** ** The program's own input *)

(** The globals as the program starts: zero-initialised queues,
    [current_time = 0], [boost_interval = 50], [last_boost_time = 0]. *)
Definition initial_globals : State :=
  mkState [] (replicate NUM_QUEUES (mkQueue [] 0)) 0 50 0 0 [].

Definition new_process (pid arrival burst io : Z) : Process :=
  mkProcess pid arrival burst 0 0 0 0 0 0 (-1) io.

(** The array of [main]. *)
Definition main_processes : list Process :=
  [ new_process 1 0 100 0;
    new_process 2 0 5 1;
    new_process 3 0 5 1;
    new_process 4 10 80 0;
    new_process 5 20 15 1 ].

Definition main_run (fuel : nat) : Result :=
  run_mlfq_simulation fuel main_processes initial_globals.

(** * Vocabulary of the properties *)

(** ** A dispatch, written out *)

(** The dispatched process as [run_current] leaves it; [p0] is the process
    as it is when selected. *)
Definition ran (cur : ProcRef) (p0 : Process) (s : State) : Process :=
  let p1 := if first_run_time p0 =? -1
            then set_first_run_time (current_time s) p0 else p0 in
  let run_time :=
    run_time_of p0 (time_quantum (queue_at s (current_queue p0))) in
  set_time_in_current_quantum (int_add (time_in_current_quantum p0) run_time)
    (set_remaining_time (int_sub (remaining_time p0) run_time) p1).

(** The state as [run_current] leaves it (see [run_current_at]). *)
Definition after_run (cur : ProcRef) (p0 : Process) (s : State) : State :=
  let time_slice := time_quantum (queue_at s (current_queue p0)) in
  let run_time := run_time_of p0 time_slice in
  mkState (<[cur := ran cur p0 s]> (processes s)) (queues s)
    (int_add (current_time s) run_time) (boost_interval s)
    (last_boost_time s) (completed s)
    (EvRun (current_time s) (id p0) (current_queue p0) (remaining_time p0)
       time_slice :: trace s).

(** ** The invariant of the process table *)

(** The quantum that [init_queues] gives level [q]. *)
Definition quantum_for (q : Z) : Z := int_mul (Z.shiftl 1 q) 10.

(** The quanta are those of [init_queues]. *)
Definition queues_ok (s : State) : Prop :=
  time_quantum <$> queues s = quantum_for <$> levels 0.

Definition level_ok (q : Z) : Prop := 0 ≤ q < Z.of_nat NUM_QUEUES.

(** What holds of every process between two iterations: the remaining
    time is within the burst, the level exists, the quantum usage is
    within the quantum of the level and is zero unless the process has
    completed. *)
Definition proc_ok (p : Process) : Prop :=
  0 ≤ remaining_time p ≤ burst_time p ∧ burst_time p ≤ INT_MAX ∧
  level_ok (current_queue p) ∧
  0 ≤ time_in_current_quantum p ≤ quantum_for (current_queue p) ∧
  (time_in_current_quantum p = 0 ∨ remaining_time p = 0).

(** One process before and after a part of the loop: the invariant is
    kept, the burst too, the remaining time does not grow. *)
Definition proc_rel (p p' : Process) : Prop :=
  proc_ok p →
  proc_ok p' ∧ burst_time p' = burst_time p ∧ remaining_time p' ≤ remaining_time p.

Definition evolves (s s' : State) : Prop :=
  queues_ok s → queues_ok s' ∧ Forall2 proc_rel (processes s) (processes s').

(** ** Outcomes of a dispatch *)

Inductive Outcome : Type := Completion | IOYield | Demotion | Requeue.

(** The four outcomes, each with the line it prints. *)
Definition apply_outcome (o : Outcome) (cur : ProcRef) (p : Process) (q : Z)
    (s : State) : State :=
  let now := current_time s in
  match o with
  | Completion => complete cur (printf (EvComplete now (id p)) s)
  | IOYield => yield_for_io cur (printf (EvYield now (id p) q) s)
  | Demotion => demote cur q (printf (EvDemote now (id p) (next_queue_of q)) s)
  | Requeue => requeue cur q (printf (EvReturn now (id p) q) s)
  end.

(** The priority order of the outcomes, as the specification words it:
    completion first, then the I/O yield, then the demotion of a process
    that used its quantum up, then the return to the same level. *)
Definition chosen (p : Process) (time_slice run_time : Z) (o : Outcome) : Prop :=
  match o with
  | Completion => remaining_time p = 0
  | IOYield =>
      remaining_time p ≠ 0 ∧ (is_io_bound p ≠ 0 ∧ run_time < time_slice)
  | Demotion =>
      remaining_time p ≠ 0 ∧ ¬ (is_io_bound p ≠ 0 ∧ run_time < time_slice)
      ∧ time_slice ≤ time_in_current_quantum p
  | Requeue =>
      remaining_time p ≠ 0 ∧ ¬ (is_io_bound p ≠ 0 ∧ run_time < time_slice)
      ∧ time_in_current_quantum p < time_slice
  end.



(** ** Idle handling *)

(** No level holds a process. *)
Definition all_empty (s : State) : Prop := Forall (λ q, qprocs q = []) (queues s).

(** The processes the idle scan looks for: unfinished, arriving later. *)
Definition to_arrive (now : Z) (ps : list Process) : list Process :=
  filter (λ p, 0 < remaining_time p ∧ now < arrival_time p) ps.

(** The arrival times the idle scan chooses from. *)
Definition future_arrivals (s : State) : list Z :=
  arrival_time <$> to_arrive (current_time s) (processes s).

(** The two fields the idle scan reads are unchanged. *)
Definition same_times (p p' : Process) : Prop :=
  remaining_time p' = remaining_time p ∧ arrival_time p' = arrival_time p.

(** ** Priority boost *)

(** A process is at the top when it is marked for level 0 with a fresh
    quantum. *)
Definition at_top (p : Process) : Prop :=
  current_queue p = 0 ∧ time_in_current_quantum p = 0.

(** Once marked for level 0, still marked for it. *)
Definition stays_top (p p' : Process) : Prop :=
  current_queue p = 0 → current_queue p' = 0.

(** The process selected by the iteration that starts in [s]. *)
Definition selected (s : State) : option ProcRef :=
  (get_next_process (check_arrivals s)).1.

(** [waits p s s']: the loop goes from [s] to [s'] in iterations that
    dispatch other processes than [p], or none. *)
Inductive waits (p : ProcRef) : State → State → Prop :=
  | waits_here s : waits p s s
  | waits_on s s1 s' :
      selected s ≠ Some p → loop_body s = (s1, Continue) → waits p s1 s' →
      waits p s s'.

(** The state in which the iteration ends whose selection returned [sel]
    and left [s1]. *)
Definition end_of_iteration (sel : option ProcRef) (s1 : State) : State :=
  match sel with
  | Some cur => dispatch cur s1
  | None => (idle s1).1
  end.

(** ** Determinism *)






(** ** Pointers in the queues *)

(** Every pointer held by a queue points into the process array. *)
Definition refs_ok (s : State) : Prop :=
  Forall (λ q, Forall (λ r, (r < length (processes s))%nat) (qprocs q)) (queues s).

(** [s'] has a process array as long as that of [s], and queues that
    still point into it. *)
Definition refs_kept (s s' : State) : Prop :=
  length (processes s') = length (processes s) ∧ (refs_ok s → refs_ok s').

(** ** Inputs and states of the scenarios *)

(** The state in which the first dispatch of the program's own run takes
    place: process 1 has just been taken from level 0. *)
Definition main_first_dispatch : State :=
  (get_next_process (check_arrivals (start main_processes initial_globals))).2.

(** The program's own run when the clock reads 66: processes 1 and 4 wait
    at level 2, and the boost is due. *)
Definition main_at_66 : State :=
  check_arrivals (state_after 7 main_processes initial_globals).

(** The states left by the selection at 66 and by the selection of the
    iteration after it. *)
Definition main_after_boost : State := (get_next_process main_at_66).2.

Definition main_next_selection : State :=
  (get_next_process (check_arrivals (dispatch 0%nat main_after_boost))).2.



(** Eleven processes: one long job, and ten short ones that all arrive
    when the clock reads 70, the moment the long job has sunk to level 2
    and the boost is due. *)
Definition crowd_processes : list Process :=
  new_process 1 0 100 0 :: ((λ i, new_process i 70 5 0) <$> seqZ 2 10).

Definition crowd_at_70 : State :=
  check_arrivals (state_after 3 crowd_processes initial_globals).


(** A lone I/O-bound process of burst 5. *)
Definition lone_io_process : list Process := [new_process 1 0 5 1].

(** Its run after the first dispatch: the clock reads 2, the process has
    yielded and is due back at 12, every level is empty. *)
Definition lone_io_at_2 : State := state_after 1 lone_io_process initial_globals.




(** The input of the second scenario: an I/O-bound process of burst 5 and
    a CPU-bound process of burst 100, both arriving at 0. *)
Definition io_and_cpu : list Process :=
  [new_process 1 0 5 1; new_process 2 0 100 0].

(** * Further vocabulary: the run as a whole *)

(** ** Iterations *)

(** One more iteration after a run that was cut short by the budget; a
    run that has ended stays as it is. *)
Definition next_result (r : Result) : Result :=
  match r with
  | OutOfFuel s => while_loop 1 s
  | _ => r
  end.

(** ** Shape of the queue ladder *)

(** The ladder as [init_queues] built it and as the array sizes allow:
    [NUM_QUEUES] levels, the quanta 10, 20 and 40, at most [MAX_PROCESSES]
    entries in a level. *)
Definition ladder_ok (qs : list Queue) : Prop :=
  length qs = NUM_QUEUES
  ∧ time_quantum <$> qs = [10; 20; 40]
  ∧ Forall (λ q, count q ≤ MAX_PROCESSES) qs.

(** ** What a run never writes *)

(** One process earlier and later in a run: the identity, the burst and
    the kind are the same, the arrival time too unless the process is
    I/O-bound, and a first-run time that was set is still the same. *)
Definition static_kept (p p' : Process) : Prop :=
  id p' = id p ∧ burst_time p' = burst_time p ∧ is_io_bound p' = is_io_bound p
  ∧ (is_io_bound p = 0 → arrival_time p' = arrival_time p)
  ∧ (first_run_time p ≠ -1 → first_run_time p' = first_run_time p).

(** ** I/O-bound processes and the fourth branch *)

(** An I/O-bound process is marked for level 0. *)
Definition io_top (p : Process) : Prop :=
  is_io_bound p ≠ 0 → current_queue p = 0.

Definition io_top_kept (p p' : Process) : Prop := io_top p → io_top p'.

(** Any line but "returned to queue". *)
Definition not_returned (e : Event) : Prop :=
  match e with
  | EvReturn _ _ _ => False
  | _ => True
  end.

(** [s'] has printed what [s] had, and then only lines that satisfy [P]. *)
Definition extends (P : Event → Prop) (s s' : State) : Prop :=
  ∃ evs, trace s' = evs ++ trace s ∧ Forall P evs.

(** The invariant of the process table, with the place of the I/O-bound
    processes. *)
Definition table_ok (s : State) : Prop :=
  queues_ok s ∧ Forall proc_ok (processes s) ∧ Forall io_top (processes s).

(** ** The queues and the process table together *)

(** The references held by the levels, level by level. *)
Definition queued (s : State) : list (list ProcRef) := qprocs <$> queues s.

(** An entry [i] of level [lvl], at a time before [t]: it points at an
    unfinished process that is marked for this level, starts with a fresh
    quantum and has arrived. *)
Definition entry_ok (t : Z) (ps : list Process) (lvl : nat) (i : ProcRef) : Prop :=
  ∃ p, ps !! i = Some p ∧ 0 < remaining_time p
       ∧ current_queue p = Z.of_nat lvl ∧ time_in_current_quantum p = 0
       ∧ arrival_time p < t.

(** No reference is held twice, and every entry is as it should be. *)
Definition entries_ok (t : Z) (ps : list Process) (ls : list (list ProcRef)) : Prop :=
  NoDup (mjoin ls)
  ∧ ∀ lvl l i, ls !! lvl = Some l → i ∈ l → entry_ok t ps lvl i.

(** A process that has run its burst arrived before [t]: the arrival test
    will not see it again. *)
Definition done_before (t : Z) (p : Process) : Prop :=
  remaining_time p ≤ 0 → arrival_time p < t.

Definition finished_count (ps : list Process) : nat :=
  length (filter (λ p, remaining_time p = 0) ps).

Definition sched_ok (t : Z) (s : State) : Prop :=
  entries_ok t (processes s) (queued s)
  ∧ Forall (done_before t) (processes s)
  ∧ completed s = Z.of_nat (finished_count (processes s)).

(** What [add_process_to_queue] writes into the process. *)
Definition enqueue_mark (lvl : Z) (p : Process) : Process :=
  set_time_in_current_quantum 0 (set_current_queue lvl p).

(** The arrival loop before index [i], in an iteration that started at
    [now]: the entries are in order; those that arrived at [now] are
    processes below [i]; and when the array is no longer than a level,
    every process below [i] that arrives at [now] has been admitted. *)
Definition arrivals_inv (now : Z) (i : nat) (st : State) : Prop :=
  current_time st = now ∧ (0 < length (queues st))%nat
  ∧ entries_ok (now + 1) (processes st) (queued st)
  ∧ (∀ j, j ∈ mjoin (queued st) →
       (j < i)%nat ∨ ∃ p, processes st !! j = Some p ∧ arrival_time p < now)
  ∧ Forall (done_before now) (processes st)
  ∧ (Z.of_nat (length (processes st)) ≤ MAX_PROCESSES →
     ∀ j p, (j < i)%nat → processes st !! j = Some p → arrival_time p = now →
            j ∈ qprocs (queue_at st 0)).

(** What holds of the state between two iterations of a run whose
    processes have positive bursts. *)
Definition run_ok (s : State) : Prop :=
  table_ok s ∧ ladder_ok (queues s) ∧ sched_ok (current_time s) s.

(** The clock is not within one quantum of [INT_MAX]: a dispatch does not
    overflow it. *)
Definition clock_calm (s : State) : Prop :=
  INT_MIN ≤ current_time s ≤ INT_MAX - 40.

(** The inputs of the runs considered below: positive bursts, a number
    of processes and a starting clock that are [int]s. *)
Definition input_ok (ps : list Process) (g : State) : Prop :=
  Forall (λ p, 0 < burst_time p ≤ INT_MAX) ps
  ∧ Z.of_nat (length ps) ≤ INT_MAX
  ∧ INT_MIN ≤ current_time g.

(** ** The statistics of the CPU-bound processes *)

(** A CPU-bound process at a time [now]: it arrived at a non-negative
    time; either it has not run, or it first ran after it arrived and has
    since received the part of its burst that it has run; once finished
    it holds the statistics of its definition. *)
Definition stat_ok (now : Z) (p : Process) : Prop :=
  is_io_bound p = 0 →
  0 ≤ arrival_time p
  ∧ ((remaining_time p = burst_time p ∧ first_run_time p = -1)
     ∨ (remaining_time p < burst_time p
        ∧ arrival_time p ≤ first_run_time p
        ∧ first_run_time p + (burst_time p - remaining_time p) ≤ now
        ∧ (remaining_time p = 0 →
           completion_time p ≤ now ∧ completion_time p ≤ INT_MAX
           ∧ first_run_time p + burst_time p ≤ completion_time p
           ∧ turnaround_time p = completion_time p - arrival_time p
           ∧ waiting_time p = turnaround_time p - burst_time p))).

Definition stat_kept (p p' : Process) : Prop :=
  ∀ now, stat_ok now p → stat_ok now p'.

(** ** Termination *)

(** The work that is left, and whether the next iteration will find no
    process to run. *)
Definition work_left (ps : list Process) : Z := sumZ (remaining_time <$> ps).

Definition will_idle (s : State) : bool :=
  match (get_next_process (check_arrivals s)).1 with
  | None => true
  | Some _ => false
  end.

(** A bound on the number of iterations that are still to come: every
    dispatch does one unit of work at least, and an idle iteration is
    followed by a dispatch. *)
Definition budget (s : State) : Z :=
  2 * work_left (processes s) + (if will_idle s then 1 else 0).

(** ** The input of the further scenarios *)

(** Two CPU-bound processes that arrive together; their run ends through
    the loop condition after four dispatches. *)
Definition two_jobs : list Process :=
  [new_process 1 0 30 0; new_process 2 0 15 0].

(** * Properties *)

(** ** Machine integers *)

Lemma wrap_id z : is_int z → wrap z = z.
Proof.
  unfold is_int, INT_MIN, INT_MAX, wrap. intros Hz.
  rewrite Z.mod_small; lia.
Qed.

Lemma quot_5_is_int z : is_int z → is_int (z `quot` 5).
Proof.
  unfold is_int, INT_MIN, INT_MAX. intros [Hlo Hhi].
  split.
  - transitivity (Z.quot (-2147483648) 5); [by vm_compute |].
    apply Z.quot_le_mono; lia.
  - transitivity (Z.quot 2147483647 5); [| by vm_compute].
    apply Z.quot_le_mono; lia.
Qed.

(** ** The store of processes *)

Lemma alter_at {A} (f : A → A) (l : list A) i x :
  l !! i = Some x → alter f i l = <[i := f x]> l.
Proof.
  revert i; induction l as [| y l IH]; intros [| i] Hi; simplify_eq/=; auto.
  f_equal. by apply IH.
Qed.

Lemma update_process_at s cur f p :
  processes s !! cur = Some p →
  update_process cur f s = with_processes (<[cur := f p]> (processes s)) s.
Proof. intros Hp. unfold update_process. by rewrite (alter_at _ _ _ _ Hp). Qed.

Lemma lookup_stored (l : list Process) cur p x :
  l !! cur = Some p → <[cur := x]> l !! cur = Some x.
Proof. intros Hp. apply list_lookup_insert_eq. by eapply lookup_lt_Some. Qed.

Lemma run_for_at s cur run_time p :
  processes s !! cur = Some p →
  run_for cur run_time s =
    mkState
      (<[cur := set_time_in_current_quantum
                  (int_add (time_in_current_quantum p) run_time)
                  (set_remaining_time (int_sub (remaining_time p) run_time) p)]>
         (processes s))
      (queues s) (int_add (current_time s) run_time) (boost_interval s)
      (last_boost_time s) (completed s) (trace s).
Proof.
  intros Hp. unfold run_for.
  rewrite (update_process_at (with_current_time _ s) cur _ p Hp).
  erewrite update_process_at by (cbn; by eapply lookup_stored).
  cbn. by rewrite list_insert_insert_eq.
Qed.

Lemma run_current_at s cur p0 :
  processes s !! cur = Some p0 → run_current cur p0 s = after_run cur p0 s.
Proof.
  intros Hp. unfold run_current, after_run, ran.
  destruct (first_run_time p0 =? -1) eqn:Hfirst.
  - rewrite (update_process_at s cur _ p0 Hp).
    erewrite run_for_at by (cbn; by eapply lookup_stored).
    cbn. by rewrite list_insert_insert_eq.
  - erewrite run_for_at by (cbn; exact Hp). reflexivity.
Qed.

Lemma dispatch_unfold s cur p0 :
  processes s !! cur = Some p0 →
  dispatch cur s =
    reschedule cur (ran cur p0 s) (current_queue p0)
      (time_quantum (queue_at s (current_queue p0)))
      (run_time_of p0 (time_quantum (queue_at s (current_queue p0))))
      (after_run cur p0 s).
Proof.
  intros Hp. unfold dispatch. rewrite Hp, (run_current_at s cur p0 Hp).
  cbn. by rewrite (lookup_stored _ _ _ _ Hp).
Qed.

(** ** What the queue operations leave alone *)

Lemma add_process_to_queue_full p lvl s :
  MAX_PROCESSES ≤ count (queue_at s lvl) → add_process_to_queue p lvl s = s.
Proof.
  intros Hfull. unfold add_process_to_queue.
  destruct (count (queue_at s lvl) <? MAX_PROCESSES) eqn:Hlt; [lia | done].
Qed.

Lemma add_process_to_queue_room p lvl s :
  count (queue_at s lvl) < MAX_PROCESSES →
  add_process_to_queue p lvl s =
    mkState
      (alter (set_time_in_current_quantum 0 ∘ set_current_queue lvl) p (processes s))
      (<[Z.to_nat lvl := set_qprocs (qprocs (queue_at s lvl) ++ [p]) (queue_at s lvl)]>
         (queues s))
      (current_time s) (boost_interval s) (last_boost_time s) (completed s)
      (trace s).
Proof.
  intros Hroom. unfold add_process_to_queue.
  destruct (count (queue_at s lvl) <? MAX_PROCESSES) eqn:Hlt; [| lia].
  unfold update_process, set_queue. cbn. by rewrite list_alter_alter_eq.
Qed.

Lemma add_process_to_queue_cases p lvl s :
  add_process_to_queue p lvl s = s ∨
  (count (queue_at s lvl) < MAX_PROCESSES ∧
   add_process_to_queue p lvl s =
     mkState
       (alter (set_time_in_current_quantum 0 ∘ set_current_queue lvl) p (processes s))
       (<[Z.to_nat lvl := set_qprocs (qprocs (queue_at s lvl) ++ [p]) (queue_at s lvl)]>
          (queues s))
       (current_time s) (boost_interval s) (last_boost_time s) (completed s)
       (trace s)).
Proof.
  destruct (Z.lt_ge_cases (count (queue_at s lvl)) MAX_PROCESSES).
  - right. split; [done |]. by apply add_process_to_queue_room.
  - left. by apply add_process_to_queue_full.
Qed.

(** Replacing the entries of a level keeps its quantum. *)
Lemma quanta_insert (qs : list Queue) i l :
  time_quantum <$> <[i := set_qprocs l (default (mkQueue [] 0) (qs !! i))]> qs
  = time_quantum <$> qs.
Proof.
  rewrite list_fmap_insert. cbn.
  destruct (qs !! i) as [x |] eqn:Hq; cbn.
  - apply list_insert_id. by rewrite list_lookup_fmap, Hq.
  - apply list_insert_ge. rewrite length_fmap. by apply lookup_ge_None.
Qed.

Lemma quanta_set_queue q l s :
  time_quantum <$> queues (set_queue q (set_qprocs l (queue_at s q)) s)
  = time_quantum <$> queues s.
Proof. apply quanta_insert. Qed.

Lemma quanta_add p lvl s :
  time_quantum <$> queues (add_process_to_queue p lvl s) = time_quantum <$> queues s.
Proof.
  destruct (add_process_to_queue_cases p lvl s) as [-> | [_ ->]]; [done |].
  apply (quanta_set_queue lvl _ s).
Qed.

(** ** The invariant of the process table *)

#[local] Instance proc_rel_preorder : PreOrder proc_rel.
Proof.
  split.
  - intros p Hp. split; [done | lia].
  - intros p1 p2 p3 H12 H23 H1.
    destruct (H12 H1) as (H2 & ? & ?). destruct (H23 H2) as (H3 & ? & ?).
    split; [done | lia].
Qed.

#[local] Instance evolves_preorder : PreOrder evolves.
Proof.
  split.
  - intros s Hs. split; [done | reflexivity].
  - intros s1 s2 s3 H12 H23 H1.
    destruct (H12 H1) as [H2 ?]. destruct (H23 H2) as [H3 ?].
    split; [done | by etransitivity].
Qed.

Lemma level_cases q : level_ok q → q = 0 ∨ q = 1 ∨ q = 2.
Proof. unfold level_ok, NUM_QUEUES. lia. Qed.

Lemma quantum_for_values q :
  level_ok q → quantum_for q = 10 * 2 ^ q ∧ 10 ≤ quantum_for q ≤ 40.
Proof. intros Hq. destruct (level_cases q Hq) as [-> | [-> | ->]]; by vm_compute. Qed.

Lemma queues_ok_quantum s q :
  queues_ok s → level_ok q → time_quantum (queue_at s q) = quantum_for q.
Proof.
  unfold queues_ok, queue_at. intros Hs Hq.
  assert (Hl : (time_quantum <$> queues s) !! Z.to_nat q
               = (quantum_for <$> levels 0) !! Z.to_nat q) by by rewrite Hs.
  rewrite list_lookup_fmap in Hl.
  destruct (level_cases q Hq) as [-> | [-> | ->]];
    destruct (queues s !! _) as [x |]; by simplify_eq/=.
Qed.

(** A frame: the state changed, neither the quanta nor any process did. *)
Lemma evolves_same s s' :
  queues s' = queues s → processes s' = processes s → evolves s s'.
Proof. intros Hq Hp Hs. unfold queues_ok. rewrite Hq, Hp. split; [done | reflexivity]. Qed.

Lemma evolves_set_queue q l s :
  evolves s (set_queue q (set_qprocs l (queue_at s q)) s).
Proof.
  intros Hs. split; [| reflexivity].
  unfold queues_ok. by rewrite quanta_set_queue.
Qed.

Lemma evolves_add p lvl s :
  level_ok lvl → evolves s (add_process_to_queue p lvl s).
Proof.
  intros Hlvl Hs. split.
  - unfold queues_ok. by rewrite quanta_add.
  - destruct (add_process_to_queue_cases p lvl s) as [-> | [_ ->]]; [reflexivity |].
    cbn. apply Forall2_alter_r; [reflexivity |].
    intros x y _ _ Hxy Hx. destruct (Hxy Hx) as ((? & ? & ? & ? & ?) & ? & ?).
    pose proof (quantum_for_values lvl Hlvl) as [_ ?].
    unfold proc_ok, level_ok in *. cbn. repeat split; auto; lia.
Qed.

Lemma evolves_foldl {A} (f : State → A → State) (l : list A) s :
  (∀ st x, x ∈ l → evolves st (f st x)) → evolves s (foldl f s l).
Proof.
  revert s. induction l as [| x l IH]; intros s Hf; cbn; [reflexivity |].
  etransitivity; [apply Hf; left |]. apply IH. intros st y Hy. apply Hf. by right.
Qed.

(** ** The dispatch, branch by branch *)

Lemma run_time_of_min p time_slice :
  is_int time_slice →
  is_int (time_slice - time_in_current_quantum p) →
  run_time_of p time_slice =
    if is_io_bound p =? 0
    then Z.min (remaining_time p) (time_slice - time_in_current_quantum p)
    else Z.min (remaining_time p) (time_slice `quot` 5).
Proof.
  intros Hts Hsub. unfold run_time_of, int_sub, int_div.
  rewrite (wrap_id _ Hsub), (wrap_id _ (quot_5_is_int _ Hts)).
  destruct (is_io_bound p =? 0).
  - destruct (Z.ltb_spec (remaining_time p) (time_slice - time_in_current_quantum p)); lia.
  - destruct (Z.gtb_spec (time_slice `quot` 5) (remaining_time p)); lia.
Qed.

(** Resolve the innermost write through a pointer whose target is known. *)
Ltac step_update :=
  match goal with
  | |- context [update_process ?c ?f ?st] =>
      lazymatch st with
      | context [update_process] => fail
      | _ =>
          erewrite (update_process_at st c f)
            by (cbn; rewrite ?list_insert_insert_eq;
                first [eassumption | by eapply lookup_stored]);
          cbn
      end
  end.

Lemma complete_at cur p s :
  processes s !! cur = Some p →
  complete cur s =
    mkState
      (<[cur := set_waiting_time
                  (int_sub (int_sub (current_time s) (arrival_time p)) (burst_time p))
                  (set_turnaround_time (int_sub (current_time s) (arrival_time p))
                     (set_completion_time (current_time s) p))]> (processes s))
      (queues s) (current_time s) (boost_interval s) (last_boost_time s)
      (int_add (completed s) 1) (trace s).
Proof.
  intros Hp. unfold complete. cbn.
  do 3 step_update. by rewrite !list_insert_insert_eq.
Qed.

Lemma yield_for_io_at cur p s :
  processes s !! cur = Some p →
  yield_for_io cur s =
    mkState
      (<[cur := set_arrival_time (int_add (current_time s) io_time)
                  (set_time_in_current_quantum 0 p)]> (processes s))
      (queues s) (current_time s) (boost_interval s) (last_boost_time s)
      (completed s) (trace s).
Proof.
  intros Hp. unfold yield_for_io. cbn.
  do 2 step_update. by rewrite list_insert_insert_eq.
Qed.


(** What the chain does to the dispatched process [p], whichever branch
    is taken: the burst and the remaining time stay, the quantum usage is
    reset unless the process completed or found its level full. *)
Lemma reschedule_process cur p q time_slice run_time s :
  processes s !! cur = Some p →
  ∃ p',
    processes (reschedule cur p q time_slice run_time s) = <[cur := p']> (processes s)
    ∧ time_quantum <$> queues (reschedule cur p q time_slice run_time s)
      = time_quantum <$> queues s
    ∧ current_time (reschedule cur p q time_slice run_time s) = current_time s
    ∧ burst_time p' = burst_time p
    ∧ remaining_time p' = remaining_time p
    ∧ ((remaining_time p = 0 ∧ current_queue p' = current_queue p
        ∧ time_in_current_quantum p' = time_in_current_quantum p)
       ∨ (remaining_time p ≠ 0 ∧ time_in_current_quantum p' = 0
          ∧ (current_queue p' = current_queue p
             ∨ current_queue p' = next_queue_of q ∧ time_slice ≤ time_in_current_quantum p
             ∨ current_queue p' = q))
       ∨ (remaining_time p ≠ 0 ∧ p' = p
          ∧ ¬ (is_io_bound p ≠ 0 ∧ run_time < time_slice)
          ∧ time_in_current_quantum p < time_slice)).
Proof.
  intros Hp. unfold reschedule.
  destruct (Z.eqb_spec (remaining_time p) 0) as [Hrem | Hrem].
  { erewrite complete_at by (cbn; exact Hp). cbn.
    eexists. split; [reflexivity |]. cbn. do 4 (split; [done |]).
    left. done. }
  destruct (negb (is_io_bound p =? 0) && (run_time <? time_slice)) eqn:Hio.
  { erewrite yield_for_io_at by (cbn; exact Hp). cbn.
    eexists. split; [reflexivity |]. cbn. do 4 (split; [done |]).
    right. left. auto. }
  assert (Hnio : ¬ (is_io_bound p ≠ 0 ∧ run_time < time_slice)).
  { intros [Hne Hlt]. apply andb_false_iff in Hio as [Hio | Hio].
    - apply negb_false_iff, Z.eqb_eq in Hio. done.
    - apply Z.ltb_ge in Hio. lia. }
  destruct (Z.geb_spec (time_in_current_quantum p) time_slice) as [Hfull | Hpart].
  - unfold demote. step_update.
    match goal with |- context [add_process_to_queue cur ?l ?st] =>
      destruct (add_process_to_queue_cases cur l st) as [-> | [Hroom ->]] end.
    + cbn. eexists. split; [reflexivity |]. cbn. do 4 (split; [done |]).
      right. left. auto.
    + cbn. rewrite (alter_at _ _ _ _ (lookup_stored _ _ _ _ Hp)).
      rewrite list_insert_insert_eq.
      eexists. split; [reflexivity |]. cbn.
      split; [apply quanta_insert |].
      do 3 (split; [done |]).
      right. left. split; [done |]. split; [done |].
      right. left. split; [done | lia].
  - unfold requeue.
    match goal with |- context [add_process_to_queue cur ?l ?st] =>
      destruct (add_process_to_queue_cases cur l st) as [-> | [Hroom ->]] end.
    + cbn. exists p. split; [by rewrite list_insert_id |].
      do 4 (split; [done |]).
      right. right. repeat split; auto.
    + cbn. rewrite (alter_at _ _ _ _ Hp).
      eexists. split; [reflexivity |]. cbn.
      split; [apply quanta_insert |].
      do 3 (split; [done |]).
      right. left. auto.
Qed.

Lemma Forall2_stored (R : relation Process) `{!Reflexive R} l cur p p' :
  l !! cur = Some p → R p p' → Forall2 R l (<[cur := p']> l).
Proof.
  intros Hp HR. rewrite <- (list_insert_id l cur p Hp) at 1.
  apply Forall2_insert; [reflexivity | done].
Qed.

(** The length of a dispatch never exceeds what is left of the burst nor
    what is left of the quantum, and is not negative. *)
Lemma run_time_of_bounds p :
  proc_ok p →
  let time_slice := quantum_for (current_queue p) in
  let run_time := run_time_of p time_slice in
  0 ≤ run_time ≤ remaining_time p
  ∧ time_in_current_quantum p + run_time ≤ time_slice
  ∧ (run_time = remaining_time p
     ∨ is_io_bound p = 0 ∧ time_in_current_quantum p + run_time = time_slice
     ∨ is_io_bound p ≠ 0 ∧ run_time < time_slice).
Proof.
  intros (Hrem & Hmax & Hq & Htiq & Hzero) time_slice run_time.
  destruct (quantum_for_values _ Hq) as [Hval Hrange].
  assert (Hts : is_int time_slice) by (unfold is_int, INT_MIN, INT_MAX, time_slice; lia).
  assert (Hsub : is_int (time_slice - time_in_current_quantum p))
    by (unfold is_int, INT_MIN, INT_MAX, time_slice; lia).
  unfold run_time. rewrite (run_time_of_min p _ Hts Hsub). fold time_slice.
  assert (Hdiv : 2 ≤ time_slice `quot` 5 ≤ 8).
  { unfold time_slice.
    destruct (level_cases _ Hq) as [-> | [-> | ->]]; by vm_compute. }
  destruct (Z.eqb_spec (is_io_bound p) 0); lia.
Qed.

Lemma evolves_dispatch cur s : evolves s (dispatch cur s).
Proof.
  destruct (processes s !! cur) as [p0 |] eqn:Hp;
    [| unfold dispatch; rewrite Hp; reflexivity].
  rewrite (dispatch_unfold s cur p0 Hp). intros Hs.
  destruct (reschedule_process cur (ran cur p0 s) (current_queue p0)
              (time_quantum (queue_at s (current_queue p0)))
              (run_time_of p0 (time_quantum (queue_at s (current_queue p0))))
              (after_run cur p0 s))
    as (p' & -> & Hq & _ & Hburst & Hrem & Hcases);
    [cbn; by eapply lookup_stored |].
  split; [unfold queues_ok; by rewrite Hq |].
  cbn. rewrite list_insert_insert_eq.
  apply (Forall2_stored _ _ _ p0); [done |].
  intros Hok. pose proof Hok as (Hr0 & Hmax & Hlvl & Htiq & Hzero).
  rewrite (queues_ok_quantum s _ Hs Hlvl) in *.
  destruct (run_time_of_bounds p0 Hok) as (Hrt & Hsum & Hend).
  destruct (quantum_for_values _ Hlvl) as [_ Hrange].
  set (run_time := run_time_of p0 (quantum_for (current_queue p0))) in *.
  assert (Hran_rem : remaining_time (ran cur p0 s) = remaining_time p0 - run_time).
  { unfold ran. cbn. rewrite (queues_ok_quantum s _ Hs Hlvl). fold run_time.
    destruct (first_run_time p0 =? -1); cbn;
      apply wrap_id; unfold is_int, INT_MIN, INT_MAX in *; lia. }
  assert (Hran_tiq : time_in_current_quantum (ran cur p0 s)
                     = time_in_current_quantum p0 + run_time).
  { unfold ran. cbn. rewrite (queues_ok_quantum s _ Hs Hlvl). fold run_time.
    apply wrap_id; unfold is_int, INT_MIN, INT_MAX in *; lia. }
  assert (Hran_q : current_queue (ran cur p0 s) = current_queue p0).
  { unfold ran. cbn. by destruct (first_run_time p0 =? -1). }
  assert (Hran_burst : burst_time (ran cur p0 s) = burst_time p0).
  { unfold ran. cbn. by destruct (first_run_time p0 =? -1). }
  assert (Hran_io : is_io_bound (ran cur p0 s) = is_io_bound p0).
  { unfold ran. cbn. by destruct (first_run_time p0 =? -1). }
  rewrite Hran_rem, Hran_tiq, Hran_q, Hran_burst, ?Hran_io in *.
  assert (Hnext : level_ok (next_queue_of (current_queue p0))
                  ∧ 10 ≤ quantum_for (next_queue_of (current_queue p0))).
  { destruct (level_cases _ Hlvl) as [-> | [-> | ->]]; by vm_compute. }
  split; [| lia].
  unfold proc_ok. rewrite Hburst, Hrem.
  destruct Hcases as [(Hz & -> & ->) | [(Hnz & -> & Hlev) | (Hnz & -> & Hnio & Hlt)]].
  - unfold level_ok in *. repeat split; lia.
  - unfold level_ok in *.
    destruct Hlev as [-> | [[-> _] | ->]]; repeat split; lia.
  - lia.
Qed.

Lemma level_ok_0 : level_ok 0.
Proof. by vm_compute. Qed.

Lemma evolves_check_arrivals s : evolves s (check_arrivals s).
Proof.
  unfold check_arrivals. apply evolves_foldl. intros st i _.
  unfold check_arrival. destruct (processes st !! i) as [p |]; [| reflexivity].
  destruct (arrival_time p =? current_time st); [| reflexivity].
  etransitivity; [| apply evolves_add, level_ok_0]. by apply evolves_same.
Qed.

Lemma evolves_boost_level s q : evolves s (boost_level s q).
Proof.
  unfold boost_level. etransitivity; [| apply evolves_set_queue].
  apply evolves_foldl. intros st p _. apply evolves_add, level_ok_0.
Qed.

Lemma evolves_priority_boost s : evolves s (priority_boost s).
Proof.
  unfold priority_boost.
  destruct (int_sub (current_time s) (last_boost_time s) >=? boost_interval s);
    [| reflexivity].
  etransitivity; [| by apply evolves_same].
  etransitivity; [| apply evolves_foldl; intros st q _; apply evolves_boost_level].
  by apply evolves_same.
Qed.

Lemma evolves_pop_highest lvls s : evolves s (pop_highest lvls s).2.
Proof.
  induction lvls as [| q lvls IH]; cbn; [reflexivity |].
  destruct (qprocs (queue_at s q)) as [| p tl]; [done |].
  cbn. apply evolves_set_queue.
Qed.

Lemma evolves_get_next_process s : evolves s (get_next_process s).2.
Proof.
  unfold get_next_process.
  etransitivity; [apply evolves_priority_boost | apply evolves_pop_highest].
Qed.

Lemma evolves_idle s : evolves s (idle s).1.
Proof.
  unfold idle. destruct (negb (find_next_arrival _ =? -1)); by apply evolves_same.
Qed.

Lemma evolves_loop_body s : evolves s (loop_body s).1.
Proof.
  unfold loop_body.
  pose proof (evolves_get_next_process (check_arrivals s)) as Hnext.
  destruct (get_next_process (check_arrivals s)) as [[cur |] s1]; cbn in *.
  - etransitivity; [apply evolves_check_arrivals |].
    etransitivity; [exact Hnext | apply evolves_dispatch].
  - etransitivity; [apply evolves_check_arrivals |].
    etransitivity; [exact Hnext | apply evolves_idle].
Qed.

Lemma evolves_while_loop fuel s : evolves s (final_state (while_loop fuel s)).
Proof.
  revert s. induction fuel as [| fuel IH]; intros s; cbn.
  - destruct (completed s <? n_of s); reflexivity.
  - destruct (completed s <? n_of s); [| reflexivity].
    pose proof (evolves_loop_body s) as Hbody.
    destruct (loop_body s) as [s' [|]]; cbn in *; [| done].
    etransitivity; [exact Hbody | apply IH].
Qed.

(** Running longer only continues the same run. *)
Lemma evolves_more_fuel j k s :
  (j ≤ k)%nat →
  evolves (final_state (while_loop j s)) (final_state (while_loop k s)).
Proof.
  revert k s. induction j as [| j IH]; intros k s Hjk.
  - cbn. destruct (completed s <? n_of s) eqn:Hc; cbn.
    + apply evolves_while_loop.
    + destruct k; cbn; rewrite Hc; reflexivity.
  - destruct k as [| k]; [lia |]. cbn.
    destruct (completed s <? n_of s); [| reflexivity].
    destruct (loop_body s) as [s' [|]]; cbn; [| reflexivity].
    apply IH. lia.
Qed.

Lemma start_ok ps g :
  Forall (λ p, 0 ≤ burst_time p ≤ INT_MAX) ps →
  queues_ok (start ps g) ∧ Forall proc_ok (processes (start ps g)).
Proof.
  intros Hps. split; [by vm_compute |].
  cbn. apply Forall_fmap. eapply Forall_impl; [exact Hps |].
  intros p Hp. unfold proc_ok, level_ok. cbn in *.
  change (quantum_for 0) with 10. change (Z.of_nat NUM_QUEUES) with 3. lia.
Qed.

(** ** Remaining burst *)

Lemma evolves_invariant s s' :
  evolves s s' → queues_ok s → Forall proc_ok (processes s) →
  queues_ok s' ∧ Forall proc_ok (processes s').
Proof.
  intros Hev Hq Hok. destruct (Hev Hq) as [Hq' Hrel]. split; [done |].
  apply Forall_lookup_2. intros i p' Hp'.
  destruct (Forall2_lookup_r _ _ _ _ _ Hrel Hp') as (p & Hp & Hpp').
  by destruct (Hpp' (Forall_lookup_1 _ _ _ _ Hok Hp)).
Qed.

(** C8. With bursts that are non-negative [int]s, at every iteration [k]
    of the run every process has [0 <= remaining_time <= burst_time], the
    burst being the one it was given, and its remaining time is no larger
    than at any earlier iteration [j]; and the process selected in the
    iteration that follows is run for a time that is neither negative nor
    longer than its remaining time. *)
Theorem remaining_time_bounded_nonincreasing ps g j k i pj pk :
  Forall (λ p, 0 ≤ burst_time p ≤ INT_MAX) ps →
  (j ≤ k)%nat →
  processes (state_after j ps g) !! i = Some pj →
  processes (state_after k ps g) !! i = Some pk →
  (∃ p0, ps !! i = Some p0
         ∧ burst_time pk = burst_time p0
         ∧ 0 ≤ remaining_time pk ≤ burst_time p0
         ∧ remaining_time pk ≤ remaining_time pj)
  ∧ (∀ cur s1 p,
       get_next_process (check_arrivals (state_after k ps g)) = (Some cur, s1) →
       processes s1 !! cur = Some p →
       0 ≤ run_time_of p (time_quantum (queue_at s1 (current_queue p)))
         ≤ remaining_time p).
Proof.
  intros Hps Hjk Hj Hk. unfold state_after, run_mlfq_simulation in *.
  destruct (start_ok ps g Hps) as [Hq0 Hok0].
  destruct (evolves_while_loop j (start ps g) Hq0) as [Hqj H0j].
  destruct (evolves_more_fuel j k (start ps g) Hjk Hqj) as [_ Hjk'].
  split.
  - destruct (Forall2_lookup_r _ _ _ _ _ H0j Hj) as (q0 & Hq0i & Hrel0).
    pose proof (Forall2_lookup_lr _ _ _ _ _ _ Hjk' Hj Hk) as Hrelj.
    cbn in Hq0i. rewrite list_lookup_fmap in Hq0i.
    destruct (ps !! i) as [p0 |] eqn:Hp0; [| done].
    cbn in Hq0i. injection Hq0i as <-.
    assert (Hok : proc_ok (setup_process p0)).
    { eapply Forall_lookup_1; [exact Hok0 |]. cbn.
      by rewrite list_lookup_fmap, Hp0. }
    destruct (Hrel0 Hok) as (Hokj & Hbj & Hrj).
    destruct (Hrelj Hokj) as ((Hrk & _) & Hbk & Hrjk).
    exists p0. cbn in *. repeat split; try done; lia.
  - intros cur s1 p Hnext Hp.
    destruct (evolves_invariant _ _ (evolves_while_loop k (start ps g)) Hq0 Hok0)
      as [Hqk Hokk].
    destruct (evolves_invariant _ _
                (evolves_check_arrivals (final_state (while_loop k (start ps g))))
                Hqk Hokk) as [Hqa Hoka].
    pose proof (evolves_invariant _ _ (evolves_get_next_process _) Hqa Hoka)
      as [Hq1 Hok1].
    rewrite Hnext in Hq1, Hok1. cbn in Hq1, Hok1.
    pose proof (Forall_lookup_1 _ _ _ _ Hok1 Hp) as Hpok.
    pose proof Hpok as (_ & _ & Hlvl & _).
    rewrite (queues_ok_quantum s1 _ Hq1 Hlvl).
    by destruct (run_time_of_bounds p Hpok) as [? _].
Qed.

Lemma remaining_time_bounded_nonincreasing_main :
  ∃ p0, main_processes !! 0%nat = Some p0
        ∧ burst_time (mkProcess 1 0 100 30 1 0 0 0 0 0 0) = burst_time p0
        ∧ 0 ≤ remaining_time (mkProcess 1 0 100 30 1 0 0 0 0 0 0) ≤ burst_time p0
        ∧ remaining_time (mkProcess 1 0 100 30 1 0 0 0 0 0 0)
          ≤ remaining_time (mkProcess 1 0 100 90 1 0 0 0 0 0 0).
Proof.
  apply (remaining_time_bounded_nonincreasing main_processes initial_globals
           3 12 0 (mkProcess 1 0 100 90 1 0 0 0 0 0 0)
           (mkProcess 1 0 100 30 1 0 0 0 0 0 0)).
  - repeat constructor; vm_compute; discriminate.
  - lia.
  - vm_compute. reflexivity.
  - vm_compute. reflexivity.
Defined.

(** ** Dispatch amount *)

(** C4. A dispatch of the process [p0] at its level, with [Q] the quantum
    of that level, runs it for [min (remaining, Q / 5)] when it is
    I/O-bound and for [min (remaining, Q - quantum usage)] otherwise
    ([/] being C's division). The run ([run_current], after which the
    outcome is decided) advances the clock, decreases the remaining burst
    and increases the quantum usage by that amount, and the outcome changes
    neither the clock nor the remaining burst. No [int] operation
    overflows, by hypothesis. *)
Theorem dispatch_run_time s cur p0 :
  processes s !! cur = Some p0 →
  let Q := time_quantum (queue_at s (current_queue p0)) in
  let run_time :=
    if is_io_bound p0 =? 0
    then Z.min (remaining_time p0) (Q - time_in_current_quantum p0)
    else Z.min (remaining_time p0) (Q `quot` 5) in
  let s3 := run_current cur p0 s in
  is_int Q →
  is_int (Q - time_in_current_quantum p0) →
  is_int (current_time s + run_time) →
  is_int (remaining_time p0 - run_time) →
  is_int (time_in_current_quantum p0 + run_time) →
  ∃ p p',
    processes s3 !! cur = Some p
    ∧ dispatch cur s = reschedule cur p (current_queue p0) Q run_time s3
    ∧ current_time s3 = current_time s + run_time
    ∧ remaining_time p = remaining_time p0 - run_time
    ∧ time_in_current_quantum p = time_in_current_quantum p0 + run_time
    ∧ current_time (dispatch cur s) = current_time s + run_time
    ∧ processes (dispatch cur s) !! cur = Some p'
    ∧ remaining_time p' = remaining_time p0 - run_time.
Proof.
  intros Hp Q run_time s3 HQ Hsub Hclock Hrem Htiq.
  pose proof (run_time_of_min p0 Q HQ Hsub) as Hrt. fold run_time in Hrt.
  assert (Hran : processes (after_run cur p0 s) !! cur = Some (ran cur p0 s))
    by (cbn; by eapply lookup_stored).
  destruct (reschedule_process cur (ran cur p0 s) (current_queue p0) Q
              (run_time_of p0 Q) (after_run cur p0 s) Hran)
    as (p' & Hprocs & _ & Hnow & _ & Hrem' & _).
  assert (Hran_rem : remaining_time (ran cur p0 s) = remaining_time p0 - run_time).
  { unfold ran. fold Q. rewrite Hrt.
    destruct (first_run_time p0 =? -1); cbn; by apply wrap_id. }
  exists (ran cur p0 s), p'. unfold s3.
  rewrite (dispatch_unfold s cur p0 Hp), (run_current_at s cur p0 Hp).
  fold Q. rewrite Hrt in *.
  split; [done |]. split; [done |].
  split; [cbn; fold Q; rewrite Hrt; by apply wrap_id |].
  split; [done |].
  split; [unfold ran; fold Q; rewrite Hrt; cbn; by apply wrap_id |].
  split; [rewrite Hnow; cbn; fold Q; rewrite Hrt; by apply wrap_id |].
  split; [rewrite Hprocs; by eapply lookup_stored |].
  by rewrite Hrem'.
Qed.

Lemma dispatch_run_time_main :
  ∃ p p',
    processes (run_current 0%nat (setup_process (new_process 1 0 100 0))
                 main_first_dispatch) !! 0%nat = Some p
    ∧ dispatch 0%nat main_first_dispatch
      = reschedule 0%nat p 0 10 10
          (run_current 0%nat (setup_process (new_process 1 0 100 0))
             main_first_dispatch)
    ∧ current_time (run_current 0%nat (setup_process (new_process 1 0 100 0))
                      main_first_dispatch) = 0 + 10
    ∧ remaining_time p = 100 - 10
    ∧ time_in_current_quantum p = 0 + 10
    ∧ current_time (dispatch 0%nat main_first_dispatch) = 0 + 10
    ∧ processes (dispatch 0%nat main_first_dispatch) !! 0%nat = Some p'
    ∧ remaining_time p' = 100 - 10.
Proof.
  apply (dispatch_run_time main_first_dispatch 0%nat
           (setup_process (new_process 1 0 100 0)));
    vm_compute; (reflexivity || (split; discriminate)).
Defined.

(** ** Outcome of a dispatch *)

Lemma trace_add p lvl s : trace (add_process_to_queue p lvl s) = trace s.
Proof. by destruct (add_process_to_queue_cases p lvl s) as [-> | [_ ->]]. Qed.

Lemma trace_apply_outcome o cur p q s :
  ∃ e, trace (apply_outcome o cur p q s) = e :: trace s
       ∧ match o, e with
         | Completion, EvComplete _ _ | IOYield, EvYield _ _ _
         | Demotion, EvDemote _ _ _ | Requeue, EvReturn _ _ _ => True
         | _, _ => False
         end.
Proof.
  destruct o; cbn; eexists;
    (split; [unfold demote, requeue; rewrite ?trace_add; reflexivity | exact I]).
Qed.


Lemma reschedule_chosen cur p q time_slice run_time s :
  ∃ o, chosen p time_slice run_time o
       ∧ reschedule cur p q time_slice run_time s = apply_outcome o cur p q s.
Proof.
  unfold reschedule.
  destruct (Z.eqb_spec (remaining_time p) 0) as [Hrem | Hrem];
    [by exists Completion |].
  destruct (Z.eqb_spec (is_io_bound p) 0) as [Hio | Hio]; cbn.
  - destruct (Z.geb_spec (time_in_current_quantum p) time_slice).
    + exists Demotion. cbn. repeat split; [done | tauto | lia].
    + exists Requeue. cbn. repeat split; [done | tauto | lia].
  - destruct (Z.ltb_spec run_time time_slice); cbn.
    + by exists IOYield.
    + destruct (Z.geb_spec (time_in_current_quantum p) time_slice).
      * exists Demotion. cbn. repeat split; [done | lia | lia].
      * exists Requeue. cbn. repeat split; [done | lia | lia].
Qed.





(** ** What admission and selection leave alone *)

(** Admission, boost and selection only ever mark a process for level 0
    with a fresh quantum; any relation [R] that such a write respects
    holds between the process table before and after. *)
Section frame.
Context (R : relation Process) `{!PreOrder R}.
Hypothesis R_enqueue :
  ∀ p, R p (set_time_in_current_quantum 0 (set_current_queue 0 p)).

Lemma frame_add p s :
  Forall2 R (processes s) (processes (add_process_to_queue p 0 s)).
Proof.
  destruct (add_process_to_queue_cases p 0 s) as [-> | [_ ->]]; [reflexivity |].
  cbn. apply Forall2_alter_r; [reflexivity |].
  intros x y _ _ Hxy. etransitivity; [exact Hxy | apply R_enqueue].
Qed.

Lemma frame_foldl {A} (f : State → A → State) (l : list A) s :
  (∀ st x, Forall2 R (processes st) (processes (f st x))) →
  Forall2 R (processes s) (processes (foldl f s l)).
Proof.
  intros Hf. revert s. induction l as [| x l IH]; intros s; cbn; [reflexivity |].
  etransitivity; [apply Hf | apply IH].
Qed.

Lemma frame_check_arrivals s :
  Forall2 R (processes s) (processes (check_arrivals s)).
Proof.
  unfold check_arrivals. apply frame_foldl. intros st i.
  unfold check_arrival. destruct (processes st !! i) as [p |]; [| reflexivity].
  destruct (arrival_time p =? current_time st); [| reflexivity].
  apply (frame_add i (printf _ st)).
Qed.

Lemma frame_priority_boost s :
  Forall2 R (processes s) (processes (priority_boost s)).
Proof.
  unfold priority_boost.
  destruct (int_sub (current_time s) (last_boost_time s) >=? boost_interval s);
    [| reflexivity].
  apply (frame_foldl boost_level (levels 1) (printf (EvBoost (current_time s)) s)).
  intros st q. unfold boost_level.
  apply (frame_foldl (λ st' p, add_process_to_queue p 0 st')). intros st' p.
  apply frame_add.
Qed.

Lemma frame_pop_highest lvls s :
  processes (pop_highest lvls s).2 = processes s.
Proof.
  induction lvls as [| q lvls IH]; cbn; [done |].
  by destruct (qprocs (queue_at s q)).
Qed.

Lemma frame_get_next_process s :
  Forall2 R (processes s) (processes (get_next_process s).2).
Proof.
  unfold get_next_process. rewrite frame_pop_highest. apply frame_priority_boost.
Qed.
End frame.

Lemma current_time_add p lvl s :
  current_time (add_process_to_queue p lvl s) = current_time s.
Proof. by destruct (add_process_to_queue_cases p lvl s) as [-> | [_ ->]]. Qed.

Lemma current_time_foldl {A} (f : State → A → State) (l : list A) s :
  (∀ st x, current_time (f st x) = current_time st) →
  current_time (foldl f s l) = current_time s.
Proof.
  intros Hf. revert s. induction l as [| x l IH]; intros s; cbn; [done |].
  by rewrite IH, Hf.
Qed.

Lemma current_time_check_arrivals s :
  current_time (check_arrivals s) = current_time s.
Proof.
  unfold check_arrivals. apply current_time_foldl. intros st i.
  unfold check_arrival. destruct (processes st !! i) as [p |]; [| done].
  destruct (arrival_time p =? current_time st); [| done].
  by rewrite current_time_add.
Qed.

Lemma current_time_priority_boost s :
  current_time (priority_boost s) = current_time s.
Proof.
  unfold priority_boost.
  destruct (int_sub (current_time s) (last_boost_time s) >=? boost_interval s);
    [| done].
  change (current_time (foldl boost_level (printf (EvBoost (current_time s)) s)
                           (levels 1)) = current_time s).
  rewrite current_time_foldl; [done |]. intros st q.
  unfold boost_level.
  apply (current_time_foldl (λ st' p, add_process_to_queue p 0 st')).
  intros st' p. apply current_time_add.
Qed.

Lemma current_time_pop_highest lvls s :
  current_time (pop_highest lvls s).2 = current_time s.
Proof.
  induction lvls as [| q lvls IH]; cbn; [done |].
  by destruct (qprocs (queue_at s q)).
Qed.

Lemma current_time_get_next_process s :
  current_time (get_next_process s).2 = current_time s.
Proof.
  unfold get_next_process.
  by rewrite current_time_pop_highest, current_time_priority_boost.
Qed.

(** ** Idle handling *)

Lemma queue_at_empty s q : all_empty s → qprocs (queue_at s q) = [].
Proof.
  unfold all_empty, queue_at. intros Hall.
  destruct (queues s !! Z.to_nat q) as [x |] eqn:Hq; [| done].
  cbn. by eapply (Forall_lookup_1 _ _ _ _ Hall).
Qed.

Lemma all_empty_boost_level s q : all_empty s → all_empty (boost_level s q).
Proof.
  intros Hall. unfold boost_level. rewrite (queue_at_empty s q Hall). cbn.
  unfold all_empty. cbn. by apply Forall_insert.
Qed.

Lemma all_empty_priority_boost s : all_empty s → all_empty (priority_boost s).
Proof.
  intros Hall. unfold priority_boost.
  destruct (int_sub (current_time s) (last_boost_time s) >=? boost_interval s);
    [| done].
  assert (Hfold : ∀ lvls st, all_empty st → all_empty (foldl boost_level st lvls)).
  { induction lvls as [| q lvls IH]; intros st Hst; cbn; [done |].
    by apply IH, all_empty_boost_level. }
  apply (Hfold _ (printf _ s)), Hall.
Qed.

Lemma pop_highest_empty lvls s : all_empty s → pop_highest lvls s = (None, s).
Proof.
  intros Hall. induction lvls as [| q lvls IH]; cbn; [done |].
  by rewrite (queue_at_empty s q Hall).
Qed.

Lemma get_next_process_empty s :
  all_empty s → get_next_process s = (None, priority_boost s).
Proof.
  intros Hall. unfold get_next_process.
  by apply pop_highest_empty, all_empty_priority_boost.
Qed.

Lemma next_arrival_scan now ps acc :
  -1 ≤ now → acc = -1 ∨ now < acc →
  let r := foldl (next_arrival_step now) acc ps in
  (acc = -1 ∧ to_arrive now ps = [] ∧ r = -1)
  ∨ (now < r
     ∧ (r = acc ∨ r ∈ arrival_time <$> to_arrive now ps)
     ∧ (acc ≠ -1 → r ≤ acc)
     ∧ ∀ p, p ∈ to_arrive now ps → r ≤ arrival_time p).
Proof.
  intros Hnow. revert acc. unfold to_arrive.
  induction ps as [| p ps IH]; intros acc Hacc; cbn.
  { destruct Hacc as [-> | Hacc]; [by left |].
    right. repeat split; [done | by left | done |]. intros p Hp. by inv Hp. }
  set (acc1 := next_arrival_step now acc p).
  destruct (decide (0 < remaining_time p ∧ now < arrival_time p)) as [[Hr Ha] | Hno].
  - assert (Hacc1 : now < acc1 ∧ acc1 ≤ arrival_time p ∧ (acc ≠ -1 → acc1 ≤ acc)
                    ∧ (acc1 = acc ∨ acc1 = arrival_time p)).
    { unfold acc1, next_arrival_step.
      destruct (Z.gtb_spec (remaining_time p) 0); [| lia].
      destruct (Z.gtb_spec (arrival_time p) now); [| lia]. cbn.
      destruct (Z.eqb_spec acc (-1)); cbn; [lia |].
      destruct (Z.ltb_spec (arrival_time p) acc); lia. }
    destruct (IH acc1 (or_intror (proj1 Hacc1)))
      as [(? & _) | (Hlt & Hin & Hle & Hmin)]; [lia |].
    right. split; [done |]. split; [| split].
    + destruct Hin as [Heq | Hin].
      * destruct Hacc1 as (_ & _ & _ & [Hsame | Hnew]); [left; lia |].
        right. rewrite Heq, Hnew. cbn. by left.
      * right. cbn. by right.
    + lia.
    + intros x Hx. inv Hx; [lia | by apply Hmin].
  - assert (Hsame : acc1 = acc).
    { unfold acc1, next_arrival_step.
      destruct (Z.gtb_spec (remaining_time p) 0); [| done].
      destruct (Z.gtb_spec (arrival_time p) now); [| done]. lia. }
    rewrite Hsame. apply (IH acc Hacc).
Qed.

Lemma find_next_arrival_spec s :
  -1 ≤ current_time s →
  let waiting := to_arrive (current_time s) (processes s) in
  (waiting = [] ∧ find_next_arrival s = -1)
  ∨ (find_next_arrival s ≠ -1
     ∧ find_next_arrival s ∈ arrival_time <$> waiting
     ∧ ∀ p, p ∈ waiting → find_next_arrival s ≤ arrival_time p).
Proof.
  intros Hnow waiting. unfold find_next_arrival.
  destruct (next_arrival_scan (current_time s) (processes s) (-1) Hnow (or_introl eq_refl))
    as [(_ & ? & ?) | (Hlt & Hin & _ & Hmin)]; [by left |].
  right. split; [lia |]. split; [| done].
  destruct Hin as [Heq | Hin]; [lia | done].
Qed.

#[local] Instance same_times_preorder : PreOrder same_times.
Proof.
  split; [by intros p |].
  intros p1 p2 p3 [? ?] [? ?]. split; congruence.
Qed.

Lemma to_arrive_same_times now ps ps' :
  Forall2 same_times ps ps' →
  arrival_time <$> to_arrive now ps' = arrival_time <$> to_arrive now ps.
Proof.
  unfold to_arrive. induction 1 as [| p p' ps ps' [Hr Ha] _ IH]; [done |].
  rewrite !filter_cons, Hr, Ha.
  destruct (decide (0 < remaining_time p ∧ now < arrival_time p)); [| done].
  cbn. by rewrite IH, Ha.
Qed.

Lemma while_loop_unfold fuel s :
  while_loop (S fuel) s =
    if completed s <? n_of s then
      match loop_body s with
      | (s', Continue) => while_loop fuel s'
      | (s', Break) => Aborted s'
      end
    else Finished s.
Proof. reflexivity. Qed.

(** C7. When an iteration finds every level empty after admitting the
    arrivals (the clock being non-negative): if some unfinished process
    arrives later, the clock is set to the least such arrival time and the
    loop goes on; if none does, the error line is printed and the loop is
    left, so a run with unfinished processes ends aborted instead of
    iterating again. *)
Theorem idle_handling s :
  0 ≤ current_time s →
  all_empty (check_arrivals s) →
  (future_arrivals s ≠ [] →
   ∃ s', loop_body s = (s', Continue)
         ∧ current_time s' ∈ future_arrivals s
         ∧ (∀ t, t ∈ future_arrivals s → current_time s' ≤ t)
         ∧ (completed s < n_of s →
            ∀ fuel, while_loop (S fuel) s = while_loop fuel s'))
  ∧ (future_arrivals s = [] →
     ∃ s', loop_body s = (s', Break)
           ∧ head (trace s') = Some EvError
           ∧ current_time s' = current_time s
           ∧ (completed s < n_of s →
              ∀ fuel, while_loop (S fuel) s = Aborted s')).
Proof.
  intros Hnow Hempty.
  set (s2 := priority_boost (check_arrivals s)).
  assert (Hbody : loop_body s = idle s2).
  { unfold loop_body. by rewrite (get_next_process_empty _ Hempty). }
  assert (Htime : current_time s2 = current_time s).
  { unfold s2. by rewrite current_time_priority_boost, current_time_check_arrivals. }
  assert (Hsame : Forall2 same_times (processes s) (processes s2)).
  { assert (Henq : ∀ p,
              same_times p (set_time_in_current_quantum 0 (set_current_queue 0 p)))
      by (by intros p).
    etransitivity; [apply (frame_check_arrivals same_times Henq) |].
    apply (frame_priority_boost same_times Henq). }
  assert (Hfut : future_arrivals (printf (EvIdle (current_time s2)) s2)
                 = future_arrivals s).
  { unfold future_arrivals. cbn. rewrite Htime. by apply to_arrive_same_times. }
  assert (Hloop : ∀ s' e, loop_body s = (s', e) → completed s < n_of s →
            ∀ fuel, while_loop (S fuel) s
                    = match e with Continue => while_loop fuel s' | Break => Aborted s' end).
  { intros s' e He Hc fuel. rewrite while_loop_unfold.
    destruct (Z.ltb_spec (completed s) (n_of s)); [| lia]. by rewrite He. }
  destruct (find_next_arrival_spec (printf (EvIdle (current_time s2)) s2))
    as [[Hnil Hna] | (Hna & Hin & Hmin)]; [cbn; lia | |].
  - split; [intros Hne; exfalso; apply Hne; rewrite <- Hfut; unfold future_arrivals;
            cbn in *; by rewrite Hnil |].
    intros _. unfold idle in Hbody. rewrite Hna in Hbody. cbn in Hbody.
    eexists. split; [exact Hbody |]. split; [done |]. split; [done |].
    intros Hc fuel. by rewrite (Hloop _ _ Hbody Hc).
  - split; [| intros Hnil; exfalso; rewrite <- Hfut in Hnil;
              unfold future_arrivals in Hnil; rewrite Hnil in Hin; by inv Hin].
    intros _. unfold idle in Hbody.
    destruct (Z.eqb_spec (find_next_arrival (printf (EvIdle (current_time s2)) s2)) (-1))
      as [Heq | _]; [done |].
    cbn in Hbody. eexists. split; [exact Hbody |].
    rewrite <- Hfut. split; [done |]. split.
    + intros t Ht. unfold future_arrivals in Ht.
      apply list_elem_of_fmap in Ht as (p & -> & Hp). by apply Hmin.
    + intros Hc fuel. by rewrite (Hloop _ _ Hbody Hc).
Qed.

(** ** Priority boost *)

Lemma queue_at_set_queue_eq q new s :
  (Z.to_nat q < length (queues s))%nat → queue_at (set_queue q new s) q = new.
Proof.
  intros Hq. unfold queue_at, set_queue. cbn.
  by rewrite list_lookup_insert_eq.
Qed.

Lemma queue_at_set_queue_ne q q' new s :
  Z.to_nat q ≠ Z.to_nat q' → queue_at (set_queue q new s) q' = queue_at s q'.
Proof.
  intros Hq. unfold queue_at, set_queue. cbn.
  by rewrite list_lookup_insert_ne.
Qed.

Lemma length_queues_add p lvl s :
  length (queues (add_process_to_queue p lvl s)) = length (queues s).
Proof.
  destruct (add_process_to_queue_cases p lvl s) as [-> | [_ ->]]; [done |].
  cbn. by rewrite length_insert.
Qed.

Lemma queue_at_add_eq p lvl s :
  (Z.to_nat lvl < length (queues s))%nat →
  count (queue_at s lvl) < MAX_PROCESSES →
  qprocs (queue_at (add_process_to_queue p lvl s) lvl) = qprocs (queue_at s lvl) ++ [p].
Proof.
  intros Hlvl Hroom. rewrite add_process_to_queue_room by done.
  unfold queue_at at 1. cbn. by rewrite list_lookup_insert_eq.
Qed.

Lemma queue_at_add_ne p lvl q s :
  Z.to_nat lvl ≠ Z.to_nat q →
  queue_at (add_process_to_queue p lvl s) q = queue_at s q.
Proof.
  intros Hq.
  destruct (add_process_to_queue_cases p lvl s) as [-> | [_ ->]]; [done |].
  unfold queue_at. cbn. by rewrite list_lookup_insert_ne.
Qed.

Lemma at_top_add cur p0 x s p :
  processes (add_process_to_queue x 0 s) !! cur = Some p →
  processes s !! cur = Some p0 →
  (count (queue_at s 0) < MAX_PROCESSES ∧ cur = x) ∨ at_top p0 →
  at_top p.
Proof.
  intros Hp Hp0 Hwhy.
  destruct (Z.lt_ge_cases (count (queue_at s 0)) MAX_PROCESSES) as [Hroom | Hfull].
  - rewrite add_process_to_queue_room in Hp by done.
    cbn in Hp. destruct (decide (cur = x)) as [-> | Hne].
    + rewrite list_lookup_alter_eq, Hp0 in Hp. by simplify_eq/=.
    + rewrite list_lookup_alter_ne in Hp by done.
      destruct Hwhy as [[_ ?] | Htop]; [done | by simplify_eq].
  - rewrite add_process_to_queue_full in Hp by done.
    destruct Hwhy as [[? _] | Htop]; [lia | by simplify_eq].
Qed.

(** The inner loop of the boost when level 0 has room for the whole list:
    the entries are appended in order, the other levels are untouched,
    and every appended process is marked for level 0. *)
Lemma boost_refs_room l s :
  (0 < length (queues s))%nat →
  count (queue_at s 0) + Z.of_nat (length l) ≤ MAX_PROCESSES →
  let s' := foldl (λ st p, add_process_to_queue p 0 st) s l in
  qprocs (queue_at s' 0) = qprocs (queue_at s 0) ++ l
  ∧ (∀ q, Z.to_nat q ≠ 0%nat → queue_at s' q = queue_at s q)
  ∧ length (queues s') = length (queues s)
  ∧ (∀ cur p p0, processes s' !! cur = Some p → processes s !! cur = Some p0 →
       cur ∈ l ∨ at_top p0 → at_top p).
Proof.
  revert s. induction l as [| x l IH]; intros s Hlen Hroom; cbn.
  { rewrite app_nil_r. do 3 (split; [done |]).
    intros cur p p0 Hp Hp0 [Hin | Htop]; [by inv Hin | congruence]. }
  cbn in Hroom.
  assert (Hroom1 : count (queue_at s 0) < MAX_PROCESSES) by lia.
  destruct (IH (add_process_to_queue x 0 s)) as (Hq0 & Hother & Hlen' & Htop).
  { by rewrite length_queues_add. }
  { unfold count in *. rewrite (queue_at_add_eq x 0 s Hlen Hroom1).
    rewrite length_app. cbn in *. lia. }
  split; [rewrite Hq0, (queue_at_add_eq x 0 s Hlen Hroom1), <- app_assoc; done |].
  split; [intros q Hq; rewrite (Hother q Hq); by apply queue_at_add_ne |].
  split; [by rewrite Hlen', length_queues_add |].
  intros cur p p0 Hp Hp0 Hwhy.
  destruct (processes (add_process_to_queue x 0 s) !! cur) as [p1 |] eqn:Hp1.
  - apply (Htop cur p p1 Hp Hp1).
    destruct Hwhy as [Hin | Htop0].
    + inv Hin; [right | by left].
      eapply (at_top_add _ p0 _ s); [exact Hp1 | exact Hp0 | left; done].
    + right. eapply (at_top_add _ p0 _ s); [exact Hp1 | exact Hp0 | by right].
  - exfalso. apply lookup_ge_None in Hp1. apply lookup_lt_Some in Hp0.
    destruct (add_process_to_queue_cases x 0 s) as [Heq | [_ Heq]];
      rewrite Heq in Hp1; cbn in Hp1; rewrite ?length_alter in Hp1; lia.
Qed.

Lemma quantum_at s q :
  time_quantum (queue_at s q) = default 0 ((time_quantum <$> queues s) !! Z.to_nat q).
Proof.
  unfold queue_at. rewrite list_lookup_fmap. by destruct (queues s !! Z.to_nat q).
Qed.

Lemma quanta_foldl {A} (f : State → A → State) (l : list A) s :
  (∀ st x, time_quantum <$> queues (f st x) = time_quantum <$> queues st) →
  time_quantum <$> queues (foldl f s l) = time_quantum <$> queues s.
Proof.
  intros Hf. revert s. induction l as [| x l IH]; intros s; cbn; [done |].
  by rewrite IH, Hf.
Qed.

Lemma quanta_boost_level s q :
  time_quantum <$> queues (boost_level s q) = time_quantum <$> queues s.
Proof.
  unfold boost_level. rewrite quanta_set_queue.
  apply (quanta_foldl (λ st p, add_process_to_queue p 0 st)).
  intros st p. apply quanta_add.
Qed.

Lemma quanta_priority_boost s :
  time_quantum <$> queues (priority_boost s) = time_quantum <$> queues s.
Proof.
  unfold priority_boost.
  destruct (int_sub (current_time s) (last_boost_time s) >=? boost_interval s);
    [| done].
  change (time_quantum <$> queues (foldl boost_level
            (printf (EvBoost (current_time s)) s) (levels 1))
          = time_quantum <$> queues s).
  rewrite quanta_foldl; [done |]. intros st q. apply quanta_boost_level.
Qed.

Lemma quanta_pop_highest lvls s :
  time_quantum <$> queues (pop_highest lvls s).2 = time_quantum <$> queues s.
Proof.
  induction lvls as [| q lvls IH]; cbn; [done |].
  destruct (qprocs (queue_at s q)); [done |]. apply quanta_set_queue.
Qed.

Lemma trace_reschedule cur p q time_slice run_time s :
  ∃ e, trace (reschedule cur p q time_slice run_time s) = e :: trace s.
Proof.
  destruct (reschedule_chosen cur p q time_slice run_time s) as (o & _ & ->).
  destruct (trace_apply_outcome o cur p q s) as (e & He & _). by exists e.
Qed.

(** The line a dispatch prints first, and the one it prints last. *)
Lemma trace_dispatch cur p s :
  processes s !! cur = Some p →
  ∃ e, trace (dispatch cur s)
       = e :: EvRun (current_time s) (id p) (current_queue p) (remaining_time p)
                (time_quantum (queue_at s (current_queue p))) :: trace s.
Proof.
  intros Hp. rewrite (dispatch_unfold s cur p Hp).
  destruct (trace_reschedule cur (ran cur p s) (current_queue p)
              (time_quantum (queue_at s (current_queue p)))
              (run_time_of p (time_quantum (queue_at s (current_queue p))))
              (after_run cur p s)) as (e & He).
  exists e. by rewrite He.
Qed.

(** One level of the boost when level 0 has room for its entries. *)
Lemma boost_level_room s q :
  Z.to_nat q ≠ 0%nat →
  (Z.to_nat q < length (queues s))%nat →
  count (queue_at s 0) + count (queue_at s q) ≤ MAX_PROCESSES →
  let s' := boost_level s q in
  qprocs (queue_at s' 0) = qprocs (queue_at s 0) ++ qprocs (queue_at s q)
  ∧ qprocs (queue_at s' q) = []
  ∧ (∀ q', Z.to_nat q' ≠ 0%nat → Z.to_nat q' ≠ Z.to_nat q →
       queue_at s' q' = queue_at s q')
  ∧ length (queues s') = length (queues s)
  ∧ (∀ cur p p0, processes s' !! cur = Some p → processes s !! cur = Some p0 →
       cur ∈ qprocs (queue_at s q) ∨ at_top p0 → at_top p).
Proof.
  intros Hq0 Hq Hroom.
  destruct (boost_refs_room (qprocs (queue_at s q)) s) as (Happ & Hother & Hlen & Htop);
    [lia | done |].
  set (s1 := foldl (λ st p, add_process_to_queue p 0 st) s (qprocs (queue_at s q))) in *.
  unfold boost_level. fold s1. cbn.
  split; [rewrite queue_at_set_queue_ne by done; exact Happ |].
  split; [rewrite queue_at_set_queue_eq by (by rewrite Hlen); done |].
  split; [intros q' H0 Hne; rewrite queue_at_set_queue_ne by done; by apply Hother |].
  split; [by rewrite length_insert |].
  exact Htop.
Qed.

Lemma current_time_boost_level s q :
  current_time (boost_level s q) = current_time s.
Proof.
  unfold boost_level. cbn.
  apply (current_time_foldl (λ st p, add_process_to_queue p 0 st)).
  intros st p. apply current_time_add.
Qed.

Lemma priority_boost_due s :
  is_int (current_time s - last_boost_time s) →
  boost_interval s ≤ current_time s - last_boost_time s →
  priority_boost s =
    with_last_boost_time (current_time s)
      (boost_level (boost_level (printf (EvBoost (current_time s)) s) 1) 2).
Proof.
  intros Hint Hdue. unfold priority_boost, int_sub. rewrite (wrap_id _ Hint).
  destruct (Z.geb_spec (current_time s - last_boost_time s) (boost_interval s));
    [| lia].
  change (levels 1) with [1; 2]. cbn [foldl].
  by rewrite !current_time_boost_level.
Qed.

(** *** From the boost to the next dispatch *)

Lemma quanta_check_arrivals s :
  time_quantum <$> queues (check_arrivals s) = time_quantum <$> queues s.
Proof.
  unfold check_arrivals. apply quanta_foldl. intros st i.
  unfold check_arrival. destruct (processes st !! i) as [p |]; [| done].
  destruct (arrival_time p =? current_time st); [| done].
  by rewrite quanta_add.
Qed.

Lemma quanta_get_next_process s :
  time_quantum <$> queues (get_next_process s).2 = time_quantum <$> queues s.
Proof.
  unfold get_next_process. by rewrite quanta_pop_highest, quanta_priority_boost.
Qed.

Lemma quanta_dispatch cur s :
  time_quantum <$> queues (dispatch cur s) = time_quantum <$> queues s.
Proof.
  destruct (processes s !! cur) as [p0 |] eqn:Hp;
    [| unfold dispatch; by rewrite Hp].
  rewrite (dispatch_unfold s cur p0 Hp).
  destruct (reschedule_process cur (ran cur p0 s) (current_queue p0)
              (time_quantum (queue_at s (current_queue p0)))
              (run_time_of p0 (time_quantum (queue_at s (current_queue p0))))
              (after_run cur p0 s))
    as (p' & _ & Hq & _); [cbn; by eapply lookup_stored | done].
Qed.

Lemma quanta_loop_body s :
  time_quantum <$> queues (loop_body s).1 = time_quantum <$> queues s.
Proof.
  unfold loop_body.
  pose proof (quanta_get_next_process (check_arrivals s)) as Hnext.
  rewrite quanta_check_arrivals in Hnext.
  destruct (get_next_process (check_arrivals s)) as [[cur |] s1]; cbn in *.
  - by rewrite quanta_dispatch.
  - unfold idle. by destruct (negb (find_next_arrival _ =? -1)).
Qed.

(** A dispatch writes to the dispatched process only. *)
Lemma dispatch_other cur p s :
  cur ≠ p → processes (dispatch cur s) !! p = processes s !! p.
Proof.
  intros Hne.
  destruct (processes s !! cur) as [p0 |] eqn:Hp;
    [| unfold dispatch; by rewrite Hp].
  rewrite (dispatch_unfold s cur p0 Hp).
  destruct (reschedule_process cur (ran cur p0 s) (current_queue p0)
              (time_quantum (queue_at s (current_queue p0)))
              (run_time_of p0 (time_quantum (queue_at s (current_queue p0))))
              (after_run cur p0 s))
    as (p' & -> & _); [cbn; by eapply lookup_stored |].
  cbn. by rewrite !list_lookup_insert_ne.
Qed.

#[local] Instance stays_top_preorder : PreOrder stays_top.
Proof.
  split; [intros p Hp; exact Hp |].
  intros p1 p2 p3 H12 H23 H1. by apply H23, H12.
Qed.

Lemma stays_top_selection s :
  Forall2 stays_top (processes s)
    (processes (get_next_process (check_arrivals s)).2).
Proof.
  assert (Henq : ∀ p,
            stays_top p (set_time_in_current_quantum 0 (set_current_queue 0 p)))
    by (by intros p).
  etransitivity; [apply (frame_check_arrivals stays_top Henq) |].
  apply (frame_get_next_process stays_top Henq).
Qed.

Lemma waits_at_top p s s' :
  waits p s s' →
  (∀ pr, processes s !! p = Some pr → current_queue pr = 0) →
  time_quantum (queue_at s' 0) = time_quantum (queue_at s 0)
  ∧ ∀ pr', processes s' !! p = Some pr' → current_queue pr' = 0.
Proof.
  induction 1 as [s | s s1 s' Hsel Hbody _ IH]; intros Htop; [done |].
  assert (Hquanta : time_quantum (queue_at s1 0) = time_quantum (queue_at s 0)).
  { rewrite !quantum_at. pose proof (quanta_loop_body s) as Hl.
    rewrite Hbody in Hl. cbn in Hl. by rewrite Hl. }
  assert (Hnext : ∀ pr1, processes s1 !! p = Some pr1 → current_queue pr1 = 0).
  { intros pr1 Hp1. pose proof (stays_top_selection s) as Hsame.
    unfold loop_body in Hbody. unfold selected in Hsel.
    destruct (get_next_process (check_arrivals s)) as [[cur |] s2]; cbn in *.
    - injection Hbody as <-.
      rewrite dispatch_other in Hp1 by congruence.
      destruct (Forall2_lookup_r _ _ _ _ _ Hsame Hp1) as (pr & Hp & Hstays).
      apply Hstays, (Htop pr Hp).
    - unfold idle in Hbody.
      destruct (negb (find_next_arrival _ =? -1)); [| done].
      injection Hbody as <-. cbn in Hp1.
      destruct (Forall2_lookup_r _ _ _ _ _ Hsame Hp1) as (pr & Hp & Hstays).
      apply Hstays, (Htop pr Hp). }
  destruct (IH Hnext) as (Hquanta' & Hlast).
  split; [congruence | done].
Qed.

(** The dispatch of a process marked for level 0, at the end of its
    wait: it is printed with priority 0 and the quantum of level 0. *)
Lemma next_dispatch_at_top p s s' s1 pr1 :
  waits p s s' →
  (∀ pr, processes s !! p = Some pr → current_queue pr = 0) →
  get_next_process (check_arrivals s') = (Some p, s1) →
  processes s1 !! p = Some pr1 →
  ∃ e, trace (dispatch p s1)
       = e :: EvRun (current_time s') (id pr1) 0 (remaining_time pr1)
                (time_quantum (queue_at s 0)) :: trace s1.
Proof.
  intros Hw Htop Hnext Hp1.
  destruct (waits_at_top p s s' Hw Htop) as (Hquanta & Htop').
  pose proof (stays_top_selection s') as Hsame. rewrite Hnext in Hsame.
  destruct (Forall2_lookup_r _ _ _ _ _ Hsame Hp1) as (pr & Hp & Hstays).
  pose proof (Hstays (Htop' pr Hp)) as Hq1.
  destruct (trace_dispatch p pr1 s1 Hp1) as (e & He).
  exists e. rewrite He, Hq1. do 3 f_equal.
  - replace s1 with (get_next_process (check_arrivals s')).2 by (by rewrite Hnext).
    by rewrite current_time_get_next_process, current_time_check_arrivals.
  - rewrite <- Hquanta, !quantum_at.
    replace s1 with (get_next_process (check_arrivals s')).2 by (by rewrite Hnext).
    by rewrite quanta_get_next_process, quanta_check_arrivals.
Qed.

(** C6, with the capacity of level 0 taken into account. Before the
    selection of a dispatch, when [current_time - last_boost_time >=
    boost_interval] and the three levels together hold at most
    [MAX_PROCESSES] references: level 0 becomes its own entries followed
    by those of level 1 and then those of level 2, each in their order;
    levels 1 and 2 are emptied; [last_boost_time] becomes [current_time];
    every moved process is marked for level 0 with a fresh quantum; and
    the next dispatch of a moved process, be it the one selected at once
    or one that comes after any number of iterations dispatching others,
    is printed with priority 0 and the quantum of level 0. *)
Theorem priority_boost_room s :
  length (queues s) = NUM_QUEUES →
  is_int (current_time s - last_boost_time s) →
  boost_interval s ≤ current_time s - last_boost_time s →
  count (queue_at s 0) + count (queue_at s 1) + count (queue_at s 2)
    ≤ MAX_PROCESSES →
  let s' := priority_boost s in
  let moved := qprocs (queue_at s 1) ++ qprocs (queue_at s 2) in
  get_next_process s = pop_highest (levels 0) s'
  ∧ qprocs (queue_at s' 0) = qprocs (queue_at s 0) ++ moved
  ∧ qprocs (queue_at s' 1) = []
  ∧ qprocs (queue_at s' 2) = []
  ∧ last_boost_time s' = current_time s
  ∧ (∀ cur p, cur ∈ moved → processes s' !! cur = Some p → at_top p)
  ∧ (∀ cur sel s1,
       cur ∈ moved → get_next_process s = (sel, s1) →
       (sel = Some cur →
        ∀ p, processes s1 !! cur = Some p →
        ∃ e, trace (dispatch cur s1)
             = e :: EvRun (current_time s) (id p) 0 (remaining_time p)
                      (time_quantum (queue_at s 0)) :: trace s1)
       ∧ (sel ≠ Some cur →
          ∀ s2 s3 p,
            waits cur (end_of_iteration sel s1) s2 →
            get_next_process (check_arrivals s2) = (Some cur, s3) →
            processes s3 !! cur = Some p →
            ∃ e, trace (dispatch cur s3)
                 = e :: EvRun (current_time s2) (id p) 0 (remaining_time p)
                          (time_quantum (queue_at s 0)) :: trace s3)).
Proof.
  intros Hlen Hint Hdue Hroom s' moved.
  assert (Hs' : s' = with_last_boost_time (current_time s)
                  (boost_level (boost_level (printf (EvBoost (current_time s)) s) 1) 2))
    by (by apply priority_boost_due).
  set (s0 := printf (EvBoost (current_time s)) s) in *.
  assert (Hs0 : ∀ q, queue_at s0 q = queue_at s q) by done.
  unfold count in Hroom.
  destruct (boost_level_room s0 1) as (H10 & H11 & H1o & H1len & H1top);
    [done | cbn; rewrite Hlen; unfold NUM_QUEUES; lia
     | unfold count; rewrite !Hs0; lia |].
  set (s1 := boost_level s0 1) in *. rewrite !Hs0 in *.
  assert (H12 : queue_at s1 2 = queue_at s 2) by (by rewrite H1o, Hs0).
  destruct (boost_level_room s1 2) as (H20 & H22 & H2o & H2len & H2top);
    [done | rewrite H1len; cbn; rewrite Hlen; unfold NUM_QUEUES; lia
     | unfold count; rewrite H10, H12, length_app; cbn; lia |].
  set (s2 := boost_level s1 2) in *.
  assert (Htop : ∀ cur p, cur ∈ moved → processes s' !! cur = Some p → at_top p).
  { intros cur p Hin Hp. rewrite Hs' in Hp. cbn in Hp.
    assert (Hsome : ∀ st st', Forall2 (λ _ _ : Process, True) (processes st) (processes st') →
              ∀ x, processes st' !! cur = Some x → ∃ y, processes st !! cur = Some y).
    { intros st st' Hall x Hx.
      destruct (Forall2_lookup_r _ _ _ _ _ Hall Hx) as (y & Hy & _). by exists y. }
    assert (Hpre : PreOrder (λ _ _ : Process, True)) by (by split).
    assert (Hf : ∀ st q, Forall2 (λ _ _ : Process, True) (processes st)
                            (processes (boost_level st q))).
    { intros st q. unfold boost_level. cbn.
      apply (frame_foldl (λ _ _, True) (λ st' x, add_process_to_queue x 0 st')).
      intros st' x. by apply frame_add. }
    destruct (Hsome s1 s2 (Hf s1 2) p Hp) as (p1 & Hp1).
    destruct (Hsome s0 s1 (Hf s0 1) p1 Hp1) as (p0 & Hp0).
    apply (H2top cur p p1 Hp Hp1).
    unfold moved in Hin. apply elem_of_app in Hin as [Hin | Hin].
    - right. apply (H1top cur p1 p0 Hp1 Hp0). by left.
    - left. by rewrite H12. }
  assert (Hq' : ∀ q, queue_at s' q = queue_at s2 q) by (by rewrite Hs').
  split; [done |].
  split; [rewrite Hq', H20, H10, H12; unfold moved; by rewrite <- app_assoc |].
  split; [rewrite Hq', H2o by done; exact H11 |].
  split; [rewrite Hq'; exact H22 |].
  split; [by rewrite Hs' |].
  split; [exact Htop |].
  intros cur sel s3 Hin Hnext.
  assert (Hs3 : s3 = (pop_highest (levels 0) s').2)
    by (unfold get_next_process in Hnext; fold s' in Hnext; by rewrite Hnext).
  assert (Htop3 : ∀ p, processes s3 !! cur = Some p → current_queue p = 0).
  { intros p Hp. rewrite Hs3, frame_pop_highest in Hp.
    by destruct (Htop cur p Hin Hp). }
  assert (Hnow3 : current_time s3 = current_time s).
  { rewrite Hs3. unfold s'.
    by rewrite current_time_pop_highest, current_time_priority_boost. }
  assert (Hquanta3 : time_quantum <$> queues s3 = time_quantum <$> queues s).
  { rewrite Hs3. unfold s'.
    by rewrite quanta_pop_highest, quanta_priority_boost. }
  split.
  - intros -> p Hp.
    destruct (trace_dispatch cur p s3 Hp) as (e & He).
    exists e. rewrite He, (Htop3 p Hp), Hnow3.
    by rewrite !quantum_at, Hquanta3.
  - intros Hsel s4 s5 p Hwaits Hnext5 Hp.
    assert (Hend : ∀ pr, processes (end_of_iteration sel s3) !! cur = Some pr →
                         current_queue pr = 0).
    { intros pr Hpr. apply Htop3. destruct sel as [other |]; cbn in Hpr.
      - rewrite dispatch_other in Hpr by congruence. done.
      - unfold idle in Hpr.
        by destruct (negb (find_next_arrival _ =? -1)). }
    destruct (next_dispatch_at_top cur _ s4 s5 p Hwaits Hend Hnext5 Hp) as (e & He).
    exists e. rewrite He. do 3 f_equal.
    rewrite !quantum_at. f_equal. f_equal. rewrite <- Hquanta3.
    destruct sel as [other |]; cbn.
    + apply quanta_dispatch.
    + unfold idle. by destruct (negb (find_next_arrival _ =? -1)).
Qed.

(** There the boost moves processes 1 and 4 (indices 0 and 3) to level
    0; process 1 is dispatched at once, process 4 in the next iteration,
    both with priority 0 and the quantum of level 0. *)
Lemma priority_boost_room_main :
  qprocs (queue_at (priority_boost main_at_66) 0)
  = qprocs (queue_at main_at_66 0)
    ++ qprocs (queue_at main_at_66 1) ++ qprocs (queue_at main_at_66 2)
  ∧ qprocs (queue_at (priority_boost main_at_66) 2) = []
  ∧ last_boost_time (priority_boost main_at_66) = current_time main_at_66
  ∧ (∃ e, trace (dispatch 0%nat main_after_boost)
          = e :: EvRun (current_time main_at_66) 1 0 70
                   (time_quantum (queue_at main_at_66 0))
              :: trace main_after_boost)
  ∧ (∃ e, trace (dispatch 3%nat main_next_selection)
          = e :: EvRun (current_time (dispatch 0%nat main_after_boost)) 4 0 50
                   (time_quantum (queue_at main_at_66 0))
              :: trace main_next_selection).
Proof.
  assert (Hlen : length (queues main_at_66) = NUM_QUEUES)
    by (vm_compute; reflexivity).
  assert (Hint : is_int (current_time main_at_66 - last_boost_time main_at_66))
    by (vm_compute; split; discriminate).
  assert (Hdue : boost_interval main_at_66
                 ≤ current_time main_at_66 - last_boost_time main_at_66)
    by (vm_compute; discriminate).
  assert (Hroom : count (queue_at main_at_66 0) + count (queue_at main_at_66 1)
                  + count (queue_at main_at_66 2) ≤ MAX_PROCESSES)
    by (vm_compute; discriminate).
  assert (Hsel : get_next_process main_at_66 = (Some 0%nat, main_after_boost))
    by (vm_compute; reflexivity).
  destruct (priority_boost_room main_at_66 Hlen Hint Hdue Hroom)
    as (_ & Hq0 & _ & Hq2 & Hlast & _ & Hnext).
  split; [exact Hq0 |].
  split; [exact Hq2 |].
  split; [exact Hlast |].
  split.
  - assert (Hin : 0%nat ∈ qprocs (queue_at main_at_66 1) ++ qprocs (queue_at main_at_66 2))
      by (apply list_elem_of_In; vm_compute; by left).
    destruct (Hnext 0%nat (Some 0%nat) main_after_boost Hin Hsel) as [Hnow _].
    apply (Hnow eq_refl (mkProcess 1 0 100 70 0 0 0 0 0 0 0)).
    vm_compute. reflexivity.
  - assert (Hin : 3%nat ∈ qprocs (queue_at main_at_66 1) ++ qprocs (queue_at main_at_66 2))
      by (apply list_elem_of_In; vm_compute; right; by left).
    destruct (Hnext 3%nat (Some 0%nat) main_after_boost Hin Hsel) as [_ Hlater].
    assert (Hne : Some 0%nat ≠ Some 3%nat) by discriminate.
    apply (Hlater Hne (dispatch 0%nat main_after_boost) main_next_selection
             (mkProcess 4 10 80 50 0 0 0 0 0 14 0)).
    + apply waits_here.
    + vm_compute. reflexivity.
    + vm_compute. reflexivity.
Defined.

(** C6 as stated fails when level 0 is full: in the run of
    [crowd_processes] the boost is due at 70 with process 1 (index 0) at
    level 2 and ten arrivals at level 0; after the boost level 2 is
    empty and process 1 is not at level 0. *)
Lemma priority_boost_drops_when_full :
  boost_interval crowd_at_70
    ≤ current_time crowd_at_70 - last_boost_time crowd_at_70
  ∧ qprocs (queue_at crowd_at_70 2) = [0%nat]
  ∧ qprocs (queue_at (priority_boost crowd_at_70) 2) = []
  ∧ ¬ (∀ cur,
         cur ∈ qprocs (queue_at crowd_at_70 1) ++ qprocs (queue_at crowd_at_70 2) →
         cur ∈ qprocs (queue_at (priority_boost crowd_at_70) 0)).
Proof.
  split; [vm_compute; discriminate |].
  split; [vm_compute; reflexivity |].
  split; [vm_compute; reflexivity |].
  intros Hall. specialize (Hall 0%nat).
  assert (Hin : 0%nat ∈ qprocs (queue_at crowd_at_70 1) ++ qprocs (queue_at crowd_at_70 2)).
  { apply list_elem_of_In. vm_compute. by left. }
  apply Hall, list_elem_of_In in Hin. vm_compute in Hin.
  repeat (destruct Hin as [Hin | Hin]; [discriminate |]). done.
Qed.

(** ** A full level *)

(** C10. Adding to a level that already holds [MAX_PROCESSES] references
    changes nothing at all: no queue, no process, no line of output. And
    this loses a process: the run of [crowd_processes] ends aborted with
    process 1 unfinished and in no queue, the boost at 70 having tried to
    add it to the full level 0. *)
Theorem add_to_full_level_drops :
  (∀ p lvl s,
     MAX_PROCESSES ≤ count (queue_at s lvl) → add_process_to_queue p lvl s = s)
  ∧ count (queue_at crowd_at_70 0) = MAX_PROCESSES
  ∧ (∃ sf p,
       run_mlfq_simulation 20 crowd_processes initial_globals = Aborted sf
       ∧ processes sf !! 0%nat = Some p
       ∧ 0 < remaining_time p
       ∧ Forall (λ q, 0%nat ∉ qprocs q) (queues sf)
       ∧ head (trace sf) = Some EvError).
Proof.
  split; [intros p lvl s; apply add_process_to_queue_full |].
  split; [by vm_compute |].
  eexists _, _. split; [vm_compute; reflexivity |].
  split; [reflexivity |]. split; [by vm_compute |].
  split; [| reflexivity].
  repeat constructor; cbn; intros Hin; by inv Hin.
Qed.

Lemma add_to_full_level_drops_crowd :
  add_process_to_queue 0 0 crowd_at_70 = crowd_at_70.
Proof.
  apply (proj1 add_to_full_level_drops 0%nat 0 crowd_at_70).
  vm_compute. discriminate.
Defined.

(** ** Determinism *)


(** *** The run does not read what was printed before it *)















(** *** The run reads the descriptors and the three globals only *)






(** ** Scenarios *)


Lemma idle_handling_lone_io :
  (future_arrivals lone_io_at_2 ≠ [] →
   ∃ s', loop_body lone_io_at_2 = (s', Continue)
         ∧ current_time s' ∈ future_arrivals lone_io_at_2
         ∧ (∀ t, t ∈ future_arrivals lone_io_at_2 → current_time s' ≤ t)
         ∧ (completed lone_io_at_2 < n_of lone_io_at_2 →
            ∀ fuel, while_loop (S fuel) lone_io_at_2 = while_loop fuel s'))
  ∧ (future_arrivals lone_io_at_2 = [] →
     ∃ s', loop_body lone_io_at_2 = (s', Break)
           ∧ head (trace s') = Some EvError
           ∧ current_time s' = current_time lone_io_at_2
           ∧ (completed lone_io_at_2 < n_of lone_io_at_2 →
              ∀ fuel, while_loop (S fuel) lone_io_at_2 = Aborted s')).
Proof.
  apply (idle_handling lone_io_at_2).
  - vm_compute. discriminate.
  - repeat constructor.
Defined.

(** C1, on the code: the lone I/O-bound process of burst 5 created with
    arrival time 0 terminates at 25 after two yields, each of which moved
    its [arrival_time] on; the statistics are computed from the moved
    value, 24: turnaround 1 instead of 25, waiting time -4, response
    time -24. *)
Theorem statistics_after_io_yield :
  ∃ sf p,
    run_mlfq_simulation 20 lone_io_process initial_globals = Finished sf
    ∧ processes sf = [p]
    ∧ remaining_time p = 0 ∧ first_run_time p = 0 ∧ completion_time p = 25
    ∧ arrival_time p = 24
    ∧ turnaround_time p = 1 ∧ waiting_time p = -4 ∧ response_time p = -24
    ∧ rows (print_results (processes sf)) = [mkRow 1 true 5 (-24) 25 1 (-4)].
Proof. eexists _, _. split; [vm_compute; reflexivity |]. by repeat split. Qed.

(** C2, on the code: in the program's own run the clock goes from 14 to
    24 in one dispatch; process 5 (arrival 20) and process 2 (due back
    from I/O at 22) are passed over, never enter a queue again, and the
    run ends in the error branch with both unfinished. *)
Theorem main_run_misses_arrivals :
  ∃ sf p2 p5,
    main_run 100 = Aborted sf
    ∧ head (trace sf) = Some EvError
    ∧ current_time sf = 186
    ∧ processes sf !! 1%nat = Some p2 ∧ processes sf !! 4%nat = Some p5
    ∧ arrival_time p2 = 22 ∧ remaining_time p2 = 3
    ∧ arrival_time p5 = 20 ∧ remaining_time p5 = 15 ∧ first_run_time p5 = -1
    ∧ Forall (λ q, qprocs q = []) (queues sf)
    ∧ Forall (λ e, ∀ t b io, e ≠ EvArrive t 5 b io) (trace sf)
    ∧ Forall (λ e, ∀ t b io, e = EvArrive t 2 b io → t = 0) (trace sf).
Proof.
  eexists _, _, _. split; [vm_compute; reflexivity |].
  do 9 (split; [reflexivity |]).
  split; [repeat constructor |].
  split; repeat constructor; intros; try discriminate; congruence.
Qed.

(** C3, on the code: the I/O-bound process stays at level 0 and is never
    demoted, but it does not complete: due back at 24 while the clock
    goes from 14 to 34, it is passed over, and the run ends in the error
    branch with one unit of its burst left. *)
Theorem io_and_cpu_run :
  ∃ sf io cpu,
    run_mlfq_simulation 100 io_and_cpu initial_globals = Aborted sf
    ∧ processes sf = [io; cpu]
    ∧ remaining_time io = 1 ∧ current_queue io = 0
    ∧ first_run_time io = 0 ∧ first_run_time cpu = 2
    ∧ arrival_time io = 24
    ∧ remaining_time cpu = 0 ∧ completion_time cpu = 104
    ∧ Forall (λ e, ∀ t q, e ≠ EvDemote t 1 q ∧ e ≠ EvComplete t 1) (trace sf).
Proof.
  eexists _, _, _. split; [vm_compute; reflexivity |].
  do 8 (split; [reflexivity |]).
  repeat constructor; discriminate.
Qed.

(** ** Pointers in the queues *)

#[local] Instance refs_kept_preorder : PreOrder refs_kept.
Proof.
  split; [by intros s |].
  intros s1 s2 s3 [Hl12 H12] [Hl23 H23]. split; [congruence | auto].
Qed.

Lemma refs_kept_same s s' :
  queues s' = queues s → length (processes s') = length (processes s) →
  refs_kept s s'.
Proof. intros Hq Hl. split; [done |]. unfold refs_ok. by rewrite Hq, Hl. Qed.

Lemma refs_ok_queue_at s q :
  refs_ok s → Forall (λ r, (r < length (processes s))%nat) (qprocs (queue_at s q)).
Proof.
  unfold refs_ok, queue_at. intros Hok.
  destruct (queues s !! Z.to_nat q) as [x |] eqn:Hq; [| by constructor].
  by eapply (Forall_lookup_1 _ _ _ _ Hok).
Qed.

Lemma refs_kept_set_queue q l s :
  (refs_ok s → Forall (λ r, (r < length (processes s))%nat) l) →
  refs_kept s (set_queue q (set_qprocs l (queue_at s q)) s).
Proof.
  intros Hl. split; [done |]. intros Hok. unfold refs_ok. cbn.
  apply Forall_insert; [exact Hok | by apply Hl].
Qed.

Lemma refs_kept_add p lvl s :
  (p < length (processes s))%nat → refs_kept s (add_process_to_queue p lvl s).
Proof.
  intros Hp.
  destruct (add_process_to_queue_cases p lvl s) as [-> | [_ ->]]; [reflexivity |].
  split; [cbn; by rewrite length_alter |].
  intros Hok. unfold refs_ok. cbn. rewrite length_alter.
  apply Forall_insert; [exact Hok |]. cbn.
  apply Forall_app. split; [by apply refs_ok_queue_at | by repeat constructor].
Qed.

Lemma refs_kept_foldl {A} (f : State → A → State) (P : A → nat → Prop)
    (l : list A) s :
  (∀ st x, P x (length (processes st)) → refs_kept st (f st x)) →
  Forall (λ x, P x (length (processes s))) l →
  refs_kept s (foldl f s l).
Proof.
  intros Hf. revert s. induction l as [| x l IH]; intros s Hl; cbn; [reflexivity |].
  inv Hl. pose proof (Hf s x H1) as Hstep.
  etransitivity; [exact Hstep |]. apply IH.
  destruct Hstep as [-> _]. done.
Qed.

Lemma refs_kept_check_arrivals s : refs_kept s (check_arrivals s).
Proof.
  unfold check_arrivals.
  apply (refs_kept_foldl check_arrival (λ _ _, True)); [| by apply Forall_true].
  intros st i _. unfold check_arrival.
  destruct (processes st !! i) as [p |] eqn:Hp; [| reflexivity].
  destruct (arrival_time p =? current_time st); [| reflexivity].
  etransitivity; [| apply refs_kept_add; cbn; by eapply lookup_lt_Some].
  by apply refs_kept_same.
Qed.

Lemma refs_kept_boost_level s q : refs_kept s (boost_level s q).
Proof.
  unfold boost_level.
  assert (Hfold : refs_kept s
            (foldl (λ st p, add_process_to_queue p 0 st) s (qprocs (queue_at s q)))).
  { split.
    - assert (Hlen : ∀ l st,
                length (processes (foldl (λ st p, add_process_to_queue p 0 st) st l))
                = length (processes st)).
      { induction l as [| x l IH]; intros st; cbn; [done |]. rewrite IH.
        by destruct (add_process_to_queue_cases x 0 st) as [-> | [_ ->]];
          cbn; rewrite ?length_alter. }
      apply Hlen.
    - intros Hok.
      apply (refs_kept_foldl (λ st p, add_process_to_queue p 0 st)
               (λ p n, (p < n)%nat)); [| by apply refs_ok_queue_at | done].
      intros st p Hp. by apply refs_kept_add. }
  etransitivity; [exact Hfold |].
  apply refs_kept_set_queue. intros _. constructor.
Qed.

Lemma refs_kept_priority_boost s : refs_kept s (priority_boost s).
Proof.
  unfold priority_boost.
  destruct (int_sub (current_time s) (last_boost_time s) >=? boost_interval s);
    [| reflexivity].
  transitivity (foldl boost_level (printf (EvBoost (current_time s)) s) (levels 1));
    [| by apply refs_kept_same].
  transitivity (printf (EvBoost (current_time s)) s); [by apply refs_kept_same |].
  generalize (printf (EvBoost (current_time s)) s). generalize (levels 1).
  induction l as [| q l IH]; intros st; cbn; [reflexivity |].
  etransitivity; [apply refs_kept_boost_level | apply IH].
Qed.

Lemma refs_kept_pop_highest lvls s : refs_kept s (pop_highest lvls s).2.
Proof.
  induction lvls as [| q lvls IH]; cbn; [reflexivity |].
  destruct (qprocs (queue_at s q)) as [| p tl] eqn:Hq; [done |]. cbn.
  apply refs_kept_set_queue. intros Hok.
  pose proof (refs_ok_queue_at s q Hok) as Hall. rewrite Hq in Hall. by inv Hall.
Qed.

(** The selection returns a pointer into the array. *)
Lemma selected_in_range s cur s1 :
  refs_ok s → get_next_process s = (Some cur, s1) →
  is_Some (processes s1 !! cur).
Proof.
  unfold get_next_process. intros Hok Hnext.
  destruct (refs_kept_priority_boost s) as [Hlen Hk].
  pose proof (Hk Hok) as Hok'. revert Hnext.
  generalize (levels 0). induction l as [| q l IH]; cbn; [done |].
  destruct (qprocs (queue_at (priority_boost s) q)) as [| p tl] eqn:Hq; [done |].
  intros [= <- <-]. cbn. apply lookup_lt_is_Some.
  pose proof (refs_ok_queue_at _ q Hok') as Hall. rewrite Hq in Hall. by inv Hall.
Qed.

Lemma refs_kept_dispatch cur s : refs_kept s (dispatch cur s).
Proof.
  destruct (processes s !! cur) as [p0 |] eqn:Hp;
    [| unfold dispatch; rewrite Hp; reflexivity].
  assert (Hcur : (cur < length (processes s))%nat) by by eapply lookup_lt_Some.
  rewrite (dispatch_unfold s cur p0 Hp).
  assert (Hrun : refs_kept s (after_run cur p0 s))
    by (apply refs_kept_same; [done | cbn; by rewrite length_insert]).
  etransitivity; [exact Hrun |].
  assert (Hcur' : (cur < length (processes (after_run cur p0 s)))%nat)
    by (by rewrite (proj1 Hrun)).
  generalize dependent (after_run cur p0 s). intros s3 _ Hcur3.
  unfold reschedule.
  destruct (remaining_time (ran cur p0 s) =? 0).
  { unfold complete. by apply refs_kept_same; [| cbn; rewrite !length_alter]. }
  destruct (negb (is_io_bound (ran cur p0 s) =? 0) && _).
  { unfold yield_for_io. by apply refs_kept_same; [| cbn; rewrite !length_alter]. }
  destruct (time_in_current_quantum (ran cur p0 s) >=? _).
  - unfold demote. etransitivity; [| apply refs_kept_add; cbn; by rewrite length_alter].
    by apply refs_kept_same; [| cbn; rewrite length_alter].
  - unfold requeue. etransitivity; [| by apply refs_kept_add].
    by apply refs_kept_same.
Qed.

Lemma refs_kept_loop_body s : refs_kept s (loop_body s).1.
Proof.
  unfold loop_body.
  assert (Hsel : refs_kept s (get_next_process (check_arrivals s)).2).
  { etransitivity; [apply refs_kept_check_arrivals |].
    unfold get_next_process.
    etransitivity; [apply refs_kept_priority_boost | apply refs_kept_pop_highest]. }
  destruct (get_next_process (check_arrivals s)) as [[cur |] s1]; cbn in *.
  - etransitivity; [exact Hsel | apply refs_kept_dispatch].
  - etransitivity; [exact Hsel |]. unfold idle.
    destruct (negb (find_next_arrival _ =? -1)); by apply refs_kept_same.
Qed.

Lemma refs_ok_state_after k ps g : refs_ok (state_after k ps g).
Proof.
  unfold state_after, run_mlfq_simulation.
  assert (Hstart : refs_ok (start ps g)) by (repeat constructor).
  revert Hstart. generalize (start ps g).
  induction k as [| k IH]; intros s Hs; cbn.
  - by destruct (completed s <? n_of s).
  - destruct (completed s <? n_of s); [| done].
    pose proof (refs_kept_loop_body s) as [_ Hbody].
    destruct (loop_body s) as [s' [|]]; cbn in *; [by apply IH, Hbody | by apply Hbody].
Qed.

(** X15. In a run, every dispatch is the dispatch of a process of the array:
    the [None] branches of [dispatch] are never taken. *)
Lemma dispatch_reads_a_process k ps g cur s1 :
  get_next_process (check_arrivals (state_after k ps g)) = (Some cur, s1) →
  is_Some (processes s1 !! cur).
Proof.
  apply selected_in_range.
  by apply refs_kept_check_arrivals, refs_ok_state_after.
Qed.

(** * Further properties of the run *)

(** ** Iterations *)

Lemma while_loop_running k s s' :
  while_loop k s = OutOfFuel s' → completed s' < n_of s'.
Proof.
  revert s. induction k as [| k IH]; intros s; cbn.
  - destruct (Z.ltb_spec (completed s) (n_of s)); [| done]. by intros [= <-].
  - destruct (completed s <? n_of s); [| done].
    destruct (loop_body s) as [s1 [|]]; [apply IH | done].
Qed.

Lemma while_loop_0 s :
  while_loop 0 s = if completed s <? n_of s then OutOfFuel s else Finished s.
Proof. reflexivity. Qed.

Lemma while_loop_snoc k s :
  while_loop (S k) s = next_result (while_loop k s).
Proof.
  revert s. induction k as [| k IH]; intros s.
  - rewrite while_loop_0, while_loop_unfold.
    destruct (completed s <? n_of s) eqn:Hc; [| done].
    unfold next_result. by rewrite while_loop_unfold, Hc.
  - rewrite while_loop_unfold. rewrite (while_loop_unfold k s).
    destruct (completed s <? n_of s); [| done].
    destruct (loop_body s) as [s1 [|]]; [apply IH | done].
Qed.

(** The state one iteration later, when the run is still going on. *)
Lemma state_after_next k ps g s :
  run_mlfq_simulation k ps g = OutOfFuel s →
  state_after (S k) ps g = (loop_body s).1.
Proof.
  unfold state_after, run_mlfq_simulation. intros Hrun.
  pose proof (while_loop_running _ _ _ Hrun) as Hc.
  rewrite while_loop_snoc, Hrun. unfold next_result.
  rewrite while_loop_unfold.
  destruct (Z.ltb_spec (completed s) (n_of s)); [| lia].
  destruct (loop_body s) as [s1 [|]]; [| done].
  rewrite while_loop_0. by destruct (completed s1 <? n_of s1).
Qed.

Lemma state_after_ended k ps g :
  (∀ s, run_mlfq_simulation k ps g ≠ OutOfFuel s) →
  state_after (S k) ps g = state_after k ps g.
Proof.
  unfold state_after, run_mlfq_simulation. intros Hrun.
  rewrite while_loop_snoc.
  destruct (while_loop k (start ps g)) as [s | s | s]; [done | done |].
  by destruct (Hrun s).
Qed.

(** Induction over the iterations of a run: what holds when the loop is
    entered and is kept by every iteration that the run really makes
    holds after any number of iterations. *)
Lemma run_induction (I : State → Prop) ps g (K : nat) :
  I (start ps g) →
  (∀ k s, (k < K)%nat → run_mlfq_simulation k ps g = OutOfFuel s →
          I s → I (loop_body s).1) →
  ∀ k, (k ≤ K)%nat → I (state_after k ps g).
Proof.
  intros Hstart Hstep. induction k as [| k IH]; intros Hk.
  - unfold state_after, run_mlfq_simulation. rewrite while_loop_0.
    by destruct (completed (start ps g) <? n_of (start ps g)).
  - assert (Hprev : I (state_after k ps g)) by (apply IH; lia).
    destruct (run_mlfq_simulation k ps g) as [s | s | s] eqn:Hrun.
    + rewrite state_after_ended; [done |]. by rewrite Hrun.
    + rewrite state_after_ended; [done |]. by rewrite Hrun.
    + rewrite (state_after_next k ps g s Hrun).
      apply (Hstep k s); [lia | done |].
      unfold state_after in Hprev. by rewrite Hrun in Hprev.
Qed.

(** ** Shape of the queue ladder *)

(** A dispatch leaves the queues alone or adds the dispatched process to
    one level. *)
Lemma dispatch_queues cur s :
  queues (dispatch cur s) = queues s
  ∨ ∃ lvl st, queues st = queues s
              ∧ queues (dispatch cur s) = queues (add_process_to_queue cur lvl st).
Proof.
  destruct (processes s !! cur) as [p0 |] eqn:Hp;
    [| left; unfold dispatch; by rewrite Hp].
  rewrite (dispatch_unfold s cur p0 Hp). unfold reschedule.
  destruct (remaining_time (ran cur p0 s) =? 0); [by left |].
  destruct (negb (is_io_bound (ran cur p0 s) =? 0) && _); [by left |].
  destruct (time_in_current_quantum (ran cur p0 s) >=? _); right.
  - unfold demote. eexists _, _. split; [| reflexivity]. reflexivity.
  - unfold requeue. eexists _, _. split; [| reflexivity]. reflexivity.
Qed.

Lemma ladder_ok_add p lvl s :
  ladder_ok (queues s) → ladder_ok (queues (add_process_to_queue p lvl s)).
Proof.
  intros (Hlen & Hq & Hcap).
  destruct (Z.lt_ge_cases (count (queue_at s lvl)) MAX_PROCESSES) as [Hroom | Hfull];
    [| by rewrite add_process_to_queue_full].
  split; [by rewrite length_queues_add |].
  split; [by rewrite quanta_add |].
  rewrite add_process_to_queue_room by done. cbn.
  apply Forall_insert; [done |].
  unfold count in *. cbn. rewrite length_app. cbn. lia.
Qed.

Lemma ladder_ok_set_queue q l s :
  (length l ≤ length (qprocs (queue_at s q)))%nat →
  ladder_ok (queues s) →
  ladder_ok (queues (set_queue q (set_qprocs l (queue_at s q)) s)).
Proof.
  intros Hl (Hlen & Hq & Hcap).
  split; [cbn; by rewrite length_insert |].
  split; [by rewrite quanta_set_queue |].
  cbn. apply Forall_insert; [done |].
  assert (Hcount : count (queue_at s q) ≤ MAX_PROCESSES).
  { unfold queue_at. destruct (queues s !! Z.to_nat q) as [x |] eqn:Hx; cbn.
    - by apply (Forall_lookup_1 _ _ _ _ Hcap Hx).
    - by vm_compute. }
  unfold count in *. cbn. lia.
Qed.

Lemma ladder_ok_foldl {A} (f : State → A → State) (l : list A) s :
  (∀ st x, ladder_ok (queues st) → ladder_ok (queues (f st x))) →
  ladder_ok (queues s) → ladder_ok (queues (foldl f s l)).
Proof.
  intros Hf. revert s. induction l as [| x l IH]; intros s Hs; cbn; [done |].
  by apply IH, Hf.
Qed.

Lemma ladder_ok_check_arrivals s :
  ladder_ok (queues s) → ladder_ok (queues (check_arrivals s)).
Proof.
  unfold check_arrivals. apply ladder_ok_foldl. intros st i Hst.
  unfold check_arrival. destruct (processes st !! i) as [p |]; [| done].
  destruct (arrival_time p =? current_time st); [| done].
  by apply (ladder_ok_add i 0 (printf _ st)).
Qed.

Lemma ladder_ok_boost_level s q :
  ladder_ok (queues s) → ladder_ok (queues (boost_level s q)).
Proof.
  intros Hs. unfold boost_level.
  apply ladder_ok_set_queue; [cbn; lia |].
  apply (ladder_ok_foldl (λ st p, add_process_to_queue p 0 st)); [| done].
  intros st p. apply ladder_ok_add.
Qed.

Lemma ladder_ok_get_next_process s :
  ladder_ok (queues s) → ladder_ok (queues (get_next_process s).2).
Proof.
  intros Hs. unfold get_next_process.
  assert (Hboost : ladder_ok (queues (priority_boost s))).
  { unfold priority_boost.
    destruct (int_sub (current_time s) (last_boost_time s) >=? boost_interval s);
      [| done].
    change (ladder_ok (queues (foldl boost_level
              (printf (EvBoost (current_time s)) s) (levels 1)))).
    apply ladder_ok_foldl; [| done]. intros st q. apply ladder_ok_boost_level. }
  revert Hboost. generalize (priority_boost s). intros st Hst.
  induction (levels 0) as [| q lvls IH]; cbn; [done |].
  destruct (qprocs (queue_at st q)) as [| p tl] eqn:Hq; [done |]. cbn.
  apply ladder_ok_set_queue; [rewrite Hq; cbn; lia | done].
Qed.

Lemma ladder_ok_loop_body s :
  ladder_ok (queues s) → ladder_ok (queues (loop_body s).1).
Proof.
  intros Hs. unfold loop_body.
  pose proof (ladder_ok_get_next_process _ (ladder_ok_check_arrivals s Hs)) as Hsel.
  destruct (get_next_process (check_arrivals s)) as [[cur |] s1]; cbn in *.
  - destruct (dispatch_queues cur s1) as [-> | (lvl & st & Hst & ->)]; [done |].
    apply ladder_ok_add. by rewrite Hst.
  - unfold idle. by destruct (negb (find_next_arrival _ =? -1)).
Qed.

(** X1. Whatever the processes and the globals, after any number of
    iterations the ladder has its [NUM_QUEUES] levels with the quanta 10,
    20 and 40 of [init_queues], and no level holds more than
    [MAX_PROCESSES] references: the pointer arrays are never written past
    their end. *)
Theorem ladder_within_bounds k ps g :
  length (queues (state_after k ps g)) = NUM_QUEUES
  ∧ time_quantum <$> queues (state_after k ps g) = [10; 20; 40]
  ∧ Forall (λ q, count q ≤ MAX_PROCESSES) (queues (state_after k ps g)).
Proof.
  apply (run_induction (λ s, ladder_ok (queues s)) ps g k); [| | done].
  - split; [done |]. split; [done |]. repeat constructor; by vm_compute.
  - intros j s _ _. apply ladder_ok_loop_body.
Qed.

(** ** What a run never writes *)

#[local] Instance static_kept_preorder : PreOrder static_kept.
Proof.
  split; [by intros p |].
  intros p1 p2 p3 (Hid & Hb & Hio & Ha & Hf) (Hid' & Hb' & Hio' & Ha' & Hf').
  unfold static_kept.
  split; [congruence |]. split; [congruence |]. split; [congruence |]. split.
  - intros Hcpu. transitivity (arrival_time p2); [apply Ha'; congruence | by apply Ha].
  - intros Hset. transitivity (first_run_time p2); [| by apply Hf].
    apply Hf'. by rewrite Hf.
Qed.

Lemma static_kept_ran cur p0 s : static_kept p0 (ran cur p0 s).
Proof.
  unfold static_kept, ran.
  destruct (Z.eqb_spec (first_run_time p0) (-1)); cbn; by repeat split.
Qed.

Lemma static_kept_reschedule cur p q time_slice run_time s :
  processes s !! cur = Some p →
  ∃ p', processes (reschedule cur p q time_slice run_time s) = <[cur := p']> (processes s)
        ∧ static_kept p p'.
Proof.
  intros Hp. unfold reschedule.
  destruct (Z.eqb_spec (remaining_time p) 0) as [Hrem | Hrem].
  { erewrite complete_at by (cbn; exact Hp). cbn.
    eexists. split; [reflexivity |]. by repeat split. }
  destruct (Z.eqb_spec (is_io_bound p) 0) as [Hio | Hio]; cbn [negb andb].
  - destruct (time_in_current_quantum p >=? time_slice).
    + unfold demote. step_update.
      match goal with |- context [add_process_to_queue cur ?l ?st] =>
        destruct (add_process_to_queue_cases cur l st) as [-> | [_ ->]] end; cbn.
      * eexists. split; [reflexivity |]. by repeat split.
      * rewrite (alter_at _ _ _ _ (lookup_stored _ _ _ _ Hp)), list_insert_insert_eq.
        eexists. split; [reflexivity |]. by repeat split.
    + unfold requeue.
      match goal with |- context [add_process_to_queue cur ?l ?st] =>
        destruct (add_process_to_queue_cases cur l st) as [-> | [_ ->]] end; cbn.
      * exists p. split; [by rewrite list_insert_id | reflexivity].
      * rewrite (alter_at _ _ _ _ Hp).
        eexists. split; [reflexivity |]. by repeat split.
  - destruct (run_time <? time_slice); cbn [negb andb].
    + erewrite yield_for_io_at by (cbn; exact Hp). cbn.
      eexists. split; [reflexivity |]. by repeat split.
    + destruct (time_in_current_quantum p >=? time_slice).
      * unfold demote. step_update.
        match goal with |- context [add_process_to_queue cur ?l ?st] =>
          destruct (add_process_to_queue_cases cur l st) as [-> | [_ ->]] end; cbn.
        -- eexists. split; [reflexivity |]. by repeat split.
        -- rewrite (alter_at _ _ _ _ (lookup_stored _ _ _ _ Hp)), list_insert_insert_eq.
           eexists. split; [reflexivity |]. by repeat split.
      * unfold requeue.
        match goal with |- context [add_process_to_queue cur ?l ?st] =>
          destruct (add_process_to_queue_cases cur l st) as [-> | [_ ->]] end; cbn.
        -- exists p. split; [by rewrite list_insert_id | reflexivity].
        -- rewrite (alter_at _ _ _ _ Hp).
           eexists. split; [reflexivity |]. by repeat split.
Qed.

Lemma static_kept_dispatch cur s :
  Forall2 static_kept (processes s) (processes (dispatch cur s)).
Proof.
  destruct (processes s !! cur) as [p0 |] eqn:Hp;
    [| unfold dispatch; rewrite Hp; reflexivity].
  rewrite (dispatch_unfold s cur p0 Hp).
  destruct (static_kept_reschedule cur (ran cur p0 s) (current_queue p0)
              (time_quantum (queue_at s (current_queue p0)))
              (run_time_of p0 (time_quantum (queue_at s (current_queue p0))))
              (after_run cur p0 s)) as (p' & -> & Hkept);
    [cbn; by eapply lookup_stored |].
  cbn. rewrite list_insert_insert_eq.
  apply (Forall2_stored _ _ _ p0); [done |].
  etransitivity; [apply static_kept_ran | exact Hkept].
Qed.

Lemma static_kept_loop_body s :
  Forall2 static_kept (processes s) (processes (loop_body s).1).
Proof.
  assert (Henq : ∀ p, static_kept p
            (set_time_in_current_quantum 0 (set_current_queue 0 p)))
    by (by intros p).
  assert (Hsel : Forall2 static_kept (processes s)
                   (processes (get_next_process (check_arrivals s)).2)).
  { etransitivity; [apply (frame_check_arrivals static_kept Henq) |].
    apply (frame_get_next_process static_kept Henq). }
  unfold loop_body.
  destruct (get_next_process (check_arrivals s)) as [[cur |] s1]; cbn in *.
  - etransitivity; [exact Hsel | apply static_kept_dispatch].
  - unfold idle. by destruct (negb (find_next_arrival _ =? -1)).
Qed.

(** A relation between the process tables of consecutive iterations holds
    between any iteration and any later one. *)
Lemma run_relation (R : relation Process) `{!PreOrder R} ps g :
  (∀ s, Forall2 R (processes s) (processes (loop_body s).1)) →
  ∀ j k, (j ≤ k)%nat →
    Forall2 R (processes (state_after j ps g)) (processes (state_after k ps g)).
Proof.
  intros Hstep j k Hjk. induction k as [| k IH].
  - assert (j = 0%nat) as -> by lia. reflexivity.
  - destruct (decide (j = S k)) as [-> | Hne]; [reflexivity |].
    etransitivity; [apply IH; lia |].
    destruct (run_mlfq_simulation k ps g) as [s | s | s] eqn:Hrun.
    + rewrite state_after_ended; [reflexivity |]. by rewrite Hrun.
    + rewrite state_after_ended; [reflexivity |]. by rewrite Hrun.
    + rewrite (state_after_next k ps g s Hrun).
      unfold state_after. rewrite Hrun. apply Hstep.
Qed.

Lemma state_after_0 ps g : state_after 0 ps g = start ps g.
Proof.
  unfold state_after, run_mlfq_simulation. rewrite while_loop_0.
  by destruct (completed (start ps g) <? n_of (start ps g)).
Qed.

(** X2. A run never writes the identity, the burst or the kind of a
    process, nor the arrival time of a CPU-bound process: after any number
    of iterations they are those of the input; the process array keeps
    its length; and a first-run time that has been set at some iteration
    is the same at every later one. *)
Theorem static_attributes_untouched ps g j k i pj pk :
  (j ≤ k)%nat →
  processes (state_after j ps g) !! i = Some pj →
  processes (state_after k ps g) !! i = Some pk →
  length (processes (state_after k ps g)) = length ps
  ∧ (∃ p0, ps !! i = Some p0
           ∧ id pk = id p0 ∧ burst_time pk = burst_time p0
           ∧ is_io_bound pk = is_io_bound p0
           ∧ (is_io_bound p0 = 0 → arrival_time pk = arrival_time p0))
  ∧ (first_run_time pj ≠ -1 → first_run_time pk = first_run_time pj).
Proof.
  intros Hjk Hj Hk.
  pose proof (run_relation static_kept ps g static_kept_loop_body 0 k
                ltac:(lia)) as H0k.
  pose proof (run_relation static_kept ps g static_kept_loop_body j k Hjk) as Hjk'.
  rewrite state_after_0 in H0k.
  split; [rewrite <- (Forall2_length _ _ _ H0k); cbn; by rewrite length_fmap |].
  split.
  - destruct (Forall2_lookup_r _ _ _ _ _ H0k Hk) as (q0 & Hq0 & Hkept).
    cbn in Hq0. rewrite list_lookup_fmap in Hq0.
    destruct (ps !! i) as [p0 |]; [| done]. cbn in Hq0. injection Hq0 as <-.
    exists p0. destruct Hkept as (Hid & Hb & Hio & Ha & _). cbn in *.
    by do 3 (split; [done |]).
  - pose proof (Forall2_lookup_lr _ _ _ _ _ _ Hjk' Hj Hk) as (_ & _ & _ & _ & Hf).
    exact Hf.
Qed.

(** ** The run of a dispatch, under the invariant *)

(** What [run_current] does to a process that satisfies the invariant:
    the quantum read is the one of its level, the run time is within the
    remaining time and the rest of the quantum, and nothing overflows. *)
Lemma ran_facts cur p0 s :
  queues_ok s → proc_ok p0 →
  let time_slice := time_quantum (queue_at s (current_queue p0)) in
  let run_time := run_time_of p0 time_slice in
  10 ≤ time_slice ≤ 40
  ∧ 0 ≤ run_time ≤ remaining_time p0
  ∧ time_in_current_quantum p0 + run_time ≤ time_slice
  ∧ (run_time = remaining_time p0
     ∨ is_io_bound p0 = 0 ∧ time_in_current_quantum p0 + run_time = time_slice
     ∨ is_io_bound p0 ≠ 0 ∧ run_time < time_slice)
  ∧ (0 < remaining_time p0 → 0 < run_time)
  ∧ remaining_time (ran cur p0 s) = remaining_time p0 - run_time
  ∧ time_in_current_quantum (ran cur p0 s) = time_in_current_quantum p0 + run_time
  ∧ current_queue (ran cur p0 s) = current_queue p0
  ∧ is_io_bound (ran cur p0 s) = is_io_bound p0
  ∧ arrival_time (ran cur p0 s) = arrival_time p0
  ∧ burst_time (ran cur p0 s) = burst_time p0.
Proof.
  intros Hs Hok time_slice run_time.
  pose proof Hok as (Hr0 & Hmax & Hlvl & Htiq & Hzero).
  assert (Hts : time_slice = quantum_for (current_queue p0))
    by apply (queues_ok_quantum s _ Hs Hlvl).
  destruct (quantum_for_values _ Hlvl) as [_ Hrange].
  destruct (run_time_of_bounds p0 Hok) as (Hrt & Hsum & Hend).
  rewrite <- Hts in Hrange, Hrt, Hsum, Hend. fold run_time in Hrt, Hsum, Hend.
  assert (Hpos : 0 < remaining_time p0 → 0 < run_time).
  { intros Hpos. unfold run_time.
    rewrite run_time_of_min
      by (unfold is_int, INT_MIN, INT_MAX in *; lia).
    assert (Hdiv : 2 ≤ time_slice `quot` 5).
    { rewrite Hts. destruct (level_cases _ Hlvl) as [-> | [-> | ->]]; by vm_compute. }
    destruct (is_io_bound p0 =? 0); lia. }
  do 5 (split; [done |]).
  unfold ran. fold time_slice run_time.
  split; [destruct (first_run_time p0 =? -1); cbn; apply wrap_id;
          unfold is_int, INT_MIN, INT_MAX in *; lia |].
  split; [cbn; apply wrap_id; unfold is_int, INT_MIN, INT_MAX in *; lia |].
  by destruct (first_run_time p0 =? -1).
Qed.

(** Under the invariant the outcome of a dispatch is never the fourth
    one. *)
Lemma dispatch_never_requeues cur p0 s o :
  queues_ok s → proc_ok p0 →
  chosen (ran cur p0 s) (time_quantum (queue_at s (current_queue p0)))
    (run_time_of p0 (time_quantum (queue_at s (current_queue p0)))) o →
  o ≠ Requeue.
Proof.
  intros Hs Hok Ho ->.
  destruct (ran_facts cur p0 s Hs Hok)
    as (_ & _ & _ & Hend & _ & Hrem & Htiq & _ & Hio & _).
  destruct Ho as (Hnz & Hnio & Hlt). rewrite Hrem, Htiq, ?Hio in *. lia.
Qed.

(** The dispatch of a process that satisfies the invariant, written out:
    the process completes, or yields for I/O, or has used its quantum up
    and is handed to [add_process_to_queue] for the next level. *)
Lemma dispatch_cases cur p0 s :
  processes s !! cur = Some p0 → queues_ok s → proc_ok p0 →
  let time_slice := time_quantum (queue_at s (current_queue p0)) in
  let run_time := run_time_of p0 time_slice in
  let p := ran cur p0 s in
  let now := int_add (current_time s) run_time in
  let run_line := EvRun (current_time s) (id p0) (current_queue p0)
                    (remaining_time p0) time_slice in
  (remaining_time p = 0
   ∧ dispatch cur s =
       mkState
         (<[cur := set_waiting_time
                     (int_sub (int_sub now (arrival_time p)) (burst_time p))
                     (set_turnaround_time (int_sub now (arrival_time p))
                        (set_completion_time now p))]> (processes s))
         (queues s) now (boost_interval s) (last_boost_time s)
         (int_add (completed s) 1)
         (EvComplete now (id p0) :: run_line :: trace s))
  ∨ (remaining_time p ≠ 0 ∧ is_io_bound p0 ≠ 0
     ∧ dispatch cur s =
         mkState
           (<[cur := set_arrival_time (int_add now io_time)
                       (set_time_in_current_quantum 0 p)]> (processes s))
           (queues s) now (boost_interval s) (last_boost_time s) (completed s)
           (EvYield now (id p0) (current_queue p0) :: run_line :: trace s))
  ∨ (remaining_time p ≠ 0 ∧ is_io_bound p0 = 0
     ∧ time_in_current_quantum p = time_slice
     ∧ dispatch cur s =
         add_process_to_queue cur (next_queue_of (current_queue p0))
           (mkState
              (<[cur := set_time_in_current_quantum 0 p]> (processes s))
              (queues s) now (boost_interval s) (last_boost_time s) (completed s)
              (EvDemote now (id p0) (next_queue_of (current_queue p0))
                 :: run_line :: trace s))).
Proof.
  intros Hp Hs Hok time_slice run_time p now run_line.
  destruct (ran_facts cur p0 s Hs Hok)
    as (_ & _ & _ & Hend & _ & Hrem & Htiq & _ & Hio & _).
  fold time_slice run_time p in Hend, Hrem, Htiq, Hio.
  assert (Hid : id p = id p0)
    by (unfold p, ran; by destruct (first_run_time p0 =? -1)).
  assert (Hran : processes (after_run cur p0 s) !! cur = Some p)
    by (cbn; by eapply lookup_stored).
  rewrite (dispatch_unfold s cur p0 Hp). fold time_slice run_time p.
  unfold reschedule.
  destruct (Z.eqb_spec (remaining_time p) 0) as [Hz | Hnz].
  { left. split; [done |].
    erewrite complete_at by (cbn [processes printf]; exact Hran).
    unfold printf, after_run. cbn [processes queues current_time boost_interval
      last_boost_time completed trace].
    fold time_slice run_time p now run_line.
    by rewrite list_insert_insert_eq, Hid. }
  right.
  destruct (Z.eqb_spec (is_io_bound p) 0) as [Hcpu | Hnio]; cbn [negb andb].
  - right. rewrite Hio in Hcpu.
    assert (Hfull : time_in_current_quantum p = time_slice) by lia.
    destruct (Z.geb_spec (time_in_current_quantum p) time_slice); [| lia].
    do 3 (split; [done |]).
    unfold demote.
    erewrite update_process_at by (cbn [processes printf]; exact Hran).
    unfold printf, after_run, with_processes.
    cbn [processes queues current_time boost_interval last_boost_time completed trace].
    fold time_slice run_time p now run_line.
    by rewrite list_insert_insert_eq, Hid.
  - left. rewrite Hio in Hnio.
    assert (Hlt : run_time < time_slice) by lia.
    destruct (Z.ltb_spec run_time time_slice); [| lia].
    do 2 (split; [done |]).
    erewrite yield_for_io_at by (cbn [processes printf]; exact Hran).
    unfold printf, after_run.
    cbn [processes queues current_time boost_interval last_boost_time completed trace].
    fold time_slice run_time p now run_line.
    by rewrite list_insert_insert_eq, Hid.
Qed.

(** ** I/O-bound processes and the fourth branch *)

#[local] Instance io_top_kept_preorder : PreOrder io_top_kept.
Proof.
  split; [by intros p ? |].
  intros p1 p2 p3 H12 H23 H1. by apply H23, H12.
Qed.

Lemma Forall_kept {A} (P : A → Prop) (l l' : list A) :
  Forall2 (λ x y, P x → P y) l l' → Forall P l → Forall P l'.
Proof.
  intros Hrel Hl. apply Forall_lookup_2. intros i y Hy.
  destruct (Forall2_lookup_r _ _ _ _ _ Hrel Hy) as (x & Hx & Hxy).
  apply Hxy. by apply (Forall_lookup_1 _ _ _ _ Hl Hx).
Qed.

Lemma io_top_dispatch cur s :
  queues_ok s → Forall proc_ok (processes s) → Forall io_top (processes s) →
  Forall io_top (processes (dispatch cur s)).
Proof.
  intros Hs Hok Htop.
  destruct (processes s !! cur) as [p0 |] eqn:Hp;
    [| unfold dispatch; by rewrite Hp].
  pose proof (Forall_lookup_1 _ _ _ _ Hok Hp) as Hp0.
  pose proof (Forall_lookup_1 _ _ _ _ Htop Hp) as Htop0.
  assert (Hq : current_queue (ran cur p0 s) = current_queue p0)
    by (unfold ran; by destruct (first_run_time p0 =? -1)).
  assert (Hio : is_io_bound (ran cur p0 s) = is_io_bound p0)
    by (unfold ran; by destruct (first_run_time p0 =? -1)).
  pose proof (dispatch_cases cur p0 s Hp Hs Hp0) as Hcases. cbv zeta in Hcases.
  set (p := ran cur p0 s) in *. clearbody p.
  destruct Hcases as [[_ ->] | [(_ & _ & ->) | (_ & Hcpu & _ & ->)]];
    cbn [processes].
  - apply Forall_insert; [done |]. unfold io_top in *. cbn. rewrite Hq, Hio. exact Htop0.
  - apply Forall_insert; [done |]. unfold io_top in *. cbn. rewrite Hq, Hio. exact Htop0.
  - match goal with
    | |- context [add_process_to_queue ?c ?l ?st] =>
        destruct (add_process_to_queue_cases c l st) as [-> | [_ ->]]
    end; cbn [processes].
    + apply Forall_insert; [done |]. unfold io_top in *. cbn. rewrite Hq, Hio. exact Htop0.
    + apply Forall_lookup_2. intros i y Hy.
      destruct (decide (i = cur)) as [-> | Hne].
      * rewrite list_lookup_alter_eq, (lookup_stored _ _ _ _ Hp) in Hy.
        cbn in Hy. simplify_eq. unfold io_top. cbn. intros Hy. congruence.
      * rewrite list_lookup_alter_ne, list_lookup_insert_ne in Hy by done.
        by apply (Forall_lookup_1 _ _ _ _ Htop Hy).
Qed.

Lemma table_ok_selection s :
  table_ok s → table_ok (get_next_process (check_arrivals s)).2.
Proof.
  intros (Hq & Hok & Htop).
  destruct (evolves_invariant _ _ (evolves_check_arrivals s) Hq Hok) as [Hq1 Hok1].
  destruct (evolves_invariant _ _ (evolves_get_next_process (check_arrivals s)) Hq1 Hok1)
    as [Hq2 Hok2].
  split; [done |]. split; [done |].
  assert (Henq : ∀ p, io_top_kept p
            (set_time_in_current_quantum 0 (set_current_queue 0 p)))
    by (by intros p ? ?).
  apply (Forall_kept io_top (processes s)); [| done].
  etransitivity; [apply (frame_check_arrivals io_top_kept Henq) |].
  apply (frame_get_next_process io_top_kept Henq).
Qed.

Lemma table_ok_loop_body s : table_ok s → table_ok (loop_body s).1.
Proof.
  intros Hs. pose proof (table_ok_selection s Hs) as (Hq & Hok & Htop).
  unfold loop_body.
  destruct (get_next_process (check_arrivals s)) as [[cur |] s1]; cbn in *.
  - destruct (evolves_invariant _ _ (evolves_dispatch cur s1) Hq Hok) as [Hq' Hok'].
    split; [done |]. split; [done |]. by apply io_top_dispatch.
  - unfold idle. by destruct (negb (find_next_arrival _ =? -1)).
Qed.

Lemma table_ok_start ps g :
  Forall (λ p, 0 ≤ burst_time p ≤ INT_MAX) ps → table_ok (start ps g).
Proof.
  intros Hps. destruct (start_ok ps g Hps) as [Hq Hok].
  split; [done |]. split; [done |].
  cbn. apply Forall_fmap, Forall_true. by intros p ?.
Qed.

(** X3. In a run whose bursts are non-negative [int]s an I/O-bound
    process is at level 0 at every iteration: it is never demoted. *)
Theorem io_bound_never_demoted ps g k i p :
  Forall (λ p, 0 ≤ burst_time p ≤ INT_MAX) ps →
  processes (state_after k ps g) !! i = Some p →
  is_io_bound p ≠ 0 →
  current_queue p = 0.
Proof.
  intros Hps Hp Hio.
  assert (Hk : table_ok (state_after k ps g)).
  { apply (run_induction table_ok ps g k); [by apply table_ok_start | | done].
    intros j s _ _. apply table_ok_loop_body. }
  destruct Hk as (_ & _ & Htop).
  by apply (Forall_lookup_1 _ _ _ _ Htop Hp).
Qed.

(** *** The lines printed *)

#[local] Instance extends_preorder P : PreOrder (extends P).
Proof.
  split.
  - intros s. by exists [].
  - intros s1 s2 s3 (e1 & H1 & HP1) (e2 & H2 & HP2).
    exists (e2 ++ e1). rewrite H2, H1, (assoc_L (++)).
    split; [done |]. by apply Forall_app.
Qed.

Lemma extends_same P s s' : trace s' = trace s → extends P s s'.
Proof. intros Heq. exists []. by rewrite Heq. Qed.

Lemma extends_foldl {A} P (f : State → A → State) l s :
  (∀ st x, extends P st (f st x)) → extends P s (foldl f s l).
Proof.
  intros Hf. revert s. induction l as [| x l IH]; intros s; cbn; [done |].
  etransitivity; [apply Hf | apply IH].
Qed.

Lemma trace_boost_level s q : trace (boost_level s q) = trace s.
Proof.
  unfold boost_level. cbn.
  generalize (qprocs (queue_at s q)). intros l. revert s.
  induction l as [| x l IH]; intros s; cbn; [done |].
  by rewrite IH, trace_add.
Qed.

Lemma trace_pop_highest lvls s : trace (pop_highest lvls s).2 = trace s.
Proof.
  induction lvls as [| q rest IH]; cbn; [done |].
  by destruct (qprocs (queue_at s q)).
Qed.

Lemma extends_check_arrivals s : extends not_returned s (check_arrivals s).
Proof.
  apply extends_foldl. intros st i. unfold check_arrival.
  destruct (processes st !! i) as [p |]; [| done].
  destruct (arrival_time p =? current_time st); [| done].
  eexists [_]. rewrite trace_add. cbn. split; [reflexivity |].
  by apply Forall_singleton.
Qed.

Lemma trace_priority_boost s :
  trace (priority_boost s) = trace s
  ∨ trace (priority_boost s) = EvBoost (current_time s) :: trace s.
Proof.
  unfold priority_boost.
  destruct (int_sub (current_time s) (last_boost_time s) >=? boost_interval s);
    [right | by left].
  change (trace (foldl boost_level (printf (EvBoost (current_time s)) s) (levels 1))
          = trace (printf (EvBoost (current_time s)) s)).
  generalize (printf (EvBoost (current_time s)) s) (levels 1). intros st l.
  revert st. induction l as [| q l IH]; intros st; [done |].
  cbn [foldl]. by rewrite IH, trace_boost_level.
Qed.

Lemma extends_get_next_process s :
  extends not_returned s (get_next_process s).2.
Proof.
  unfold get_next_process.
  transitivity (priority_boost s); [| apply extends_same, trace_pop_highest].
  destruct (trace_priority_boost s) as [Heq | Heq]; [by apply extends_same |].
  exists [EvBoost (current_time s)]. split; [done |]. by apply Forall_singleton.
Qed.

Lemma extends_dispatch cur s :
  table_ok s → extends not_returned s (dispatch cur s).
Proof.
  intros (Hs & Hok & _).
  destruct (processes s !! cur) as [p0 |] eqn:Hp;
    [| unfold dispatch; by rewrite Hp].
  pose proof (Forall_lookup_1 _ _ _ _ Hok Hp) as Hp0.
  pose proof (dispatch_cases cur p0 s Hp Hs Hp0) as Hcases. cbv zeta in Hcases.
  unfold extends.
  destruct Hcases as [[_ ->] | [(_ & _ & ->) | (_ & _ & _ & ->)]];
    rewrite ?trace_add; cbn [trace];
    (eexists [_; _]; split; [reflexivity |]);
    by repeat constructor.
Qed.

Lemma extends_idle s : extends not_returned s (idle s).1.
Proof.
  unfold idle. destruct (negb (find_next_arrival _ =? -1)); cbn.
  - eexists [_]. split; [reflexivity |]. by apply Forall_singleton.
  - eexists [_; _]. split; [reflexivity |]. by repeat constructor.
Qed.

Lemma extends_loop_body s :
  table_ok s → extends not_returned s (loop_body s).1.
Proof.
  intros Hs. pose proof (table_ok_selection s Hs) as Hs1.
  assert (Hsel : extends not_returned s (get_next_process (check_arrivals s)).2)
    by (etransitivity; [apply extends_check_arrivals | apply extends_get_next_process]).
  unfold loop_body.
  destruct (get_next_process (check_arrivals s)) as [[cur |] s1]; cbn in *.
  - etransitivity; [exact Hsel | by apply extends_dispatch].
  - etransitivity; [exact Hsel | apply extends_idle].
Qed.

(** X4. In a run whose bursts are non-negative [int]s the fourth branch
    of the chain that follows a dispatch ("returned to queue") is never
    taken: every line the run prints is another one. A process that has
    not completed and does not yield for I/O has always used its quantum
    up, because every dispatch starts with a fresh quantum. *)
Theorem fourth_branch_never_taken ps g k :
  Forall (λ p, 0 ≤ burst_time p ≤ INT_MAX) ps →
  ∃ evs, trace (state_after k ps g) = evs ++ trace g
         ∧ Forall not_returned evs.
Proof.
  intros Hps.
  assert (Hk : table_ok (state_after k ps g)
               ∧ extends not_returned g (state_after k ps g)).
  { apply (run_induction
             (λ s, table_ok s ∧ extends not_returned g s) ps g k); [| | done].
    - split; [by apply table_ok_start | by apply extends_same].
    - intros j s _ _ [Hs Hext]. split; [by apply table_ok_loop_body |].
      etransitivity; [exact Hext | by apply extends_loop_body]. }
  apply Hk.
Qed.

(** ** The queues and the process table together *)

Lemma join_insert_perm {A} (ls : list (list A)) k l :
  ls !! k = Some l →
  ∃ rest, mjoin ls ≡ₚ l ++ rest ∧ ∀ l', mjoin (<[k := l']> ls) ≡ₚ l' ++ rest.
Proof.
  intros Hk. exists (mjoin (take k ls) ++ mjoin (drop (S k) ls)). split.
  - rewrite <- (take_drop_middle ls k l Hk) at 1.
    rewrite join_app. cbn. apply Permutation_app_swap_app.
  - intros l'. rewrite insert_take_drop by (by eapply lookup_lt_Some).
    rewrite join_app. cbn. apply Permutation_app_swap_app.
Qed.

Lemma elem_of_join_lookup {A} (ls : list (list A)) k l x :
  ls !! k = Some l → x ∈ l → x ∈ mjoin ls.
Proof.
  intros Hk Hx. apply list_elem_of_join. exists l. split; [done |].
  by eapply list_elem_of_lookup_2.
Qed.

Lemma entry_ok_mono t t' ps lvl i :
  t ≤ t' → entry_ok t ps lvl i → entry_ok t' ps lvl i.
Proof.
  intros Ht (p & Hp & Hrem & Hq & Htiq & Harr).
  exists p. do 4 (split; [done |]). lia.
Qed.

Lemma entries_ok_mono t t' ps ls :
  t ≤ t' → entries_ok t ps ls → entries_ok t' ps ls.
Proof.
  intros Ht [Hnd Hall]. split; [done |].
  intros lvl l i Hl Hi. eapply entry_ok_mono; [done |]. by eapply Hall.
Qed.

Lemma entries_ok_empty t ps ls :
  Forall (λ l, l = []) ls → entries_ok t ps ls.
Proof.
  intros Hempty. split.
  - rewrite (join_nil_2 _ Hempty). constructor.
  - intros lvl l i Hl Hi.
    rewrite (Forall_lookup_1 _ _ _ _ Hempty Hl) in Hi. by apply elem_of_nil in Hi.
Qed.

(** Taking the head of a level. *)
Lemma entries_ok_pop t ps ls k i tl :
  ls !! k = Some (i :: tl) → entries_ok t ps ls →
  entries_ok t ps (<[k := tl]> ls)
  ∧ (i ∉ mjoin (<[k := tl]> ls))
  ∧ entry_ok t ps k i.
Proof.
  intros Hk [Hnd Hall].
  destruct (join_insert_perm ls k _ Hk) as (rest & Hperm & Hins).
  rewrite Hperm in Hnd. cbn in Hnd. apply NoDup_cons in Hnd as [Hi Hnd].
  split; [split |].
  - by rewrite (Hins tl).
  - intros lvl l j Hl Hj. destruct (decide (lvl = k)) as [-> | Hne].
    + rewrite list_lookup_insert_eq in Hl by (by eapply lookup_lt_Some).
      simplify_eq. apply (Hall k (i :: l)); [done | by right].
    + rewrite list_lookup_insert_ne in Hl by done. by eapply Hall.
  - split; [by rewrite (Hins tl) |].
    apply (Hall k (i :: tl)); [done | by left].
Qed.

(** A write to a process that no level holds. *)
Lemma entries_ok_other t ps ls i x :
  i ∉ mjoin ls → entries_ok t ps ls → entries_ok t (<[i := x]> ps) ls.
Proof.
  intros Hi [Hnd Hall]. split; [done |].
  intros lvl l j Hl Hj.
  destruct (Hall lvl l j Hl Hj) as (p & Hp & Hrest).
  exists p. split; [| done].
  rewrite list_lookup_insert_ne; [done |].
  intros <-. apply Hi. by eapply elem_of_join_lookup.
Qed.

(** Appending at the tail of a level a process that no level holds. *)
Lemma entries_ok_push t ps ls k l i p :
  ls !! k = Some l → entries_ok t ps ls → i ∉ mjoin ls →
  ps !! i = Some p → 0 < remaining_time p → arrival_time p < t →
  entries_ok t (alter (enqueue_mark (Z.of_nat k)) i ps) (<[k := l ++ [i]]> ls).
Proof.
  intros Hk [Hnd Hall] Hi Hp Hrem Harr.
  destruct (join_insert_perm ls k _ Hk) as (rest & Hperm & Hins).
  rewrite Hperm in Hnd, Hi. split.
  - rewrite (Hins (l ++ [i])), <- (assoc_L (++)). cbn.
    rewrite <- Permutation_middle. by apply NoDup_cons.
  - intros lvl l' j Hl' Hj.
    destruct (decide (j = i)) as [-> | Hne].
    + assert (lvl = k) as ->.
      { destruct (decide (lvl = k)) as [| Hlvl]; [done |].
        rewrite list_lookup_insert_ne in Hl' by done.
        exfalso. apply Hi. rewrite <- Hperm. by eapply elem_of_join_lookup. }
      exists (enqueue_mark (Z.of_nat k) p).
      by rewrite list_lookup_alter_eq, Hp.
    + assert (Hold : ∃ l0, ls !! lvl = Some l0 ∧ j ∈ l0).
      { destruct (decide (lvl = k)) as [-> | Hlvl].
        - rewrite list_lookup_insert_eq in Hl' by (by eapply lookup_lt_Some).
          simplify_eq. exists l. split; [done |].
          apply elem_of_app in Hj as [Hj | Hj]; [done |].
          by apply list_elem_of_singleton in Hj.
        - rewrite list_lookup_insert_ne in Hl' by done. by exists l'. }
      destruct Hold as (l0 & Hl0 & Hj0).
      destruct (Hall lvl l0 j Hl0 Hj0) as (pj & Hpj & Hrest).
      exists pj. split; [| done]. by rewrite list_lookup_alter_ne.
Qed.

(** *** The entries of the levels, operation by operation *)

Lemma queued_set_queue q l s :
  queued (set_queue q (set_qprocs l (queue_at s q)) s) = <[Z.to_nat q := l]> (queued s).
Proof. unfold queued, set_queue. cbn. by rewrite list_fmap_insert. Qed.

Lemma queued_lookup s q :
  (Z.to_nat q < length (queues s))%nat →
  queued s !! Z.to_nat q = Some (qprocs (queue_at s q)).
Proof.
  intros Hq. unfold queued, queue_at. rewrite list_lookup_fmap.
  destruct (lookup_lt_is_Some_2 _ _ Hq) as [x ->]. done.
Qed.

Lemma add_queued p lvl s :
  add_process_to_queue p lvl s = s
  ∨ (queued (add_process_to_queue p lvl s)
       = <[Z.to_nat lvl := qprocs (queue_at s lvl) ++ [p]]> (queued s)
     ∧ processes (add_process_to_queue p lvl s)
       = alter (enqueue_mark lvl) p (processes s)).
Proof.
  destruct (add_process_to_queue_cases p lvl s) as [-> | [_ ->]]; [by left |].
  right. unfold queued. cbn. by rewrite list_fmap_insert.
Qed.

Lemma current_time_foldl_add l s :
  current_time (foldl (λ st p, add_process_to_queue p 0 st) s l) = current_time s.
Proof.
  apply (current_time_foldl (λ st p, add_process_to_queue p 0 st)).
  intros st p. apply current_time_add.
Qed.

(** An [add_process_to_queue] of a process that no level holds. *)
Lemma entries_ok_add t i lvl p s :
  0 ≤ lvl → (Z.to_nat lvl < length (queues s))%nat →
  entries_ok t (processes s) (queued s) → i ∉ mjoin (queued s) →
  processes s !! i = Some p → 0 < remaining_time p → arrival_time p < t →
  entries_ok t (processes (add_process_to_queue i lvl s))
    (queued (add_process_to_queue i lvl s)).
Proof.
  intros Hlvl Hlen Hok Hi Hp Hrem Harr.
  destruct (add_queued i lvl s) as [-> | [-> ->]]; [done |].
  rewrite <- (Z2Nat.id lvl Hlvl) at 1.
  by apply (entries_ok_push t _ _ _ _ i p (queued_lookup s lvl Hlen)).
Qed.

(** The boost of one level, entry by entry: the entries still to be moved
    are read as the content of the level. *)
Lemma entries_ok_boost_fold t k l s :
  (0 < k < length (queues s))%nat →
  entries_ok t (processes s) (<[k := l]> (queued s)) →
  entries_ok t (processes (foldl (λ st p, add_process_to_queue p 0 st) s l))
    (<[k := []]> (queued (foldl (λ st p, add_process_to_queue p 0 st) s l))).
Proof.
  revert s. induction l as [| j rest IH]; intros s Hk Hok; [done |].
  cbn [foldl]. apply IH; [by rewrite length_queues_add |].
  assert (Hlen : (k < length (queued s))%nat)
    by (unfold queued; rewrite length_fmap; lia).
  destruct (entries_ok_pop t (processes s) (<[k := j :: rest]> (queued s)) k j rest)
    as (Hpop & Hj & (p & Hp & Hrem & _ & _ & Harr));
    [by apply list_lookup_insert_eq | done |].
  rewrite list_insert_insert_eq in Hpop, Hj.
  destruct (add_queued j 0 s) as [-> | [-> ->]]; [done |].
  rewrite list_insert_insert_ne by lia.
  apply (entries_ok_push t _ _ 0%nat _ j p); try done.
  rewrite list_lookup_insert_ne by lia.
  apply (queued_lookup s 0). change (Z.to_nat 0) with 0%nat. lia.
Qed.

Lemma entries_ok_boost_level t s q :
  (0 < Z.to_nat q < length (queues s))%nat →
  entries_ok t (processes s) (queued s) →
  entries_ok t (processes (boost_level s q)) (queued (boost_level s q)).
Proof.
  intros Hq Hok. unfold boost_level. cbv zeta. rewrite queued_set_queue.
  apply entries_ok_boost_fold; [done |].
  rewrite list_insert_id; [done |]. apply queued_lookup. lia.
Qed.

Lemma length_queues_boost_level s q :
  length (queues (boost_level s q)) = length (queues s).
Proof.
  unfold boost_level. cbn. rewrite length_insert.
  generalize (qprocs (queue_at s q)). intros l. revert s.
  induction l as [| x l IH]; intros s; cbn; [done |].
  by rewrite IH, length_queues_add.
Qed.

Lemma entries_ok_priority_boost t s :
  length (queues s) = NUM_QUEUES →
  entries_ok t (processes s) (queued s) →
  entries_ok t (processes (priority_boost s)) (queued (priority_boost s)).
Proof.
  intros Hlen Hok. unfold priority_boost.
  destruct (int_sub (current_time s) (last_boost_time s) >=? boost_interval s);
    [| done].
  change (entries_ok t
            (processes (boost_level (boost_level (printf (EvBoost (current_time s)) s) 1) 2))
            (queued (boost_level (boost_level (printf (EvBoost (current_time s)) s) 1) 2))).
  apply entries_ok_boost_level;
    [rewrite length_queues_boost_level; cbn; rewrite Hlen; unfold NUM_QUEUES; lia |].
  apply entries_ok_boost_level; [cbn; rewrite Hlen; unfold NUM_QUEUES; lia |].
  done.
Qed.

(** *** Admission and selection *)

Lemma foldl_seq_invariant {S} (J : nat → S → Prop) (f : S → nat → S) n s :
  J 0%nat s →
  (∀ i st, (i < n)%nat → J i st → J (Datatypes.S i) (f st i)) →
  J n (foldl f s (seq 0 n)).
Proof.
  intros Hs Hf.
  assert (Hgen : ∀ len start st, (start + len = n)%nat → J start st →
                 J n (foldl f st (seq start len))).
  { induction len as [| len IH]; intros start st Hn Hst; cbn.
    - by replace n with start by lia.
    - apply IH; [lia |]. apply Hf; [lia | done]. }
  by apply (Hgen n 0%nat s).
Qed.

Lemma completed_add p lvl s :
  completed (add_process_to_queue p lvl s) = completed s.
Proof. by destruct (add_process_to_queue_cases p lvl s) as [-> | [_ ->]]. Qed.

Lemma completed_foldl {A} (f : State → A → State) (l : list A) s :
  (∀ st x, completed (f st x) = completed st) →
  completed (foldl f s l) = completed s.
Proof.
  intros Hf. revert s. induction l as [| x l IH]; intros s; cbn; [done |].
  by rewrite IH, Hf.
Qed.

Lemma completed_check_arrivals s : completed (check_arrivals s) = completed s.
Proof.
  unfold check_arrivals. apply completed_foldl. intros st i.
  unfold check_arrival. destruct (processes st !! i) as [p |]; [| done].
  destruct (arrival_time p =? current_time st); [| done].
  by rewrite completed_add.
Qed.

Lemma completed_get_next_process s :
  completed (get_next_process s).2 = completed s.
Proof.
  unfold get_next_process.
  assert (Hpop : ∀ lvls st, completed (pop_highest lvls st).2 = completed st).
  { induction lvls as [| q lvls IH]; intros st; cbn; [done |].
    by destruct (qprocs (queue_at st q)). }
  rewrite Hpop. unfold priority_boost.
  destruct (int_sub (current_time s) (last_boost_time s) >=? boost_interval s);
    [| done].
  change (completed (foldl boost_level (printf (EvBoost (current_time s)) s)
                       (levels 1)) = completed s).
  rewrite completed_foldl; [done |]. intros st q. unfold boost_level.
  apply (completed_foldl (λ st' p, add_process_to_queue p 0 st')).
  intros st' p. apply completed_add.
Qed.

Lemma same_times_enqueue p :
  same_times p (set_time_in_current_quantum 0 (set_current_queue 0 p)).
Proof. done. Qed.

Lemma same_times_selection s :
  Forall2 same_times (processes s)
    (processes (get_next_process (check_arrivals s)).2).
Proof.
  etransitivity; [apply (frame_check_arrivals same_times same_times_enqueue) |].
  apply (frame_get_next_process same_times same_times_enqueue).
Qed.

Lemma finished_count_same_times ps ps' :
  Forall2 same_times ps ps' → finished_count ps' = finished_count ps.
Proof.
  unfold finished_count. induction 1 as [| p p' ps ps' [Hrem _] _ IH]; [done |].
  rewrite !filter_cons, Hrem.
  destruct (decide (remaining_time p = 0)); cbn; by rewrite IH.
Qed.

Lemma done_before_same_times t ps ps' :
  Forall2 same_times ps ps' → Forall (done_before t) ps → Forall (done_before t) ps'.
Proof.
  intros Hrel. apply Forall_kept.
  eapply Forall2_impl; [exact Hrel |].
  intros p p' [Hrem Harr] Hp. unfold done_before in *. by rewrite Hrem, Harr.
Qed.

(** A level has room for a reference that no level holds, when the
    process array is no longer than a level. *)
Lemma room_for_one t ps ls i k l :
  entries_ok t ps ls → i ∉ mjoin ls → (i < length ps)%nat →
  Z.of_nat (length ps) ≤ MAX_PROCESSES →
  ls !! k = Some l → Z.of_nat (length l) < MAX_PROCESSES.
Proof.
  intros [Hnd Hall] Hi Hlt Hn Hk.
  destruct (join_insert_perm ls k l Hk) as (rest & Hperm & _).
  assert (Hlen : (length (i :: mjoin ls) ≤ length (seq 0 (length ps)))%nat).
  { apply submseteq_length, NoDup_submseteq; [by apply NoDup_cons |].
    intros j Hj. apply elem_of_seq.
    apply elem_of_cons in Hj as [-> | Hj]; [lia |].
    apply list_elem_of_join in Hj as (l' & Hj & Hl').
    apply list_elem_of_lookup in Hl' as [lvl Hl'].
    destruct (Hall lvl l' j Hl' Hj) as (p & Hp & _).
    apply lookup_lt_Some in Hp. lia. }
  rewrite length_seq in Hlen. cbn in Hlen.
  rewrite Hperm, length_app in Hlen. lia.
Qed.

Lemma arrivals_inv_step now i st :
  arrivals_inv now i st → arrivals_inv now (S i) (check_arrival st i).
Proof.
  intros (Hnow & Hq & Hst & Hold & Hdn & Hadm).
  assert (Hkeep : ¬ (∃ p, processes st !! i = Some p ∧ arrival_time p = now) →
                  arrivals_inv now (S i) st).
  { intros Hnot. split; [done |]. split; [done |]. split; [done |].
    split; [| split; [done |]].
    - intros j Hj. destruct (Hold j Hj) as [? | ?]; [left; lia | by right].
    - intros Hn j p Hj Hp Harr.
      destruct (decide (j = i)) as [-> | Hne]; [destruct Hnot; by exists p |].
      apply (Hadm Hn j p); [lia | done..]. }
  unfold check_arrival.
  destruct (processes st !! i) as [p |] eqn:Hp;
    [| apply Hkeep; by intros (? & ? & _)].
  destruct (Z.eqb_spec (arrival_time p) (current_time st)) as [Harr | Harr];
    [| apply Hkeep; intros (? & ? & ?); simplify_eq; congruence].
  rewrite Hnow in Harr.
  set (e := EvArrive (current_time st) (id p) (burst_time p) (is_io_bound p)).
  assert (Hrem : 0 < remaining_time p).
  { pose proof (Forall_lookup_1 _ _ _ _ Hdn Hp) as Hd. unfold done_before in Hd. lia. }
  assert (Hi : i ∉ mjoin (queued st)).
  { intros Hi. destruct (Hold i Hi) as [? | (p' & Hp' & ?)]; [lia |].
    simplify_eq. lia. }
  assert (Hentries : entries_ok (now + 1)
            (processes (add_process_to_queue i 0 (printf e st)))
            (queued (add_process_to_queue i 0 (printf e st)))).
  { apply (entries_ok_add (now + 1) i 0 p (printf e st)); try done. lia. }
  assert (Hroom : Z.of_nat (length (processes st)) ≤ MAX_PROCESSES →
            count (queue_at (printf e st) 0) < MAX_PROCESSES).
  { intros Hn. unfold count.
    apply (room_for_one (now + 1) (processes st) (queued st) i 0
             (qprocs (queue_at st 0))); try done.
    - by eapply lookup_lt_Some.
    - by apply (queued_lookup st 0). }
  split; [by rewrite current_time_add |].
  split; [by rewrite length_queues_add |].
  split; [done |].
  destruct (add_queued i 0 (printf e st)) as [Heq | [Hqueued Hprocs]].
  { rewrite Heq. change (queued (printf e st)) with (queued st).
    change (processes (printf e st)) with (processes st).
    split; [| split; [done |]].
    - intros j Hj. destruct (Hold j Hj) as [? | ?]; [left; lia | by right].
    - intros Hn. specialize (Hroom Hn).
      rewrite add_process_to_queue_room in Heq by done.
      exfalso. assert (Hlen : length (queues (printf e st))
                              = length (queues (printf e st))) by done.
      rewrite <- Heq in Hlen at 1. cbn in Hlen.
      assert (Hq0 : qprocs (queue_at (printf e st) 0)
                    = qprocs (queue_at (printf e st) 0) ++ [i]).
      { rewrite <- Heq at 1. unfold queue_at. cbn.
        by rewrite list_lookup_insert_eq. }
      apply (f_equal length) in Hq0. rewrite length_app in Hq0. cbn in Hq0. lia. }
  rewrite Hqueued, Hprocs.
  change (queued (printf e st)) with (queued st).
  change (processes (printf e st)) with (processes st).
  change (queue_at (printf e st) 0) with (queue_at st 0).
  split; [| split].
  - intros j.
    destruct (join_insert_perm (queued st) 0 _ (queued_lookup st 0 Hq))
      as (rest & Hperm & Hins).
    change (Z.to_nat 0) with 0%nat. rewrite (Hins _).
    intros Hj. destruct (decide (j = i)) as [-> | Hne]; [left; lia |].
    assert (Hj' : j ∈ mjoin (queued st)).
    { rewrite Hperm. rewrite !elem_of_app in Hj. rewrite elem_of_app.
      destruct Hj as [[Hj | Hj] | Hj]; [by left | | by right].
      by apply list_elem_of_singleton in Hj. }
    destruct (Hold j Hj') as [? | (pj & Hpj & ?)]; [left; lia |].
    right. exists pj. by rewrite list_lookup_alter_ne.
  - apply Forall_alter; [done |]. by intros x _ Hx.
  - rewrite length_alter. intros Hn j pj Hj Hpj Harrj.
    assert (Hlevel : qprocs (queue_at (add_process_to_queue i 0 (printf e st)) 0)
                     = qprocs (queue_at st 0) ++ [i])
      by (apply (queue_at_add_eq i 0 (printf e st)); [done | by apply Hroom]).
    rewrite Hlevel. apply elem_of_app.
    destruct (decide (j = i)) as [-> | Hne];
      [right; by apply list_elem_of_singleton |].
    left. rewrite list_lookup_alter_ne in Hpj by done.
    apply (Hadm Hn j pj); [lia | done..].
Qed.

Lemma arrivals_inv_check_arrivals s :
  (0 < length (queues s))%nat →
  entries_ok (current_time s) (processes s) (queued s) →
  Forall (done_before (current_time s)) (processes s) →
  arrivals_inv (current_time s) (length (processes s)) (check_arrivals s).
Proof.
  intros Hlen Hok Hdone. unfold check_arrivals.
  apply (foldl_seq_invariant (arrivals_inv (current_time s))).
  - split; [done |]. split; [done |].
    split; [apply (entries_ok_mono (current_time s)); [lia | done] |].
    split; [| split; [done |]].
    + intros j Hj. right. apply list_elem_of_join in Hj as (l & Hj & Hl).
      apply list_elem_of_lookup in Hl as [lvl Hl].
      destruct Hok as [_ Hall].
      destruct (Hall lvl l j Hl Hj) as (p & Hp & _ & _ & _ & Harr). by exists p.
    + intros _ j p Hj. lia.
  - intros i st _. apply arrivals_inv_step.
Qed.

(** The arrival loop at index [i]: what it has enqueued so far are
    processes below [i]; every other entry arrived earlier. *)
Lemma entries_ok_check_arrivals s :
  (0 < length (queues s))%nat →
  entries_ok (current_time s) (processes s) (queued s) →
  Forall (done_before (current_time s)) (processes s) →
  entries_ok (current_time s + 1) (processes (check_arrivals s))
    (queued (check_arrivals s)).
Proof.
  intros Hlen Hok Hdone.
  by destruct (arrivals_inv_check_arrivals s Hlen Hok Hdone) as (_ & _ & ? & _).
Qed.

(** [pop_highest]: the head of the first level that is not empty. *)
Lemma pop_highest_spec lvls s :
  match pop_highest lvls s with
  | (None, s') => s' = s ∧ Forall (λ q, qprocs (queue_at s q) = []) lvls
  | (Some cur, s') =>
      ∃ q tl, q ∈ lvls ∧ qprocs (queue_at s q) = cur :: tl
              ∧ s' = set_queue q (set_qprocs tl (queue_at s q)) s
  end.
Proof.
  induction lvls as [| q lvls IH]; cbn; [done |].
  destruct (qprocs (queue_at s q)) as [| p tl] eqn:Hq.
  - destruct (pop_highest lvls s) as [[cur |] s'].
    + destruct IH as (q' & tl & Hq' & Hhead & ->).
      exists q', tl. split; [by right | done].
    + destruct IH as [-> Hall]. split; [done |]. by constructor.
  - exists q, tl. split; [by left | done].
Qed.

(** The selection of an iteration, from the arrival loop to the pointer
    that [get_next_process] returns. *)
Lemma selection_spec s r s1 :
  ladder_ok (queues s) → sched_ok (current_time s) s →
  get_next_process (check_arrivals s) = (r, s1) →
  current_time s1 = current_time s
  ∧ completed s1 = Z.of_nat (finished_count (processes s1))
  ∧ Forall (done_before (current_time s)) (processes s1)
  ∧ entries_ok (current_time s + 1) (processes s1) (queued s1)
  ∧ match r with
    | None => Forall (λ l, l = []) (queued s1)
    | Some cur =>
        (cur ∉ mjoin (queued s1))
        ∧ ∃ lvl, entry_ok (current_time s + 1) (processes s1) lvl cur
    end.
Proof.
  intros Hlad (Hok & Hdone & Hcount) Hsel.
  pose proof (same_times_selection s) as Hsame.
  pose proof (current_time_get_next_process (check_arrivals s)) as Hnow.
  pose proof (completed_get_next_process (check_arrivals s)) as Hcompl.
  rewrite Hsel in Hsame, Hnow, Hcompl. cbn in Hsame, Hnow, Hcompl.
  rewrite current_time_check_arrivals in Hnow.
  rewrite completed_check_arrivals in Hcompl.
  split; [done |].
  split; [by rewrite Hcompl, Hcount, (finished_count_same_times _ _ Hsame) |].
  split; [by apply (done_before_same_times _ _ _ Hsame) |].
  pose proof Hlad as (Hlen & _).
  pose proof (ladder_ok_check_arrivals s Hlad) as (Hlen1 & _).
  assert (Hboost : entries_ok (current_time s + 1)
                     (processes (priority_boost (check_arrivals s)))
                     (queued (priority_boost (check_arrivals s)))).
  { apply entries_ok_priority_boost; [done |].
    apply entries_ok_check_arrivals; [rewrite Hlen; unfold NUM_QUEUES; lia | done..]. }
  assert (Hlen2 : length (queues (priority_boost (check_arrivals s))) = NUM_QUEUES).
  { unfold priority_boost.
    destruct (int_sub _ _ >=? _); [| done].
    change (length (queues (boost_level (boost_level
              (printf (EvBoost (current_time (check_arrivals s))) (check_arrivals s)) 1) 2))
            = NUM_QUEUES).
    by rewrite !length_queues_boost_level. }
  unfold get_next_process in Hsel.
  revert Hboost Hlen2 Hsel. generalize (priority_boost (check_arrivals s)).
  intros st Hst Hlen2 Hsel.
  pose proof (pop_highest_spec (levels 0) st) as Hpop. rewrite Hsel in Hpop.
  destruct r as [cur |].
  - destruct Hpop as (q & tl & Hq & Hhead & ->).
    assert (Hrange : 0 ≤ q ∧ (Z.to_nat q < length (queues st))%nat).
    { rewrite Hlen2. change (levels 0) with [0; 1; 2] in Hq.
      unfold NUM_QUEUES. rewrite !elem_of_cons, elem_of_nil in Hq.
      destruct Hq as [-> | [-> | [-> | []]]]; split; lia. }
    destruct Hrange as [Hq0 Hqlen].
    rewrite queued_set_queue. cbn [processes set_queue with_queues].
    destruct (entries_ok_pop _ _ _ (Z.to_nat q) cur tl
                ltac:(rewrite queued_lookup, Hhead; done) Hst)
      as (Hpop & Hcur & Hentry).
    split; [done |]. split; [done |]. by exists (Z.to_nat q).
  - destruct Hpop as [-> Hempty]. split; [done |].
    apply Forall_lookup_2. intros k l Hl.
    assert (Hk : (k < 3)%nat).
    { apply lookup_lt_Some in Hl. unfold queued in Hl.
      rewrite length_fmap, Hlen2 in Hl. exact Hl. }
    change (levels 0) with [0; 1; 2] in Hempty.
    pose proof (queued_lookup st (Z.of_nat k)) as Hat.
    rewrite Nat2Z.id, Hl, Hlen2 in Hat. specialize (Hat Hk). simplify_eq.
    apply Forall_cons in Hempty as [H0 Hempty].
    apply Forall_cons in Hempty as [H1 Hempty].
    apply Forall_cons in Hempty as [H2 _].
    destruct k as [| [| [| k]]]; [done.. | unfold NUM_QUEUES in Hk; lia].
Qed.

(** *** The dispatch *)

Lemma finished_count_insert_same ps i x y :
  ps !! i = Some x → (remaining_time y = 0 ↔ remaining_time x = 0) →
  finished_count (<[i := y]> ps) = finished_count ps.
Proof.
  unfold finished_count. revert i.
  induction ps as [| p ps IH]; intros [| i] Hi Hxy; simplify_eq/=.
  - rewrite !filter_cons.
    destruct (decide (remaining_time y = 0)), (decide (remaining_time x = 0));
      tauto.
  - rewrite !filter_cons.
    destruct (decide (remaining_time p = 0)); cbn; by rewrite (IH i).
Qed.

Lemma finished_count_insert_done ps i x y :
  ps !! i = Some x → remaining_time x ≠ 0 → remaining_time y = 0 →
  finished_count (<[i := y]> ps) = S (finished_count ps).
Proof.
  unfold finished_count. revert i.
  induction ps as [| p ps IH]; intros [| i] Hi Hx Hy; simplify_eq/=.
  - rewrite !filter_cons.
    destruct (decide (remaining_time y = 0)), (decide (remaining_time x = 0));
      done.
  - rewrite !filter_cons.
    destruct (decide (remaining_time p = 0)); cbn; by rewrite (IH i).
Qed.

Lemma same_times_alter_mark lvl i ps :
  Forall2 same_times ps (alter (enqueue_mark lvl) i ps).
Proof.
  apply Forall2_alter_r; [reflexivity |].
  intros x y _ _ [Hrem Harr]. by split.
Qed.

Lemma next_queue_of_level q :
  level_ok q →
  0 ≤ next_queue_of q ∧ (Z.to_nat (next_queue_of q) < NUM_QUEUES)%nat.
Proof.
  intros Hq. destruct (level_cases q Hq) as [-> | [-> | ->]];
    (split; [by vm_compute | vm_compute; lia]).
Qed.

(** The dispatch of the process that the selection returned. *)
Lemma sched_ok_dispatch cur lvl s :
  table_ok s → ladder_ok (queues s) →
  entries_ok (current_time s + 1) (processes s) (queued s) →
  cur ∉ mjoin (queued s) →
  entry_ok (current_time s + 1) (processes s) lvl cur →
  Forall (done_before (current_time s + 1)) (processes s) →
  completed s = Z.of_nat (finished_count (processes s)) →
  INT_MIN ≤ current_time s ≤ INT_MAX - 40 →
  Z.of_nat (length (processes s)) ≤ INT_MAX →
  current_time s < current_time (dispatch cur s)
  ∧ sched_ok (current_time (dispatch cur s)) (dispatch cur s).
Proof.
  intros (Hqs & Hprocs & _) (Hlen & _ & _) Hentries Hcur
    (p0 & Hp & Hrem0 & _ & _ & Harr0) Hdone Hcount Hclock Hn.
  pose proof (Forall_lookup_1 _ _ _ _ Hprocs Hp) as Hp0.
  pose proof (ran_facts cur p0 s Hqs Hp0) as Hran. cbv zeta in Hran.
  destruct Hran as (Hts & Hrt & Hsum & _ & Hpos & Hrem & _ & _ & _ & Harr & _).
  specialize (Hpos Hrem0).
  pose proof (dispatch_cases cur p0 s Hp Hqs Hp0) as Hcases. cbv zeta in Hcases.
  destruct Hp0 as (_ & _ & Hlvl & Htiq0 & _).
  set (run_time := run_time_of p0 (time_quantum (queue_at s (current_queue p0)))) in *.
  set (p := ran cur p0 s) in *. clearbody p.
  assert (Hnow : int_add (current_time s) run_time = current_time s + run_time)
    by (apply wrap_id; unfold is_int, INT_MIN, INT_MAX in *; lia).
  rewrite Hnow in Hcases.
  set (now := current_time s + run_time) in *.
  assert (Hlater : current_time s + 1 ≤ now) by (unfold now; lia).
  assert (Hfc : (finished_count (processes s) ≤ length (processes s))%nat)
    by apply length_filter.
  destruct Hcases as [[Hz ->] | [(Hnz & _ & ->) | (Hnz & _ & _ & ->)]].
  - cbn [current_time]. split; [lia |].
    split; [| split]; cbn [processes completed].
    + apply (entries_ok_mono (current_time s + 1)); [done |].
      by apply entries_ok_other.
    + apply Forall_insert.
      * eapply Forall_impl; [exact Hdone |]. intros x Hx Hxr. specialize (Hx Hxr). lia.
      * intros _. cbn. lia.
    + erewrite finished_count_insert_done; [| exact Hp | lia | done].
      pose proof (length_filter (λ p, remaining_time p = 0)
                    (<[cur := set_waiting_time
                        (int_sub (int_sub now (arrival_time p)) (burst_time p))
                        (set_turnaround_time (int_sub now (arrival_time p))
                           (set_completion_time now p))]> (processes s))) as Hle.
      fold (finished_count (<[cur := set_waiting_time
                        (int_sub (int_sub now (arrival_time p)) (burst_time p))
                        (set_turnaround_time (int_sub now (arrival_time p))
                           (set_completion_time now p))]> (processes s))) in Hle.
      erewrite finished_count_insert_done in Hle; [| exact Hp | lia | done].
      rewrite length_insert in Hle. rewrite Hcount.
      unfold int_add. rewrite wrap_id; [lia |].
      unfold is_int, INT_MIN, INT_MAX in *. lia.
  - cbn [current_time]. split; [lia |].
    split; [| split]; cbn [processes completed].
    + apply (entries_ok_mono (current_time s + 1)); [done |].
      by apply entries_ok_other.
    + apply Forall_insert.
      * eapply Forall_impl; [exact Hdone |]. intros x Hx Hxr. specialize (Hx Hxr). lia.
      * intros Hle. cbn in Hle. lia.
    + rewrite Hcount. f_equal. symmetry.
      eapply finished_count_insert_same; [exact Hp |]. cbn. lia.
  - rewrite current_time_add. cbn [current_time]. split; [lia |].
    match goal with
    | |- context [add_process_to_queue cur ?l ?st] => set (st0 := st)
    end.
    destruct (next_queue_of_level _ Hlvl) as [Hnq Hnq_len].
    assert (Hst0 : processes st0 !! cur = Some (set_time_in_current_quantum 0 p))
      by (cbn; by eapply lookup_stored).
    split; [| split].
    + apply (entries_ok_mono (current_time s + 1)); [done |].
      apply (entries_ok_add _ cur _ (set_time_in_current_quantum 0 p) st0);
        try done.
      * cbn. by rewrite Hlen.
      * cbn [processes st0]. by apply entries_ok_other.
      * cbn. lia.
      * cbn. lia.
    + assert (Hst0d : Forall (done_before now) (processes st0)).
      { cbn. apply Forall_insert.
        - eapply Forall_impl; [exact Hdone |].
          intros x Hx Hxr. specialize (Hx Hxr). lia.
        - intros Hle. cbn in Hle. lia. }
      destruct (add_queued cur (next_queue_of (current_queue p0)) st0)
        as [-> | [_ ->]]; [done |].
      apply Forall_alter; [done |]. by intros x _ Hx.
    + rewrite completed_add. cbn [completed st0]. rewrite Hcount. f_equal.
      transitivity (finished_count (processes st0)).
      * symmetry. cbn. eapply finished_count_insert_same; [exact Hp |]. cbn. lia.
      * destruct (add_queued cur (next_queue_of (current_queue p0)) st0)
          as [-> | [_ ->]]; [done |].
        symmetry. apply finished_count_same_times, same_times_alter_mark.
Qed.

(** *** One iteration, and the run *)

Lemma next_arrival_later now ps acc :
  acc = -1 ∨ now < acc →
  foldl (next_arrival_step now) acc ps = -1
  ∨ now < foldl (next_arrival_step now) acc ps.
Proof.
  revert acc. induction ps as [| p ps IH]; intros acc Hacc; cbn; [done |].
  apply IH. unfold next_arrival_step.
  destruct (remaining_time p >? 0); cbn; [| done].
  destruct (Z.gtb_spec (arrival_time p) now); [| done].
  destruct ((acc =? -1) || (arrival_time p <? acc)); [by right | done].
Qed.

Lemma run_ok_loop_body s :
  run_ok s → clock_calm s → Z.of_nat (length (processes s)) ≤ INT_MAX →
  run_ok (loop_body s).1
  ∧ current_time s ≤ current_time (loop_body s).1
  ∧ ((loop_body s).2 = Continue → current_time s < current_time (loop_body s).1).
Proof.
  intros (Htable & Hladder & Hsched) Hcalm Hn.
  pose proof (table_ok_loop_body s Htable) as Htable'.
  pose proof (ladder_ok_loop_body s Hladder) as Hladder'.
  pose proof (table_ok_selection s Htable) as Htable1.
  pose proof (ladder_ok_get_next_process _ (ladder_ok_check_arrivals s Hladder))
    as Hladder1.
  pose proof (Forall2_length _ _ _ (same_times_selection s)) as Hlen.
  unfold run_ok. unfold loop_body in *.
  destruct (get_next_process (check_arrivals s)) as [r s1] eqn:Hsel.
  destruct (selection_spec s r s1 Hladder Hsched Hsel)
    as (Hnow & Hcount & Hdone & Hentries & Hr).
  cbn [fst snd] in *.
  assert (Hdone1 : Forall (done_before (current_time s + 1)) (processes s1)).
  { eapply Forall_impl; [exact Hdone |].
    intros x Hx Hxr. specialize (Hx Hxr). lia. }
  destruct r as [cur |]; cbn [fst snd] in *.
  - destruct Hr as (Hcur & lvl & Hentry).
    destruct (sched_ok_dispatch cur lvl s1) as [Hlt Hok];
      rewrite ?Hnow, <- ?Hlen; try done.
    rewrite Hnow in Hlt.
    split; [done |]. split; [lia | done].
  - unfold idle in *. cbn [current_time printf] in *.
    destruct (next_arrival_later (current_time s1) (processes s1) (-1)
                ltac:(by left)) as [Hnone | Hlater].
    + change (find_next_arrival (printf (EvIdle (current_time s1)) s1) = -1)
        in Hnone.
      rewrite Hnone in *. cbn in *. rewrite Hnow.
      split; [| split; [lia | done]].
      do 2 (split; [done |]). split; [by apply entries_ok_empty | done].
    + change (current_time s1
              < find_next_arrival (printf (EvIdle (current_time s1)) s1))
        in Hlater.
      rewrite Hnow in Hlater.
      destruct (Z.eqb_spec (find_next_arrival (printf (EvIdle (current_time s1)) s1)) (-1))
        as [Hm | Hm]; cbn in *.
      * rewrite Hnow. split; [| split; [lia | done]].
        do 2 (split; [done |]). split; [by apply entries_ok_empty | done].
      * split; [| split; [lia | intros _; lia]].
        do 2 (split; [done |]).
        split; [apply (entries_ok_mono (current_time s + 1)); [lia | done] |].
        split; [| done].
        eapply Forall_impl; [exact Hdone |].
        intros x Hx Hxr. specialize (Hx Hxr). lia.
Qed.

Lemma run_ok_start ps g : input_ok ps g → run_ok (start ps g).
Proof.
  intros (Hps & _ & _).
  split; [| split; [| split; [| split]]].
  - apply table_ok_start. eapply Forall_impl; [exact Hps |]. cbn. lia.
  - split; [done |]. split; [done |]. repeat constructor; by vm_compute.
  - apply entries_ok_empty. by repeat constructor.
  - cbn. apply Forall_fmap. eapply Forall_impl; [exact Hps |].
    intros p Hp. unfold done_before, compose. cbn in *. lia.
  - cbn. unfold finished_count.
    assert (Hnone : filter (λ p, remaining_time p = 0) (setup_process <$> ps) = []).
    { induction Hps as [| p l Hp _ IH]; [done |].
      cbn [fmap list_fmap]. rewrite filter_cons, IH. cbn.
      destruct (decide (burst_time p = 0)); [lia | done]. }
    by rewrite Hnone.
Qed.

(** The invariant of the run: it holds after [k] iterations if the clock
    was calm at each of them. *)
Lemma run_ok_state_after ps g k :
  input_ok ps g →
  (∀ j, (j < k)%nat → current_time (state_after j ps g) ≤ INT_MAX - 40) →
  run_ok (state_after k ps g)
  ∧ current_time g ≤ current_time (state_after k ps g)
  ∧ length (processes (state_after k ps g)) = length ps.
Proof.
  intros Hin Hcalm.
  apply (run_induction
           (λ s, run_ok s ∧ current_time g ≤ current_time s
                 ∧ length (processes s) = length ps) ps g k); [| | done].
  - split; [by apply run_ok_start |]. split; [done |].
    cbn. by rewrite length_fmap.
  - intros j s Hj Hrun (Hs & Hclock & Hlen).
    assert (Hsj : state_after j ps g = s)
      by (unfold state_after; by rewrite Hrun).
    destruct Hin as (_ & Hn & Hlo).
    destruct (run_ok_loop_body s Hs) as (Hs' & Hle & _).
    + specialize (Hcalm j Hj). rewrite Hsj in Hcalm. split; lia.
    + by rewrite Hlen.
    + split; [done |]. split; [lia |].
      rewrite <- Hlen. symmetry.
      apply (Forall2_length _ _ _ (static_kept_loop_body s)).
Qed.

(** *** What the invariant says of a run *)

(** X5. In a run on processes with positive bursts, as long as the clock
    keeps away from [INT_MAX], no reference is held twice by the levels,
    so that together they never hold more references than there are
    processes. *)
Theorem no_reference_queued_twice ps g k :
  input_ok ps g →
  (∀ j, (j < k)%nat → current_time (state_after j ps g) ≤ INT_MAX - 40) →
  NoDup (mjoin (qprocs <$> queues (state_after k ps g)))
  ∧ (length (mjoin (qprocs <$> queues (state_after k ps g))) ≤ length ps)%nat.
Proof.
  intros Hin Hcalm.
  destruct (run_ok_state_after ps g k Hin Hcalm)
    as ((_ & _ & (Hnd & Hall) & _) & _ & Hlen).
  split; [done |].
  transitivity (length (seq 0 (length ps))); [| by rewrite length_seq].
  apply submseteq_length, NoDup_submseteq; [done |].
  intros i Hi. apply list_elem_of_join in Hi as (l & Hi & Hl).
  apply list_elem_of_lookup in Hl as [lvl Hl].
  destruct (Hall lvl l i Hl Hi) as (p & Hp & _).
  apply elem_of_seq. apply lookup_lt_Some in Hp. lia.
Qed.

(** X6. In a run on processes with positive bursts, as long as the clock
    keeps away from [INT_MAX], a reference held by level [lvl] points at
    a process that has not finished, is marked for this level, has a
    fresh quantum and arrived before the current time: the quantum that a
    dispatch reads through [current_queue] is the one of the level the
    process was taken from, and a finished process is never queued
    again. *)
Theorem queued_process_state ps g k lvl i :
  input_ok ps g →
  (∀ j, (j < k)%nat → current_time (state_after j ps g) ≤ INT_MAX - 40) →
  0 ≤ lvl →
  i ∈ qprocs (queue_at (state_after k ps g) lvl) →
  ∃ p, processes (state_after k ps g) !! i = Some p
       ∧ 0 < remaining_time p
       ∧ current_queue p = lvl
       ∧ time_in_current_quantum p = 0
       ∧ arrival_time p < current_time (state_after k ps g).
Proof.
  intros Hin Hcalm Hlvl Hi.
  destruct (run_ok_state_after ps g k Hin Hcalm)
    as ((_ & _ & (_ & Hall) & _) & _ & _).
  destruct (decide (Z.to_nat lvl < length (queues (state_after k ps g)))%nat)
    as [Hlen | Hlen].
  - pose proof (Hall _ _ i (queued_lookup _ lvl Hlen) Hi) as Hentry.
    unfold entry_ok in Hentry. by rewrite Z2Nat.id in Hentry.
  - unfold queue_at in Hi. rewrite lookup_ge_None_2 in Hi by lia.
    by apply elem_of_nil in Hi.
Qed.

Lemma filter_all {A} (P : A → Prop) `{!∀ x, Decision (P x)} (l : list A) :
  (length l ≤ length (filter P l))%nat → Forall P l.
Proof.
  induction l as [| x l IH]; intros Hlen; [done |].
  rewrite filter_cons in Hlen. destruct (decide (P x)) as [Hx | Hx]; cbn in Hlen.
  - constructor; [done |]. apply IH. lia.
  - pose proof (length_filter P l). lia.
Qed.

Lemma while_loop_finished k st s :
  while_loop k st = Finished s → n_of s ≤ completed s.
Proof.
  revert st. induction k as [| k IH]; intros st; cbn.
  - destruct (Z.ltb_spec (completed st) (n_of st)); [done |].
    by intros [= ->].
  - destruct (Z.ltb_spec (completed st) (n_of st)); [| by intros [= ->]].
    destruct (loop_body st) as [st' []]; [apply IH | done].
Qed.

(** X7. In a run on processes with positive bursts, as long as the clock
    keeps away from [INT_MAX], [completed] is the number of processes
    whose remaining time is 0, so that the loop is left through its
    condition only when every process has run its whole burst. *)
Theorem completed_counts_finished ps g k :
  input_ok ps g →
  (∀ j, (j < k)%nat → current_time (state_after j ps g) ≤ INT_MAX - 40) →
  completed (state_after k ps g)
  = Z.of_nat (length (filter (λ p, remaining_time p = 0)
                        (processes (state_after k ps g))))
  ∧ (∀ s, run_mlfq_simulation k ps g = Finished s →
          Forall (λ p, remaining_time p = 0) (processes s)).
Proof.
  intros Hin Hcalm.
  destruct (run_ok_state_after ps g k Hin Hcalm)
    as ((_ & _ & _ & _ & Hcount) & _ & _).
  split; [done |].
  intros s Hrun. unfold state_after in Hcount. rewrite Hrun in Hcount.
  cbn in Hcount.
  pose proof (while_loop_finished k _ s Hrun) as Hexit.
  apply (filter_all (λ p, remaining_time p = 0)).
  unfold n_of, finished_count in *. lia.
Qed.

(** X8. In a run on processes with positive bursts, as long as the clock
    keeps away from [INT_MAX], every iteration that does not leave the
    loop moves the clock forward: a dispatch runs a process that has work
    left for at least one time unit, and the idle branch jumps to a later
    arrival. *)
Theorem clock_advances ps g k s :
  input_ok ps g →
  (∀ j, (j ≤ k)%nat → current_time (state_after j ps g) ≤ INT_MAX - 40) →
  run_mlfq_simulation k ps g = OutOfFuel s →
  (loop_body s).2 = Continue →
  current_time s < current_time (loop_body s).1.
Proof.
  intros Hin Hcalm Hrun Hcont.
  assert (Hs : state_after k ps g = s) by (unfold state_after; by rewrite Hrun).
  destruct (run_ok_state_after ps g k Hin) as (Hok & Hlo & Hlen);
    [intros j Hj; apply Hcalm; lia |].
  rewrite Hs in Hok, Hlo, Hlen.
  destruct Hin as (_ & Hn & Hg).
  destruct (run_ok_loop_body s Hok) as (_ & _ & Hlt); [| by rewrite Hlen | by apply Hlt].
  specialize (Hcalm k (le_n k)). rewrite Hs in Hcalm. split; lia.
Qed.

(** ** The statistics of the CPU-bound processes *)

#[local] Instance stat_kept_preorder : PreOrder stat_kept.
Proof.
  split; [by intros p now |].
  intros p1 p2 p3 H12 H23 now H1. by apply H23, H12.
Qed.

Lemma stat_ok_mono now now' p : now ≤ now' → stat_ok now p → stat_ok now' p.
Proof.
  intros Hle Hp Hio. destruct (Hp Hio) as [Harr Hcases].
  split; [done |].
  destruct Hcases as [? | (Hlt & Hfirst & Hprog & Hdone)]; [by left |].
  right. do 2 (split; [done |]). split; [lia |].
  intros Hz. destruct (Hdone Hz) as (? & ? & ? & ? & ?).
  split; [lia | done].
Qed.

Lemma stat_ok_selection s :
  Forall (stat_ok (current_time s)) (processes s) →
  Forall (stat_ok (current_time s))
    (processes (get_next_process (check_arrivals s)).2).
Proof.
  assert (Henq : ∀ p, stat_kept p
            (set_time_in_current_quantum 0 (set_current_queue 0 p)))
    by (by intros p now Hp).
  intros Hs. apply Forall_lookup_2. intros i y Hy.
  assert (Hrel : Forall2 stat_kept (processes s)
                   (processes (get_next_process (check_arrivals s)).2)).
  { etransitivity; [apply (frame_check_arrivals stat_kept Henq) |].
    apply (frame_get_next_process stat_kept Henq). }
  destruct (Forall2_lookup_r _ _ _ _ _ Hrel Hy) as (x & Hx & Hxy).
  apply Hxy. by apply (Forall_lookup_1 _ _ _ _ Hs Hx).
Qed.

Lemma ran_first_run cur p0 s :
  first_run_time (ran cur p0 s)
  = (if first_run_time p0 =? -1 then current_time s else first_run_time p0).
Proof. unfold ran. by destruct (first_run_time p0 =? -1). Qed.

Lemma stat_ok_dispatch cur lvl s :
  table_ok s →
  entry_ok (current_time s + 1) (processes s) lvl cur →
  0 ≤ current_time s ≤ INT_MAX - 40 →
  Forall (stat_ok (current_time s)) (processes s) →
  Forall (stat_ok (current_time (dispatch cur s))) (processes (dispatch cur s)).
Proof.
  intros (Hqs & Hprocs & _) (p0 & Hp & Hrem0 & _ & _ & Harr0) Hclock Hstat.
  pose proof (Forall_lookup_1 _ _ _ _ Hprocs Hp) as Hp0.
  pose proof (Forall_lookup_1 _ _ _ _ Hstat Hp) as Hs0.
  pose proof (ran_facts cur p0 s Hqs Hp0) as Hran. cbv zeta in Hran.
  destruct Hran as (Hts & Hrt & Hsum & _ & Hpos & Hrem & _ & _ & Hio & Harr & Hburst).
  specialize (Hpos Hrem0).
  pose proof (ran_first_run cur p0 s) as Hfirst.
  pose proof (dispatch_cases cur p0 s Hp Hqs Hp0) as Hcases. cbv zeta in Hcases.
  destruct Hp0 as (Hrem_le & Hmax & _ & Htiq0 & _).
  set (run_time := run_time_of p0 (time_quantum (queue_at s (current_queue p0)))) in *.
  set (p := ran cur p0 s) in *. clearbody p.
  assert (Hnow : int_add (current_time s) run_time = current_time s + run_time)
    by (apply wrap_id; unfold is_int, INT_MIN, INT_MAX in *; lia).
  rewrite Hnow in Hcases.
  set (now := current_time s + run_time) in *.
  assert (Hothers : Forall (stat_ok now) (processes s)).
  { eapply Forall_impl; [exact Hstat |]. intros x. apply stat_ok_mono.
    unfold now. lia. }
  assert (Hran_ok : is_io_bound p0 = 0 →
            0 ≤ arrival_time p ∧ remaining_time p < burst_time p
            ∧ arrival_time p ≤ first_run_time p
            ∧ first_run_time p + (burst_time p - remaining_time p) ≤ now).
  { intros Hcpu. destruct (Hs0 Hcpu) as [Ha Hc]. rewrite Harr, Hrem, Hburst, Hfirst.
    destruct Hc as [[Hfull ->] | (Hlt & Hf & Hprog & _)]; cbn.
    - unfold now. lia.
    - destruct (Z.eqb_spec (first_run_time p0) (-1)); unfold now; lia. }
  destruct Hcases as [[Hz ->] | [(Hnz & Hnio & ->) | (Hnz & Hcpu & _ & ->)]].
  - cbn [current_time processes]. apply Forall_insert; [done |].
    intros Hcpu. cbn in Hcpu. rewrite Hio in Hcpu.
    destruct (Hran_ok Hcpu) as (Ha & Hlt & Hf & Hprog). cbn.
    split; [done |]. right. do 3 (split; [done |]). intros _.
    assert (Hturn : int_sub now (arrival_time p) = now - arrival_time p)
      by (apply wrap_id; unfold is_int, INT_MIN, INT_MAX, now in *; lia).
    rewrite Hturn.
    assert (Hwait : int_sub (now - arrival_time p) (burst_time p)
                    = now - arrival_time p - burst_time p).
    { apply wrap_id. rewrite Hburst in *.
      unfold is_int, INT_MIN, INT_MAX, now in *. lia. }
    rewrite Hwait. unfold now in *. unfold INT_MAX in *. lia.
  - cbn [current_time processes]. apply Forall_insert; [done |].
    intros Hcpu. cbn in Hcpu. by rewrite Hio in Hcpu.
  - rewrite current_time_add. cbn [current_time].
    match goal with
    | |- context [add_process_to_queue cur ?l ?st] =>
        destruct (add_queued cur l st) as [-> | [_ ->]]
    end; cbn [processes].
    + apply Forall_insert; [done |]. intros _.
      destruct (Hran_ok Hcpu) as (Ha & Hlt & Hf & Hprog). cbn.
      split; [done |]. right. do 3 (split; [done |]). intros Hz. done.
    + apply Forall_alter.
      * apply Forall_insert; [done |]. intros _.
        destruct (Hran_ok Hcpu) as (Ha & Hlt & Hf & Hprog). cbn.
        split; [done |]. right. do 3 (split; [done |]). intros Hz. done.
      * by intros x _ Hx.
Qed.

Lemma stat_ok_loop_body s :
  run_ok s → 0 ≤ current_time s ≤ INT_MAX - 40 →
  Forall (stat_ok (current_time s)) (processes s) →
  Forall (stat_ok (current_time (loop_body s).1)) (processes (loop_body s).1).
Proof.
  intros (Htable & Hladder & Hsched) Hclock Hstat.
  pose proof (table_ok_selection s Htable) as Htable1.
  pose proof (stat_ok_selection s Hstat) as Hstat1.
  unfold loop_body.
  destruct (get_next_process (check_arrivals s)) as [r s1] eqn:Hsel.
  destruct (selection_spec s r s1 Hladder Hsched Hsel) as (Hnow & _ & _ & _ & Hr).
  cbn [fst snd] in *.
  destruct r as [cur |]; cbn [fst snd].
  - destruct Hr as (_ & lvl & Hentry).
    apply (stat_ok_dispatch cur lvl s1); rewrite ?Hnow; done.
  - unfold idle. cbn [current_time printf].
    destruct (next_arrival_later (current_time s1) (processes s1) (-1)
                ltac:(by left)) as [Hnone | Hlater].
    + change (find_next_arrival (printf (EvIdle (current_time s1)) s1) = -1)
        in Hnone.
      rewrite Hnone. cbn. by rewrite Hnow.
    + change (current_time s1
              < find_next_arrival (printf (EvIdle (current_time s1)) s1))
        in Hlater.
      destruct (Z.eqb_spec (find_next_arrival (printf (EvIdle (current_time s1)) s1)) (-1));
        cbn; [by rewrite Hnow |].
      eapply Forall_impl; [exact Hstat1 |]. intros x. apply stat_ok_mono.
      unfold find_next_arrival in Hlater. cbn in Hlater. lia.
Qed.

(** The descriptor that the run was given for the process at index [i]. *)
Lemma static_from_input ps g k i p :
  processes (state_after k ps g) !! i = Some p →
  ∃ p0, ps !! i = Some p0 ∧ static_kept (setup_process p0) p.
Proof.
  intros Hk.
  pose proof (run_relation static_kept ps g static_kept_loop_body 0 k
                ltac:(lia)) as H0k.
  rewrite state_after_0 in H0k.
  destruct (Forall2_lookup_r _ _ _ _ _ H0k Hk) as (q0 & Hq0 & Hkept).
  cbn in Hq0. rewrite list_lookup_fmap in Hq0.
  destruct (ps !! i) as [p0 |]; [| done]. cbn in Hq0. injection Hq0 as <-.
  by exists p0.
Qed.

Lemma stat_ok_state_after ps g k :
  input_ok ps g →
  Forall (λ p, 0 ≤ arrival_time p) ps →
  0 ≤ current_time g →
  (∀ j, (j < k)%nat → current_time (state_after j ps g) ≤ INT_MAX - 40) →
  Forall (stat_ok (current_time (state_after k ps g)))
    (processes (state_after k ps g)).
Proof.
  intros Hin Harrivals Hg. induction k as [| k IH]; intros Hcalm.
  - rewrite state_after_0. cbn. apply Forall_fmap.
    eapply Forall_impl; [exact Harrivals |].
    intros x Hx. unfold compose, stat_ok. cbn. intros _.
    split; [done |]. by left.
  - assert (Hstat : Forall (stat_ok (current_time (state_after k ps g)))
                      (processes (state_after k ps g)))
      by (apply IH; intros j Hj; apply Hcalm; lia).
    destruct (run_ok_state_after ps g k Hin) as (Hok & Hlo & _);
      [intros j Hj; apply Hcalm; lia |].
    destruct (run_mlfq_simulation k ps g) as [s | s | s] eqn:Hrun.
    + rewrite state_after_ended; [done |]. by rewrite Hrun.
    + rewrite state_after_ended; [done |]. by rewrite Hrun.
    + rewrite (state_after_next k ps g s Hrun).
      assert (Hs : state_after k ps g = s)
        by (unfold state_after; by rewrite Hrun).
      rewrite Hs in *. apply stat_ok_loop_body; [done | | done].
      specialize (Hcalm k (Nat.lt_succ_diag_r k)). rewrite Hs in Hcalm. lia.
Qed.

(** A CPU-bound process that has finished, in terms of the descriptor
    the run was given for it. *)
Lemma finished_cpu_process ps g k i p0 p :
  input_ok ps g →
  Forall (λ p, 0 ≤ arrival_time p) ps →
  0 ≤ current_time g →
  (∀ j, (j < k)%nat → current_time (state_after j ps g) ≤ INT_MAX - 40) →
  ps !! i = Some p0 →
  processes (state_after k ps g) !! i = Some p →
  is_io_bound p0 = 0 →
  remaining_time p = 0 →
  (id p = id p0 ∧ burst_time p = burst_time p0 ∧ is_io_bound p = 0
   ∧ arrival_time p = arrival_time p0)
  ∧ 0 ≤ arrival_time p ≤ first_run_time p
  ∧ first_run_time p + burst_time p ≤ completion_time p
  ∧ completion_time p ≤ current_time (state_after k ps g)
  ∧ completion_time p ≤ INT_MAX
  ∧ turnaround_time p = completion_time p - arrival_time p
  ∧ waiting_time p = turnaround_time p - burst_time p.
Proof.
  intros Hin Harrivals Hg Hcalm Hp0 Hp Hcpu Hz.
  pose proof (stat_ok_state_after ps g k Hin Harrivals Hg Hcalm) as Hstat.
  destruct (static_from_input ps g k i p Hp) as (q0 & Hq0 & Hkept).
  rewrite Hp0 in Hq0. injection Hq0 as <-.
  destruct Hkept as (Hid & Hburst & Hio & Harr & _). cbn in Hid, Hburst, Hio, Harr.
  specialize (Harr Hcpu).
  pose proof (Forall_lookup_1 _ _ _ _ Hstat Hp) as Hsp.
  destruct Hsp as [Ha Hcases]; [congruence |].
  destruct Hin as (Hps & _ & _).
  pose proof (Forall_lookup_1 _ _ _ _ Hps Hp0) as Hb0. cbn in Hb0.
  destruct Hcases as [[Hfull _] | (Hlt & Hf & Hprog & Hdone)]; [lia |].
  destruct (Hdone Hz) as (Hc & Hcmax & Hfc & Hturn & Hwait).
  split; [split; [done |]; split; [done |]; split; [congruence | done] |].
  split; [lia |]. by do 4 (split; [done |]).
Qed.

(** X9. In a run on processes with positive bursts and non-negative
    arrival times, started at a non-negative time, the statistics of a
    CPU-bound process that has finished are those of their definition,
    taken from the arrival time and the burst of the input, and none of
    them is negative: the turnaround is the completion time less the
    arrival time, the waiting time the turnaround less the burst, and the
    response time, from the arrival to the first run, is at most the
    waiting time. *)
Theorem cpu_bound_statistics ps g k i p0 p :
  input_ok ps g →
  Forall (λ p, 0 ≤ arrival_time p) ps →
  0 ≤ current_time g →
  (∀ j, (j < k)%nat → current_time (state_after j ps g) ≤ INT_MAX - 40) →
  ps !! i = Some p0 →
  processes (state_after k ps g) !! i = Some p →
  is_io_bound p0 = 0 →
  remaining_time p = 0 →
  turnaround_time p = completion_time p - arrival_time p0
  ∧ waiting_time p = turnaround_time p - burst_time p0
  ∧ 0 ≤ response_time p ≤ waiting_time p
  ∧ response_time p = first_run_time p - arrival_time p0
  ∧ completion_time p ≤ current_time (state_after k ps g).
Proof.
  intros Hin Harrivals Hg Hcalm Hp0 Hp Hcpu Hz.
  destruct (finished_cpu_process ps g k i p0 p Hin Harrivals Hg Hcalm Hp0 Hp Hcpu Hz)
    as ((_ & Hburst & _ & Harr) & Hfirst & Hfc & Hc & Hcmax & Hturn & Hwait).
  pose proof (Forall_lookup_1 _ _ _ _ (proj1 Hin) Hp0) as Hb0. cbn in Hb0.
  assert (Hresp : response_time p = first_run_time p - arrival_time p).
  { unfold response_time. apply wrap_id.
    unfold is_int, INT_MIN, INT_MAX in *. lia. }
  rewrite Hresp, Hturn, Hwait, <- Harr, <- Hburst. lia.
Qed.

(** *** The table of results *)

Lemma finished_all_done ps g k s :
  input_ok ps g →
  (∀ j, (j < k)%nat → current_time (state_after j ps g) ≤ INT_MAX - 40) →
  run_mlfq_simulation k ps g = Finished s →
  Forall (λ p, remaining_time p = 0) (processes s).
Proof.
  intros Hin Hcalm Hrun.
  destruct (run_ok_state_after ps g k Hin Hcalm)
    as ((_ & _ & _ & _ & Hcount) & _ & _).
  unfold state_after in Hcount. rewrite Hrun in Hcount. cbn in Hcount.
  pose proof (while_loop_finished k _ s Hrun) as Hexit.
  apply (filter_all (λ p, remaining_time p = 0)).
  unfold n_of, finished_count in *. lia.
Qed.

(** X11. [main] prints the table of the process array as the run left
    it. When the run, on processes with positive bursts and non-negative
    arrival times and started at a non-negative time, ends through the
    loop condition, the row of every CPU-bound process shows the
    identifier and the burst of the input, a turnaround that is the
    completion time less the arrival time, a waiting time that is the
    turnaround less the burst, and a response time between 0 and the
    waiting time. *)
Theorem report_cpu_rows ps g k s i p0 r :
  input_ok ps g →
  Forall (λ p, 0 ≤ arrival_time p) ps →
  0 ≤ current_time g →
  (∀ j, (j < k)%nat → current_time (state_after j ps g) ≤ INT_MAX - 40) →
  run_mlfq_simulation k ps g = Finished s →
  ps !! i = Some p0 →
  is_io_bound p0 = 0 →
  rows (print_results (processes s)) !! i = Some r →
  row_id r = id p0 ∧ row_io_bound r = false ∧ row_burst r = burst_time p0
  ∧ row_turnaround r = row_completion r - arrival_time p0
  ∧ row_waiting r = row_turnaround r - burst_time p0
  ∧ 0 ≤ row_response r ≤ row_waiting r.
Proof.
  intros Hin Harrivals Hg Hcalm Hrun Hp0 Hcpu Hr.
  assert (Hs : state_after k ps g = s) by (unfold state_after; by rewrite Hrun).
  cbn in Hr. rewrite list_lookup_fmap in Hr.
  destruct (processes s !! i) as [p |] eqn:Hp; [| done].
  cbn in Hr. injection Hr as <-.
  pose proof (Forall_lookup_1 _ _ _ _ (finished_all_done ps g k s Hin Hcalm Hrun) Hp)
    as Hz. cbn in Hz.
  rewrite <- Hs in Hp.
  destruct (finished_cpu_process ps g k i p0 p Hin Harrivals Hg Hcalm Hp0 Hp Hcpu Hz)
    as ((Hid & Hburst & Hio & Harr) & Hfirst & Hfc & Hc & Hcmax & Hturn & Hwait).
  pose proof (Forall_lookup_1 _ _ _ _ (proj1 Hin) Hp0) as Hb0. cbn in Hb0.
  assert (Hresp : response_time p = first_run_time p - arrival_time p).
  { unfold response_time. apply wrap_id.
    unfold is_int, INT_MIN, INT_MAX in *. lia. }
  unfold row_of. cbn. rewrite Hio, Hresp, Hturn, Hwait, <- Harr, <- Hburst.
  do 3 (split; [done |]). lia.
Qed.

(** ** Termination *)

Lemma work_left_insert ps i x y :
  ps !! i = Some x →
  work_left (<[i := y]> ps) = work_left ps - remaining_time x + remaining_time y.
Proof.
  unfold work_left, sumZ. revert i.
  induction ps as [| p ps IH]; intros [| i] Hi; simplify_eq/=; [lia |].
  rewrite (IH i Hi). lia.
Qed.

Lemma work_left_same_times ps ps' :
  Forall2 same_times ps ps' → work_left ps' = work_left ps.
Proof.
  unfold work_left, sumZ.
  induction 1 as [| p p' ps ps' [Hrem _] _ IH]; [done |].
  cbn. by rewrite Hrem, IH.
Qed.

Lemma work_left_unfinished ps :
  Forall (λ p, 0 ≤ remaining_time p) ps →
  (finished_count ps < length ps)%nat → 1 ≤ work_left ps.
Proof.
  unfold work_left, finished_count, sumZ.
  induction 1 as [| p ps Hp Hps IH]; [cbn; lia |].
  rewrite fmap_cons, filter_cons. cbn [foldr].
  assert (Hnn : 0 ≤ foldr Z.add 0 (remaining_time <$> ps)).
  { clear IH. induction Hps as [| q qs Hq _ IHq]; cbn; lia. }
  destruct (decide (remaining_time p = 0)); cbn [length]; intros Hlt.
  - specialize (IH ltac:(lia)). lia.
  - lia.
Qed.

Lemma work_left_dispatch cur lvl s :
  table_ok s →
  entry_ok (current_time s + 1) (processes s) lvl cur →
  work_left (processes (dispatch cur s)) < work_left (processes s).
Proof.
  intros (Hqs & Hprocs & _) (p0 & Hp & Hrem0 & _).
  pose proof (Forall_lookup_1 _ _ _ _ Hprocs Hp) as Hp0.
  pose proof (ran_facts cur p0 s Hqs Hp0) as Hran. cbv zeta in Hran.
  destruct Hran as (_ & _ & _ & _ & Hpos & Hrem & _).
  specialize (Hpos Hrem0).
  pose proof (dispatch_cases cur p0 s Hp Hqs Hp0) as Hcases. cbv zeta in Hcases.
  set (p := ran cur p0 s) in *. clearbody p.
  destruct Hcases as [[_ ->] | [(_ & _ & ->) | (_ & _ & _ & ->)]].
  - cbn [processes]. rewrite (work_left_insert _ _ _ _ Hp). cbn. lia.
  - cbn [processes]. rewrite (work_left_insert _ _ _ _ Hp). cbn. lia.
  - match goal with
    | |- context [add_process_to_queue cur ?l ?st] =>
        destruct (add_queued cur l st) as [-> | [_ ->]]
    end; cbn [processes].
    + rewrite (work_left_insert _ _ _ _ Hp). cbn. lia.
    + rewrite (work_left_same_times _ _ (same_times_alter_mark _ _ _)).
      rewrite (work_left_insert _ _ _ _ Hp). cbn. lia.
Qed.

(** The arrival loop admits a process whose arrival time is the current
    time when level 0 is empty. *)
Lemma check_arrivals_admits s i0 p0 :
  processes s !! i0 = Some p0 → arrival_time p0 = current_time s →
  (0 < length (queues s))%nat →
  qprocs (queue_at s 0) = [] →
  qprocs (queue_at (check_arrivals s) 0) ≠ [].
Proof.
  intros Hp0 Harr0 Hlen Hempty. unfold check_arrivals.
  set (now := current_time s) in *.
  set (J := λ (i : nat) (st : State),
    current_time st = now ∧ (0 < length (queues st))%nat
    ∧ (∃ p, processes st !! i0 = Some p ∧ arrival_time p = now)
    ∧ (qprocs (queue_at st 0) ≠ []
       ∨ (i ≤ i0)%nat ∧ qprocs (queue_at st 0) = [])).
  assert (HJ : J (length (processes s))
                 (foldl check_arrival s (seq 0 (length (processes s))))).
  { apply foldl_seq_invariant.
    { split; [done |]. split; [done |]. split; [by exists p0 |].
      right. split; [lia | done]. }
    intros i st _ (Hnow & Hq & (p & Hp & Harr) & Hlevel).
    unfold check_arrival.
    destruct (processes st !! i) as [pi |] eqn:Hpi.
    2:{ split; [done |]. split; [done |]. split; [by exists p |].
        destruct Hlevel as [? | [Hle ?]]; [by left |]. right.
        split; [| done]. destruct (decide (i = i0)) as [-> | ?]; [congruence | lia]. }
    destruct (Z.eqb_spec (arrival_time pi) (current_time st)) as [Hai | Hai].
    2:{ split; [done |]. split; [done |]. split; [by exists p |].
        destruct Hlevel as [? | [Hle ?]]; [by left |]. right.
        split; [| done].
        destruct (decide (i = i0)) as [-> | ?]; [| lia].
        rewrite Hp in Hpi. simplify_eq. congruence. }
    set (e := EvArrive (current_time st) (id pi) (burst_time pi) (is_io_bound pi)).
    split; [by rewrite current_time_add |].
    split; [by rewrite length_queues_add |].
    split.
    - destruct (add_queued i 0 (printf e st)) as [-> | [_ ->]]; [by exists p |].
      cbn [processes printf].
      destruct (decide (i0 = i)) as [-> | Hne].
      + rewrite list_lookup_alter_eq, Hp. cbn. eexists. split; [done |]. done.
      + rewrite list_lookup_alter_ne by done. by exists p.
    - left.
      destruct (Z.lt_ge_cases (count (queue_at (printf e st) 0)) MAX_PROCESSES)
        as [Hroom | Hfull].
      + rewrite queue_at_add_eq; [| done | done].
        intros Hnil. by apply app_eq_nil in Hnil as [_ ?].
      + rewrite add_process_to_queue_full by done.
        destruct Hlevel as [? | [_ Hnil]]; [done |].
        unfold count in Hfull.
        change (queue_at (printf e st) 0) with (queue_at st 0) in Hfull.
        rewrite Hnil in Hfull. by vm_compute in Hfull. }
  destruct HJ as (_ & _ & (p & Hp & _) & [? | [Hle _]]); [done |].
  apply lookup_lt_Some in Hp.
  assert (Hsame : length (processes (foldl check_arrival s (seq 0 (length (processes s)))))
                  = length (processes s)).
  { symmetry.
    apply (Forall2_length _ _ _
             (frame_check_arrivals same_times same_times_enqueue s)). }
  lia.
Qed.

Lemma level_0_add p s :
  qprocs (queue_at s 0) ≠ [] → qprocs (queue_at (add_process_to_queue p 0 s) 0) ≠ [].
Proof.
  intros Hs.
  destruct (add_process_to_queue_cases p 0 s) as [-> | [_ ->]]; [done |].
  unfold queue_at in *. cbn.
  destruct (queues s !! Z.to_nat 0) as [q |] eqn:Hq; [| done].
  rewrite list_lookup_insert_eq by (by eapply lookup_lt_Some). cbn.
  intros Hnil. by apply app_eq_nil in Hnil as [_ ?].
Qed.

Lemma level_0_boost_level s q :
  Z.to_nat q ≠ 0%nat →
  qprocs (queue_at s 0) ≠ [] → qprocs (queue_at (boost_level s q) 0) ≠ [].
Proof.
  intros Hq Hs. unfold boost_level. cbv zeta.
  rewrite queue_at_set_queue_ne by done.
  revert Hs. generalize (qprocs (queue_at s q)). intros l. revert s.
  induction l as [| x l IH]; intros s Hs; cbn [foldl]; [done |].
  by apply IH, level_0_add.
Qed.

Lemma level_0_selected s :
  qprocs (queue_at s 0) ≠ [] → (get_next_process s).1 ≠ None.
Proof.
  intros Hs. unfold get_next_process.
  assert (Hboost : qprocs (queue_at (priority_boost s) 0) ≠ []).
  { unfold priority_boost. destruct (int_sub _ _ >=? _); [| done].
    change (qprocs (queue_at (boost_level (boost_level
              (printf (EvBoost (current_time s)) s) 1) 2) 0) ≠ []).
    apply level_0_boost_level; [done |]. by apply level_0_boost_level. }
  change (levels 0) with [0; 1; 2]. cbn [pop_highest].
  by destruct (qprocs (queue_at (priority_boost s) 0)).
Qed.

Lemma next_arrival_found now ps acc :
  foldl (next_arrival_step now) acc ps = acc
  ∨ ∃ p, p ∈ ps ∧ arrival_time p = foldl (next_arrival_step now) acc ps.
Proof.
  revert acc. induction ps as [| p ps IH]; intros acc; cbn; [by left |].
  destruct (IH (next_arrival_step now acc p)) as [Heq | (q & Hq & Harr)].
  - rewrite Heq. unfold next_arrival_step.
    destruct (_ && _); [| by left].
    destruct (_ || _); [| by left].
    right. exists p. split; [by left | done].
  - right. exists q. split; [by right | done].
Qed.

(** Every iteration that continues uses the budget. *)
Lemma budget_loop_body s s' :
  run_ok s → loop_body s = (s', Continue) → budget s' < budget s.
Proof.
  intros (Htable & Hladder & Hsched) Hbody.
  pose proof (table_ok_selection s Htable) as Htable1.
  pose proof (ladder_ok_get_next_process _ (ladder_ok_check_arrivals s Hladder))
    as (Hlen1 & _).
  pose proof (same_times_selection s) as Hsame.
  unfold budget at 2. unfold will_idle. unfold loop_body in Hbody.
  destruct (get_next_process (check_arrivals s)) as [r s1] eqn:Hsel.
  destruct (selection_spec s r s1 Hladder Hsched Hsel) as (Hnow & _ & _ & _ & Hr).
  cbn [fst snd] in *.
  rewrite <- (work_left_same_times _ _ Hsame).
  destruct r as [cur |].
  - destruct Hr as (_ & lvl & Hentry). injection Hbody as <-.
    rewrite <- Hnow in Hentry.
    pose proof (work_left_dispatch cur lvl s1 Htable1 Hentry) as Hwork.
    unfold budget. destruct (will_idle (dispatch cur s1)); lia.
  - unfold idle in Hbody.
    destruct (Z.eqb_spec (find_next_arrival (printf (EvIdle (current_time s1)) s1)) (-1))
      as [Hm | Hm]; cbn in Hbody; [done |].
    injection Hbody as <-.
    destruct (next_arrival_found (current_time s1) (processes s1) (-1))
      as [Hnone | (p & Hpin & Hp)]; [done |].
    apply list_elem_of_lookup in Hpin as [i0 Hi0].
    set (s2 := with_current_time
                 (find_next_arrival (printf (EvIdle (current_time s1)) s1))
                 (printf (EvIdle (current_time s1)) s1)).
    assert (Hidle : will_idle s2 = false).
    { unfold will_idle.
      destruct ((get_next_process (check_arrivals s2)).1) eqn:Hnext; [done |].
      exfalso. revert Hnext. apply level_0_selected.
      apply (check_arrivals_admits s2 i0 p); [done | done | |].
      - cbn. rewrite Hlen1. unfold NUM_QUEUES. lia.
      - pose proof (queued_lookup s1 0) as Hq0. rewrite Hlen1 in Hq0.
        specialize (Hq0 ltac:(unfold NUM_QUEUES; change (Z.to_nat 0) with 0%nat; lia)).
        by apply (Forall_lookup_1 _ _ _ _ Hr Hq0). }
    change (budget s2 < 2 * work_left (processes s1) + 1).
    unfold budget. rewrite Hidle. cbn [processes s2 with_current_time printf]. lia.
Qed.

Lemma run_step_back k ps g s' :
  run_mlfq_simulation (S k) ps g = OutOfFuel s' →
  ∃ s, run_mlfq_simulation k ps g = OutOfFuel s ∧ loop_body s = (s', Continue).
Proof.
  unfold run_mlfq_simulation. rewrite while_loop_snoc.
  destruct (while_loop k (start ps g)) as [s | s | s]; [done | done |].
  unfold next_result. rewrite while_loop_unfold.
  destruct (completed s <? n_of s); [| done].
  destruct (loop_body s) as [s1 [|]] eqn:Hbody; [| done].
  rewrite while_loop_0. destruct (completed s1 <? n_of s1); [| done].
  intros [= ->]. by exists s.
Qed.

Lemma budget_run ps g k s :
  input_ok ps g →
  (∀ j, (j < k)%nat → current_time (state_after j ps g) ≤ INT_MAX - 40) →
  run_mlfq_simulation k ps g = OutOfFuel s →
  budget s + Z.of_nat k ≤ budget (start ps g).
Proof.
  intros Hin. revert s. induction k as [| k IH]; intros s Hcalm Hrun.
  - unfold run_mlfq_simulation in Hrun. rewrite while_loop_0 in Hrun.
    destruct (completed (start ps g) <? n_of (start ps g)); [| done].
    injection Hrun as <-. lia.
  - destruct (run_step_back k ps g s Hrun) as (s0 & Hrun0 & Hbody).
    assert (Hcalm0 : ∀ j, (j < k)%nat →
              current_time (state_after j ps g) ≤ INT_MAX - 40)
      by (intros j Hj; apply Hcalm; lia).
    specialize (IH s0 Hcalm0 Hrun0).
    destruct (run_ok_state_after ps g k Hin Hcalm0) as (Hok & _).
    unfold state_after in Hok. rewrite Hrun0 in Hok. cbn in Hok.
    pose proof (budget_loop_body s0 s Hok Hbody). lia.
Qed.

Lemma work_left_start ps g :
  work_left (processes (start ps g)) = sumZ (burst_time <$> ps).
Proof.
  unfold work_left, sumZ. cbn.
  induction ps as [| p ps IH]; [done |]. cbn. by rewrite IH.
Qed.

(** X10. A run on processes with positive bursts leaves the loop after at
    most twice the sum of the bursts many iterations, through its
    condition or through the error branch, as long as the clock keeps
    away from [INT_MAX]: every dispatch runs a process for one time unit
    at least, and an idle iteration is followed by a dispatch. *)
Theorem run_ends ps g K :
  input_ok ps g →
  (∀ j, (j < K)%nat → current_time (state_after j ps g) ≤ INT_MAX - 40) →
  2 * sumZ (burst_time <$> ps) ≤ Z.of_nat K →
  ∃ s, run_mlfq_simulation K ps g = Finished s
       ∨ run_mlfq_simulation K ps g = Aborted s.
Proof.
  intros Hin Hcalm HK.
  destruct (run_mlfq_simulation K ps g) as [s | s | s] eqn:Hrun;
    [exists s; by left | exists s; by right |].
  exfalso.
  pose proof (budget_run ps g K s Hin Hcalm Hrun) as Hbudget.
  destruct (run_ok_state_after ps g K Hin Hcalm)
    as (((_ & Hprocs & _) & _ & _ & _ & Hcount) & _ & _).
  unfold state_after in Hprocs, Hcount. rewrite Hrun in Hprocs, Hcount.
  cbn in Hprocs, Hcount.
  pose proof (while_loop_running _ _ _ Hrun) as Hgoing.
  assert (Hwork : 1 ≤ work_left (processes s)).
  { apply work_left_unfinished.
    - eapply Forall_impl; [exact Hprocs |]. by intros p ((? & _) & _).
    - unfold n_of in Hgoing. lia. }
  unfold budget in Hbudget. rewrite work_left_start in Hbudget.
  destruct (will_idle s), (will_idle (start ps g)); lia.
Qed.

(** ** No reference is lost among at most [MAX_PROCESSES] processes *)

(** X12. In a run on at most [MAX_PROCESSES] processes with positive
    bursts, a process whose arrival time is the clock at the top of an
    iteration is admitted to level 0 by the arrival loop:
    [add_process_to_queue] finds room for it. *)
Theorem arrivals_admitted ps g k s i p :
  input_ok ps g →
  (∀ j, (j < k)%nat → current_time (state_after j ps g) ≤ INT_MAX - 40) →
  Z.of_nat (length ps) ≤ MAX_PROCESSES →
  run_mlfq_simulation k ps g = OutOfFuel s →
  processes s !! i = Some p →
  arrival_time p = current_time s →
  i ∈ qprocs (queue_at (check_arrivals s) 0).
Proof.
  intros Hin Hcalm Hn Hrun Hp Harr.
  destruct (run_ok_state_after ps g k Hin Hcalm)
    as ((_ & (Hlen & _) & Hok & Hdone & _) & _ & Hps).
  assert (Hs : state_after k ps g = s) by (unfold state_after; by rewrite Hrun).
  rewrite Hs in *.
  destruct (arrivals_inv_check_arrivals s) as (_ & _ & _ & _ & _ & Hadm);
    [rewrite Hlen; unfold NUM_QUEUES; lia | done.. |].
  pose proof (frame_check_arrivals same_times same_times_enqueue s) as Hsame.
  destruct (Forall2_lookup_l _ _ _ _ _ Hsame Hp) as (p' & Hp' & _ & Harr').
  apply (Hadm ltac:(rewrite <- (Forall2_length _ _ _ Hsame); lia) i p');
    [by eapply lookup_lt_Some | done | congruence].
Qed.


Lemma queued_three s :
  length (queues s) = NUM_QUEUES →
  queued s = [qprocs (queue_at s 0); qprocs (queue_at s 1); qprocs (queue_at s 2)].
Proof.
  unfold queued, queue_at. intros Hlen.
  destruct (queues s) as [| a [| b [| c [| d l]]]]; by simplify_eq/=.
Qed.

Lemma entries_ok_length t ps ls :
  entries_ok t ps ls → (length (mjoin ls) ≤ length ps)%nat.
Proof.
  intros [Hnd Hall].
  transitivity (length (seq 0 (length ps))); [| by rewrite length_seq].
  apply submseteq_length, NoDup_submseteq; [done |].
  intros i Hi. apply list_elem_of_join in Hi as (l & Hi & Hl).
  apply list_elem_of_lookup in Hl as [lvl Hl].
  destruct (Hall lvl l i Hl Hi) as (p & Hp & _).
  apply elem_of_seq. apply lookup_lt_Some in Hp. lia.
Qed.

(** X14. In a run on at most [MAX_PROCESSES] processes with positive
    bursts the levels together never hold more than [MAX_PROCESSES]
    references when the boost is decided, so that a boost loses none:
    level 0 receives the entries of levels 1 and 2 in this order, behind
    its own, and the two levels are left empty. *)
Theorem boost_loses_nothing ps g k s :
  input_ok ps g →
  (∀ j, (j < k)%nat → current_time (state_after j ps g) ≤ INT_MAX - 40) →
  Z.of_nat (length ps) ≤ MAX_PROCESSES →
  run_mlfq_simulation k ps g = OutOfFuel s →
  let s1 := check_arrivals s in
  count (queue_at s1 0) + count (queue_at s1 1) + count (queue_at s1 2)
    ≤ MAX_PROCESSES
  ∧ (is_int (current_time s1 - last_boost_time s1) →
     boost_interval s1 ≤ current_time s1 - last_boost_time s1 →
     qprocs (queue_at (priority_boost s1) 0)
     = qprocs (queue_at s1 0) ++ qprocs (queue_at s1 1) ++ qprocs (queue_at s1 2)
     ∧ qprocs (queue_at (priority_boost s1) 1) = []
     ∧ qprocs (queue_at (priority_boost s1) 2) = []).
Proof.
  intros Hin Hcalm Hn Hrun s1.
  destruct (run_ok_state_after ps g k Hin Hcalm)
    as ((_ & Hladder & Hok & Hdone & _) & _ & Hps).
  assert (Hs : state_after k ps g = s) by (unfold state_after; by rewrite Hrun).
  rewrite Hs in *.
  pose proof Hladder as (Hlen & _).
  pose proof (ladder_ok_check_arrivals s Hladder) as (Hlen1 & _). fold s1 in Hlen1.
  assert (Hentries : entries_ok (current_time s + 1) (processes s1) (queued s1)).
  { apply entries_ok_check_arrivals; [rewrite Hlen; unfold NUM_QUEUES; lia | done..]. }
  pose proof (entries_ok_length _ _ _ Hentries) as Htotal.
  rewrite (queued_three s1 Hlen1) in Htotal. cbn in Htotal.
  rewrite !length_app, length_nil in Htotal.
  assert (Hsame : length (processes s1) = length (processes s)).
  { symmetry. apply (Forall2_length _ _ _
      (frame_check_arrivals same_times same_times_enqueue s)). }
  assert (Hroom : count (queue_at s1 0) + count (queue_at s1 1)
                  + count (queue_at s1 2) ≤ MAX_PROCESSES)
    by (unfold count; lia).
  split; [done |].
  intros Hint Hdue. rewrite (priority_boost_due s1 Hint Hdue).
  set (s0 := printf (EvBoost (current_time s1)) s1).
  assert (Hs0 : ∀ q, queue_at s0 q = queue_at s1 q) by done.
  destruct (boost_level_room s0 1) as (H10 & H11 & H1o & H1len & _);
    [done | cbn; rewrite Hlen1; unfold NUM_QUEUES; lia
     | unfold count in *; rewrite !Hs0; lia |].
  set (s2 := boost_level s0 1) in *. rewrite !Hs0 in *.
  assert (H12 : queue_at s2 2 = queue_at s1 2) by (by rewrite H1o, Hs0).
  destruct (boost_level_room s2 2) as (H20 & H22 & H2o & _ & _);
    [done | rewrite H1len; cbn; rewrite Hlen1; unfold NUM_QUEUES; lia
     | unfold count in *; rewrite H10, H12, length_app; cbn; lia |].
  change (queue_at (with_last_boost_time (current_time s1) (boost_level s2 2)))
    with (queue_at (boost_level s2 2)).
  split; [rewrite H20, H10, H12; by rewrite <- app_assoc |].
  split; [rewrite H2o by done; exact H11 | exact H22].
Qed.

(** ** The order of selection *)

Lemma pop_highest_first lvls s :
  match pop_highest lvls s with
  | (None, s') => s' = s ∧ Forall (λ q, qprocs (queue_at s q) = []) lvls
  | (Some cur, s') =>
      ∃ above q below tl,
        lvls = above ++ q :: below
        ∧ Forall (λ q', qprocs (queue_at s q') = []) above
        ∧ qprocs (queue_at s q) = cur :: tl
        ∧ s' = set_queue q (set_qprocs tl (queue_at s q)) s
  end.
Proof.
  induction lvls as [| q lvls IH]; cbn; [done |].
  destruct (qprocs (queue_at s q)) as [| p tl] eqn:Hq.
  - destruct (pop_highest lvls s) as [[cur |] s'].
    + destruct IH as (above & q' & below & tl & -> & Habove & Hhead & ->).
      exists (q :: above), q', below, tl. split; [done |].
      split; [by constructor | done].
    + destruct IH as [-> Hall]. split; [done |]. by constructor.
  - exists [], q, lvls, tl. by split; [| split; [constructor |]].
Qed.

(** X16. [get_next_process], after the boost if one is due: it returns
    [NULL] exactly when every level is empty, and then changes nothing
    more; otherwise it returns the head of the first level that is not
    empty, every level above it being empty (Rule 1), leaves the rest
    of that level in its order (Rule 2), and changes neither another
    level nor a process nor the clock. *)
Theorem selection_order s :
  match get_next_process s with
  | (None, s1) =>
      s1 = priority_boost s
      ∧ qprocs (queue_at (priority_boost s) 0) = []
      ∧ qprocs (queue_at (priority_boost s) 1) = []
      ∧ qprocs (queue_at (priority_boost s) 2) = []
  | (Some cur, s1) =>
      ∃ q tl,
        (q = 0 ∨ q = 1 ∨ q = 2)
        ∧ qprocs (queue_at (priority_boost s) q) = cur :: tl
        ∧ (∀ q', 0 ≤ q' < q → qprocs (queue_at (priority_boost s) q') = [])
        ∧ qprocs (queue_at s1 q) = tl
        ∧ time_quantum (queue_at s1 q) = time_quantum (queue_at (priority_boost s) q)
        ∧ (∀ q', 0 ≤ q' → q' ≠ q →
             queue_at s1 q' = queue_at (priority_boost s) q')
        ∧ processes s1 = processes (priority_boost s)
        ∧ current_time s1 = current_time (priority_boost s)
  end.
Proof.
  unfold get_next_process. generalize (priority_boost s). intros st.
  pose proof (pop_highest_first (levels 0) st) as Hpop.
  destruct (pop_highest (levels 0) st) as [[cur |] s1].
  - destruct Hpop as (above & q & below & tl & Hlvls & Habove & Hhead & ->).
    change (levels 0) with [0; 1; 2] in Hlvls.
    exists q, tl.
    assert (Hq : (q = 0 ∨ q = 1 ∨ q = 2)
                 ∧ ∀ q', 0 ≤ q' < q → qprocs (queue_at st q') = []).
    { destruct above as [| a [| b [| c above]]]; simplify_eq/=.
      - split; [by left | intros q' ?; lia].
      - apply Forall_cons in Habove as [H0 _].
        split; [right; by left |]. intros q' ?. by replace q' with 0 by lia.
      - apply Forall_cons in Habove as [H0 Habove].
        apply Forall_cons in Habove as [H1 _].
        split; [right; by right |]. intros q' ?.
        destruct (decide (q' = 0)) as [-> | ?]; [done |].
        by replace q' with 1 by lia.
      - by destruct above. }
    destruct Hq as [Hq Hfirst].
    assert (Hrange : (Z.to_nat q < length (queues st))%nat).
    { unfold queue_at in Hhead. apply lookup_lt_is_Some.
      destruct (queues st !! Z.to_nat q); [done | by cbn in Hhead]. }
    do 3 (split; [done |]).
    rewrite queue_at_set_queue_eq by done. cbn.
    do 2 (split; [done |]). split; [| done].
    intros q' Hq' Hne. apply queue_at_set_queue_ne. lia.
  - destruct Hpop as [-> Hall]. split; [done |].
    change (levels 0) with [0; 1; 2] in Hall.
    apply Forall_cons in Hall as [H0 Hall].
    apply Forall_cons in Hall as [H1 Hall].
    by apply Forall_cons in Hall as [H2 _].
Qed.

(** ** The run of an I/O-bound process *)

(** X17. In a run whose bursts are non-negative [int]s an I/O-bound
    process is always dispatched with the quantum 10 of level 0, and so
    runs for 2 time units, or for its remaining time if that is less. *)
Theorem io_bound_run_time ps g k cur s1 p0 :
  Forall (λ p, 0 ≤ burst_time p ≤ INT_MAX) ps →
  get_next_process (check_arrivals (state_after k ps g)) = (Some cur, s1) →
  processes s1 !! cur = Some p0 →
  is_io_bound p0 ≠ 0 →
  time_quantum (queue_at s1 (current_queue p0)) = 10
  ∧ run_time_of p0 (time_quantum (queue_at s1 (current_queue p0)))
    = Z.min 2 (remaining_time p0)
  ∧ ∃ p, processes (dispatch cur s1) !! cur = Some p
         ∧ remaining_time p = remaining_time p0 - Z.min 2 (remaining_time p0)
         ∧ current_queue p = 0.
Proof.
  intros Hps Hsel Hp Hio.
  assert (Hk : table_ok (state_after k ps g)).
  { apply (run_induction table_ok ps g k); [by apply table_ok_start | | done].
    intros j s _ _. apply table_ok_loop_body. }
  pose proof (table_ok_selection _ Hk) as Hsel_ok.
  rewrite Hsel in Hsel_ok. cbn in Hsel_ok.
  destruct Hsel_ok as (Hqs & Hprocs & Htop).
  pose proof (Forall_lookup_1 _ _ _ _ Hprocs Hp) as Hp0.
  pose proof (Forall_lookup_1 _ _ _ _ Htop Hp Hio) as Hq0.
  pose proof Hp0 as (Hrem & Hmax & Hlvl & _).
  assert (Hts : time_quantum (queue_at s1 (current_queue p0)) = 10).
  { rewrite (queues_ok_quantum s1 _ Hqs Hlvl), Hq0. by vm_compute. }
  assert (Hrt : run_time_of p0 (time_quantum (queue_at s1 (current_queue p0)))
                = Z.min 2 (remaining_time p0)).
  { rewrite Hts. unfold run_time_of.
    destruct (Z.eqb_spec (is_io_bound p0) 0); [done |].
    change (int_div 10 5) with 2.
    destruct (Z.gtb_spec 2 (remaining_time p0)); lia. }
  do 2 (split; [done |]).
  pose proof (ran_facts cur p0 s1 Hqs Hp0) as Hran. cbv zeta in Hran.
  destruct Hran as (_ & _ & _ & _ & _ & Hrem' & _ & Hq' & _).
  pose proof (io_top_dispatch cur s1 Hqs Hprocs Htop) as Htop'.
  pose proof (static_kept_dispatch cur s1) as Hstatic.
  destruct (Forall2_lookup_l _ _ _ _ _ Hstatic Hp) as (p & Hp' & (_ & _ & Hio' & _)).
  exists p. split; [done |].
  split; [| apply (Forall_lookup_1 _ _ _ _ Htop' Hp'); congruence].
  pose proof (dispatch_cases cur p0 s1 Hp Hqs Hp0) as Hcases. cbv zeta in Hcases.
  rewrite <- Hrt, <- Hrem'.
  set (pr := ran cur p0 s1) in *. clearbody pr.
  destruct Hcases as [[_ Heq] | [(_ & _ & Heq) | (_ & Hcpu & _)]]; [| | done].
  - rewrite Heq in Hp'. cbn in Hp'.
    rewrite (lookup_stored _ _ _ _ Hp) in Hp'. by simplify_eq.
  - rewrite Heq in Hp'. cbn in Hp'.
    rewrite (lookup_stored _ _ _ _ Hp) in Hp'. by simplify_eq.
Qed.

(** ** After an idle iteration *)

(** X18. Whatever the input, when an iteration of a run finds no process
    to run and the idle branch does not leave the loop, the clock has
    moved forward, to the arrival time of a process of the array, and the
    next iteration finds a process to run: the arrival loop admits the
    processes that arrive then, level 0 being empty. *)
Theorem idle_then_dispatch ps g k s1 :
  get_next_process (check_arrivals (state_after k ps g)) = (None, s1) →
  (idle s1).2 = Continue →
  current_time s1 < current_time (idle s1).1
  ∧ (∃ p, p ∈ processes s1 ∧ arrival_time p = current_time (idle s1).1)
  ∧ ∃ cur s2, get_next_process (check_arrivals (idle s1).1) = (Some cur, s2).
Proof.
  intros Hsel Hcont.
  assert (Hk : ladder_ok (queues (state_after k ps g))).
  { apply (run_induction (λ s, ladder_ok (queues s)) ps g k); [| | done].
    - split; [done |]. split; [done |]. repeat constructor; by vm_compute.
    - intros j s _ _. apply ladder_ok_loop_body. }
  pose proof (ladder_ok_get_next_process _ (ladder_ok_check_arrivals _ Hk))
    as (Hlen1 & _).
  rewrite Hsel in Hlen1. cbn in Hlen1.
  assert (Hempty : qprocs (queue_at s1 0) = []).
  { unfold get_next_process in Hsel.
    pose proof (pop_highest_spec (levels 0)
                  (priority_boost (check_arrivals (state_after k ps g)))) as Hpop.
    rewrite Hsel in Hpop. destruct Hpop as [-> Hall].
    change (levels 0) with [0; 1; 2] in Hall.
    by apply Forall_cons in Hall as [H0 _]. }
  unfold idle in *.
  destruct (Z.eqb_spec (find_next_arrival (printf (EvIdle (current_time s1)) s1)) (-1))
    as [Hm | Hm]; [done |].
  cbn [fst negb].
  set (s2 := with_current_time
               (find_next_arrival (printf (EvIdle (current_time s1)) s1))
               (printf (EvIdle (current_time s1)) s1)).
  destruct (next_arrival_later (current_time s1) (processes s1) (-1)
              ltac:(by left)) as [Hnone | Hlater]; [done |].
  destruct (next_arrival_found (current_time s1) (processes s1) (-1))
    as [Hnone | (p & Hpin & Hp)]; [done |].
  split; [exact Hlater |]. split; [by exists p |].
  pose proof Hpin as Hpin'. apply list_elem_of_lookup in Hpin' as [i0 Hi0].
  assert (Hnext : (get_next_process (check_arrivals s2)).1 ≠ None).
  { apply level_0_selected.
    apply (check_arrivals_admits s2 i0 p); [done | done | | done].
    cbn. rewrite Hlen1. unfold NUM_QUEUES. lia. }
  destruct (get_next_process (check_arrivals s2)) as [[cur |] s3]; [| done].
  by exists cur, s3.
Qed.

(** ** The further properties on the runs of the scenarios *)

(** The side conditions of a concrete run, by evaluation: the input is
    within bounds, and the clock is calm at each of the first [n]
    iterations. *)
Ltac input_by_evaluation :=
  split; [repeat constructor; vm_compute; (reflexivity || discriminate)
         | split; vm_compute; discriminate].

Tactic Notation "calm_by_evaluation" integer(n) :=
  let j := fresh "j" in
  let Hj := fresh "Hj" in
  intros j Hj; do n (destruct j as [| j]; [vm_compute; discriminate |]); lia.

Lemma static_attributes_untouched_main :
  length (processes (state_after 12 main_processes initial_globals))
  = length main_processes
  ∧ (∃ p0, main_processes !! 0%nat = Some p0
           ∧ id (mkProcess 1 0 100 30 1 0 0 0 0 0 0) = id p0
           ∧ burst_time (mkProcess 1 0 100 30 1 0 0 0 0 0 0) = burst_time p0
           ∧ is_io_bound (mkProcess 1 0 100 30 1 0 0 0 0 0 0) = is_io_bound p0
           ∧ (is_io_bound p0 = 0 →
              arrival_time (mkProcess 1 0 100 30 1 0 0 0 0 0 0) = arrival_time p0))
  ∧ (first_run_time (mkProcess 1 0 100 90 1 0 0 0 0 0 0) ≠ -1 →
     first_run_time (mkProcess 1 0 100 30 1 0 0 0 0 0 0)
     = first_run_time (mkProcess 1 0 100 90 1 0 0 0 0 0 0)).
Proof.
  apply (static_attributes_untouched main_processes initial_globals 3 12 0).
  - lia.
  - vm_compute. reflexivity.
  - vm_compute. reflexivity.
Defined.

Lemma io_bound_never_demoted_main :
  current_queue (mkProcess 2 22 5 3 0 0 0 0 0 10 1) = 0.
Proof.
  apply (io_bound_never_demoted main_processes initial_globals 3 1).
  - repeat constructor; vm_compute; discriminate.
  - vm_compute. reflexivity.
  - vm_compute. discriminate.
Defined.

Lemma fourth_branch_never_taken_main :
  ∃ evs, trace (state_after 12 main_processes initial_globals)
         = evs ++ trace initial_globals
         ∧ Forall not_returned evs.
Proof.
  apply (fourth_branch_never_taken main_processes initial_globals 12).
  repeat constructor; vm_compute; discriminate.
Defined.

Lemma no_reference_queued_twice_main :
  NoDup (mjoin (qprocs <$> queues (state_after 7 main_processes initial_globals)))
  ∧ (length (mjoin (qprocs <$> queues (state_after 7 main_processes initial_globals)))
     ≤ length main_processes)%nat.
Proof.
  apply (no_reference_queued_twice main_processes initial_globals 7).
  - input_by_evaluation.
  - calm_by_evaluation 7.
Defined.

Lemma queued_process_state_main :
  ∃ p, processes (state_after 7 main_processes initial_globals) !! 3%nat = Some p
       ∧ 0 < remaining_time p
       ∧ current_queue p = 2
       ∧ time_in_current_quantum p = 0
       ∧ arrival_time p < current_time (state_after 7 main_processes initial_globals).
Proof.
  apply (queued_process_state main_processes initial_globals 7 2 3).
  - input_by_evaluation.
  - calm_by_evaluation 7.
  - lia.
  - vm_compute. right. left.
Defined.

Lemma completed_counts_finished_two_jobs :
  completed (state_after 4 two_jobs initial_globals)
  = Z.of_nat (length (filter (λ p, remaining_time p = 0)
                        (processes (state_after 4 two_jobs initial_globals))))
  ∧ (∀ s, run_mlfq_simulation 4 two_jobs initial_globals = Finished s →
          Forall (λ p, remaining_time p = 0) (processes s)).
Proof.
  apply (completed_counts_finished two_jobs initial_globals 4).
  - input_by_evaluation.
  - calm_by_evaluation 4.
Defined.

Lemma clock_advances_main :
  current_time (state_after 1 main_processes initial_globals)
  < current_time (loop_body (state_after 1 main_processes initial_globals)).1.
Proof.
  apply (clock_advances main_processes initial_globals 1).
  - input_by_evaluation.
  - calm_by_evaluation 2.
  - vm_compute. reflexivity.
  - vm_compute. reflexivity.
Defined.

Lemma cpu_bound_statistics_two_jobs :
  turnaround_time (mkProcess 2 0 15 0 1 5 45 45 30 10 0)
  = completion_time (mkProcess 2 0 15 0 1 5 45 45 30 10 0)
    - arrival_time (new_process 2 0 15 0)
  ∧ waiting_time (mkProcess 2 0 15 0 1 5 45 45 30 10 0)
    = turnaround_time (mkProcess 2 0 15 0 1 5 45 45 30 10 0)
      - burst_time (new_process 2 0 15 0)
  ∧ 0 ≤ response_time (mkProcess 2 0 15 0 1 5 45 45 30 10 0)
      ≤ waiting_time (mkProcess 2 0 15 0 1 5 45 45 30 10 0)
  ∧ response_time (mkProcess 2 0 15 0 1 5 45 45 30 10 0)
    = first_run_time (mkProcess 2 0 15 0 1 5 45 45 30 10 0)
      - arrival_time (new_process 2 0 15 0)
  ∧ completion_time (mkProcess 2 0 15 0 1 5 45 45 30 10 0)
    ≤ current_time (state_after 4 two_jobs initial_globals).
Proof.
  apply (cpu_bound_statistics two_jobs initial_globals 4 1).
  - input_by_evaluation.
  - repeat constructor; vm_compute; discriminate.
  - vm_compute. discriminate.
  - calm_by_evaluation 4.
  - vm_compute. reflexivity.
  - vm_compute. reflexivity.
  - vm_compute. reflexivity.
  - vm_compute. reflexivity.
Defined.

Lemma run_ends_two_jobs :
  ∃ s, run_mlfq_simulation 90 two_jobs initial_globals = Finished s
       ∨ run_mlfq_simulation 90 two_jobs initial_globals = Aborted s.
Proof.
  apply (run_ends two_jobs initial_globals 90).
  - input_by_evaluation.
  - calm_by_evaluation 90.
  - vm_compute. discriminate.
Defined.

Lemma report_cpu_rows_two_jobs :
  row_id (mkRow 2 false 15 10 45 45 30) = id (new_process 2 0 15 0)
  ∧ row_io_bound (mkRow 2 false 15 10 45 45 30) = false
  ∧ row_burst (mkRow 2 false 15 10 45 45 30) = burst_time (new_process 2 0 15 0)
  ∧ row_turnaround (mkRow 2 false 15 10 45 45 30)
    = row_completion (mkRow 2 false 15 10 45 45 30)
      - arrival_time (new_process 2 0 15 0)
  ∧ row_waiting (mkRow 2 false 15 10 45 45 30)
    = row_turnaround (mkRow 2 false 15 10 45 45 30)
      - burst_time (new_process 2 0 15 0)
  ∧ 0 ≤ row_response (mkRow 2 false 15 10 45 45 30)
      ≤ row_waiting (mkRow 2 false 15 10 45 45 30).
Proof.
  apply (report_cpu_rows two_jobs initial_globals 4
           (state_after 4 two_jobs initial_globals) 1).
  - input_by_evaluation.
  - repeat constructor; vm_compute; discriminate.
  - vm_compute. discriminate.
  - calm_by_evaluation 4.
  - vm_compute. reflexivity.
  - vm_compute. reflexivity.
  - vm_compute. reflexivity.
  - vm_compute. reflexivity.
Defined.

Lemma arrivals_admitted_main :
  3%nat ∈ qprocs (queue_at
                    (check_arrivals (state_after 1 main_processes initial_globals)) 0).
Proof.
  apply (arrivals_admitted main_processes initial_globals 1
           (state_after 1 main_processes initial_globals) 3
           (mkProcess 4 10 80 80 0 0 0 0 0 (-1) 0)).
  - input_by_evaluation.
  - calm_by_evaluation 1.
  - vm_compute. discriminate.
  - vm_compute. reflexivity.
  - vm_compute. reflexivity.
  - vm_compute. reflexivity.
Defined.


Lemma boost_loses_nothing_main :
  count (queue_at main_at_66 0) + count (queue_at main_at_66 1)
  + count (queue_at main_at_66 2) ≤ MAX_PROCESSES
  ∧ (is_int (current_time main_at_66 - last_boost_time main_at_66) →
     boost_interval main_at_66 ≤ current_time main_at_66 - last_boost_time main_at_66 →
     qprocs (queue_at (priority_boost main_at_66) 0)
     = qprocs (queue_at main_at_66 0) ++ qprocs (queue_at main_at_66 1)
       ++ qprocs (queue_at main_at_66 2)
     ∧ qprocs (queue_at (priority_boost main_at_66) 1) = []
     ∧ qprocs (queue_at (priority_boost main_at_66) 2) = []).
Proof.
  apply (boost_loses_nothing main_processes initial_globals 7
           (state_after 7 main_processes initial_globals)).
  - input_by_evaluation.
  - calm_by_evaluation 7.
  - vm_compute. discriminate.
  - vm_compute. reflexivity.
Defined.

Lemma dispatch_reads_a_process_main :
  is_Some (processes main_first_dispatch !! 0%nat).
Proof.
  apply (dispatch_reads_a_process 0 main_processes initial_globals 0%nat
           main_first_dispatch).
  vm_compute. reflexivity.
Defined.

Lemma io_bound_run_time_main :
  time_quantum (queue_at (get_next_process
                            (check_arrivals
                               (state_after 1 main_processes initial_globals))).2
                  (current_queue (mkProcess 2 0 5 5 0 0 0 0 0 (-1) 1))) = 10
  ∧ run_time_of (mkProcess 2 0 5 5 0 0 0 0 0 (-1) 1)
      (time_quantum (queue_at (get_next_process
                                 (check_arrivals
                                    (state_after 1 main_processes initial_globals))).2
                       (current_queue (mkProcess 2 0 5 5 0 0 0 0 0 (-1) 1))))
    = Z.min 2 (remaining_time (mkProcess 2 0 5 5 0 0 0 0 0 (-1) 1))
  ∧ ∃ p, processes
           (dispatch 1%nat
              (get_next_process
                 (check_arrivals (state_after 1 main_processes initial_globals))).2)
         !! 1%nat = Some p
         ∧ remaining_time p
           = remaining_time (mkProcess 2 0 5 5 0 0 0 0 0 (-1) 1)
             - Z.min 2 (remaining_time (mkProcess 2 0 5 5 0 0 0 0 0 (-1) 1))
         ∧ current_queue p = 0.
Proof.
  apply (io_bound_run_time main_processes initial_globals 1).
  - repeat constructor; vm_compute; discriminate.
  - vm_compute. reflexivity.
  - vm_compute. reflexivity.
  - vm_compute. discriminate.
Defined.

Lemma idle_then_dispatch_lone_io :
  current_time (get_next_process (check_arrivals lone_io_at_2)).2
  < current_time (idle (get_next_process (check_arrivals lone_io_at_2)).2).1
  ∧ (∃ p, p ∈ processes (get_next_process (check_arrivals lone_io_at_2)).2
          ∧ arrival_time p
            = current_time (idle (get_next_process (check_arrivals lone_io_at_2)).2).1)
  ∧ ∃ cur s2,
      get_next_process
        (check_arrivals (idle (get_next_process (check_arrivals lone_io_at_2)).2).1)
      = (Some cur, s2).
Proof.
  apply (idle_then_dispatch lone_io_process initial_globals 1).
  - vm_compute. reflexivity.
  - vm_compute. reflexivity.
Defined.
